(** * Author disambiguation: name matching, tiered candidate search,
      composite scoring and position-anchored linking

    A shallow embedding of the matching engine of the repository
    ([src/common/name_matching.py], [src/openalex/query.py],
    [src/google_scholar/search.py], [src/scopus/id_match.py]) together with
    the properties of its natural-language specification.

    Python strings are sequences of Unicode code points and are modelled as
    [list N].  Dictionaries are [gmap]s, sets are [gset]s.  The functions of
    the Python standard library and of [unidecode] that consult the Unicode
    character database are taken as parameters (class [Unicode]); a finite
    excerpt of the real tables ([ucd]) is used for the concrete examples. *)

From Stdlib Require Import ZArith NArith List Bool Ascii String Lia.
From stdpp Require Import base option list gmap sets strings.

Local Open Scope N_scope.

(** ** Python strings *)

Abbreviation pystr := (list N).

(** An ASCII literal as a Python string. *)
Definition str (s : string) : pystr :=
  List.map N_of_ascii (list_ascii_of_string s).
Arguments str _%_string.

(** The character-database primitives the source calls. *)
Class Unicode := {
  str_lower : pystr → pystr;  (* str.lower() *)
  nfkd : pystr → pystr;       (* unicodedata.normalize("NFKD", _) *)
  combining : N → N;          (* unicodedata.combining(ch) *)
  isalnum : N → bool;         (* ch.isalnum() *)
  isspace : N → bool;         (* ch.isspace(), also regex \s and split/strip *)
  unidecode : pystr → pystr;  (* unidecode.unidecode(_) *)
}.

Section Strings.
Context `{U : Unicode}.

(** [str.lstrip()], [str.rstrip()] and [str.strip()] without argument. *)
Fixpoint lstrip (s : pystr) : pystr :=
  match s with
  | [] => []
  | c :: r => if isspace c then lstrip r else s
  end.

Definition rstrip (s : pystr) : pystr := rev (lstrip (rev s)).

Definition strip (s : pystr) : pystr := rstrip (lstrip s).

(** [str.split()] without argument: runs of whitespace separate the tokens
    and no empty token is produced.  [cur] is the token being read,
    reversed. *)
Fixpoint split_go (cur : pystr) (s : pystr) : list pystr :=
  match s with
  | [] => match cur with [] => [] | _ => [rev cur] end
  | c :: r =>
      if isspace c then
        match cur with
        | [] => split_go [] r
        | _ => rev cur :: split_go [] r
        end
      else split_go (c :: cur) r
  end.

Definition split (s : pystr) : list pystr := split_go [] s.

(** [sep.join(parts)]. *)
Fixpoint join (sep : pystr) (parts : list pystr) : pystr :=
  match parts with
  | [] => []
  | [p] => p
  | p :: rest => p ++ sep ++ join sep rest
  end.

(** [re.sub(r"\s+", " ", s)]: every maximal run of whitespace becomes one
    space.  [in_ws] tells that the previous character was whitespace. *)
Fixpoint collapse_go (in_ws : bool) (s : pystr) : pystr :=
  match s with
  | [] => []
  | c :: r =>
      if isspace c then
        if in_ws then collapse_go true r else 32 :: collapse_go true r
      else c :: collapse_go false r
  end.

Definition collapse_ws (s : pystr) : pystr := collapse_go false s.

(** The regex class [\w] on [str] patterns: alphanumeric or underscore. *)
Definition is_word (c : N) : bool := isalnum c || (c =? 95).

(** The class [[-‐]]: HYPHEN-MINUS and U+2010 HYPHEN. *)
Definition is_hyphen (c : N) : bool := (c =? 45) || (c =? 8208).

(** ** [src/common/name_matching.py] *)

Definition COMMON_INSTITUTION_WORDS : list pystr :=
  [ str "universidad"; str "university"; str "college"; str "institute";
    str "instituto"; str "institut"; str "facultad"; str "escuela";
    str "politecnica"; str "autonoma"; str "superior"; str "council" ].

Definition normalize_name (name : pystr) : pystr :=
  match name with
  | [] => []
  | _ =>
      let norm := str_lower (strip name) in
      let norm := nfkd norm in
      let norm := List.filter (λ ch, combining ch =? 0) norm in
      let norm := List.map (λ ch, if is_hyphen ch then 32 else ch) norm in
      let norm := List.filter (λ ch, isalnum ch || isspace ch) norm in
      let norm := collapse_ws norm in
      strip norm
  end.

Definition name_to_bag (name : pystr) : gset pystr :=
  list_to_set (split (normalize_name name)).

(** Returns [(first_names, paternal_last, maternal_last)].  With three or
    more tokens the source reads [tokens[-2]] and [tokens[-1]]. *)
Definition parse_spanish_name (full_name : pystr)
  : list pystr * option pystr * option pystr :=
  let tokens := split (str_lower full_name) in
  match tokens with
  | [] | [_] => (tokens, None, None)
  | t0 :: _ =>
      let first_names := [t0] in
      if (length tokens =? 2)%nat then (first_names, tokens !! 1%nat, None)
      else (first_names,
            tokens !! (length tokens - 2)%nat,
            tokens !! (length tokens - 1)%nat)
  end.

(** [tokenize_name_fields( *fields )]. *)
Definition tokenize_name_fields (fields : list pystr) : list pystr :=
  let combined := str_lower (join (str " ") fields) in
  let combined := unidecode combined in
  let combined := List.map (λ ch, if ch =? 45 then 32 else ch) combined in
  let combined := List.filter (λ ch, is_word ch || isspace ch) combined in
  split combined.

Definition name_tokens_exact_match (tokens_a tokens_b : gset pystr) : bool :=
  bool_decide (tokens_a = tokens_b).

Definition normalize_institution_name (name : pystr) : list pystr :=
  let name := str_lower name in
  let name := List.map (λ ch, if ch =? 45 then 32 else ch) name in
  let name := List.filter (λ ch, is_word ch || isspace ch) name in
  let name := unidecode name in
  let tokens := split name in
  List.filter (λ t, negb (bool_decide (t ∈ COMMON_INSTITUTION_WORDS))) tokens.

Definition institution_match (institution affiliation : pystr) : bool :=
  let inst_tokens := normalize_institution_name institution in
  let aff_tokens := normalize_institution_name affiliation in
  match inst_tokens with
  | [] => false
  | _ => existsb (λ t, bool_decide (t ∈ aff_tokens)) inst_tokens
  end.

End Strings.

(** ** An excerpt of the Unicode character database

    The tables below tabulate the primitives of [Unicode] on the code points
    U+0000–U+00FF, the combining marks U+0300–U+0304, U+0308, U+030A and
    U+0327, and U+2010, U+2044, U+2122 and U+03BC, with the values of the
    Unicode character database ([unidecode]: ASCII and the Latin-1 letters
    U+00C0–U+00FF only).  Outside these code points the excerpt says
    nothing; the concrete examples stay inside it. *)
Module UCD.

Definition between (lo hi c : N) : bool := (lo <=? c) && (c <=? hi).

Definition lower_cp (c : N) : N :=
  if between 65 90 c || (between 192 222 c && negb (c =? 215))
  then c + 32 else c.

Definition isspace_cp (c : N) : bool :=
  between 9 13 c || between 28 32 c || (c =? 133) || (c =? 160).

Definition isalnum_cp (c : N) : bool :=
  between 48 57 c || between 65 90 c || between 97 122 c
  || (c =? 170) || (c =? 178) || (c =? 179) || (c =? 181) || (c =? 185)
  || (c =? 186) || between 188 190 c
  || (between 192 255 c && negb (c =? 215) && negb (c =? 247))
  || (c =? 956).

Definition combining_cp (c : N) : N :=
  if between 768 772 c || (c =? 776) || (c =? 778) then 230
  else if c =? 807 then 202 else 0.

(** Full compatibility decomposition of one code point. *)
Definition decomp_cp (c : N) : list N :=
  match c with
  | 160 => [32] | 168 => [32; 776] | 170 => [97] | 175 => [32; 772]
  | 178 => [50] | 179 => [51] | 180 => [32; 769] | 181 => [956]
  | 184 => [32; 807] | 185 => [49] | 186 => [111]
  | 188 => [49; 8260; 52] | 189 => [49; 8260; 50] | 190 => [51; 8260; 52]
  | 192 => [65; 768] | 193 => [65; 769] | 194 => [65; 770]
  | 195 => [65; 771] | 196 => [65; 776] | 197 => [65; 778]
  | 199 => [67; 807]
  | 200 => [69; 768] | 201 => [69; 769] | 202 => [69; 770] | 203 => [69; 776]
  | 204 => [73; 768] | 205 => [73; 769] | 206 => [73; 770] | 207 => [73; 776]
  | 209 => [78; 771]
  | 210 => [79; 768] | 211 => [79; 769] | 212 => [79; 770]
  | 213 => [79; 771] | 214 => [79; 776]
  | 217 => [85; 768] | 218 => [85; 769] | 219 => [85; 770] | 220 => [85; 776]
  | 221 => [89; 769]
  | 224 => [97; 768] | 225 => [97; 769] | 226 => [97; 770]
  | 227 => [97; 771] | 228 => [97; 776] | 229 => [97; 778]
  | 231 => [99; 807]
  | 232 => [101; 768] | 233 => [101; 769] | 234 => [101; 770]
  | 235 => [101; 776]
  | 236 => [105; 768] | 237 => [105; 769] | 238 => [105; 770]
  | 239 => [105; 776]
  | 241 => [110; 771]
  | 242 => [111; 768] | 243 => [111; 769] | 244 => [111; 770]
  | 245 => [111; 771] | 246 => [111; 776]
  | 249 => [117; 768] | 250 => [117; 769] | 251 => [117; 770]
  | 252 => [117; 776]
  | 253 => [121; 769] | 255 => [121; 776]
  | 8482 => [84; 77]
  | _ => [c]
  end.

(** Canonical ordering: inside a run of marks of non-zero class, marks are
    sorted by class, marks of equal class keeping their order. *)
Fixpoint insert_mark (m : N) (run : list N) : list N :=
  match run with
  | [] => [m]
  | x :: r =>
      if combining_cp x <=? combining_cp m then x :: insert_mark m r
      else m :: run
  end.

Fixpoint reorder_go (run : list N) (s : pystr) : pystr :=
  match s with
  | [] => run
  | c :: r =>
      if combining_cp c =? 0 then run ++ c :: reorder_go [] r
      else reorder_go (insert_mark c run) r
  end.

Definition nfkd_str (s : pystr) : pystr :=
  reorder_go [] (List.flat_map decomp_cp s).

Definition unidecode_cp (c : N) : list N :=
  if c <? 128 then [c]
  else match c with
  | 198 => str "AE" | 208 => str "D" | 215 => str "x" | 216 => str "O"
  | 222 => str "Th" | 223 => str "ss" | 230 => str "ae" | 240 => str "d"
  | 247 => str "/" | 248 => str "o" | 254 => str "th"
  | _ => if between 192 255 c then List.firstn 1 (decomp_cp c) else []
  end.

End UCD.

Definition ucd : Unicode := {|
  str_lower := List.map UCD.lower_cp;
  nfkd := UCD.nfkd_str;
  combining := UCD.combining_cp;
  isalnum := UCD.isalnum_cp;
  isspace := UCD.isspace_cp;
  unidecode := List.flat_map UCD.unidecode_cp;
|}.

(** ** Exceptions, results and the session state *)

Inductive exn := IndexError | KeyError | RequestError.

Inductive result (A : Type) :=
  | Ok (a : A)
  | Raise (e : exn).
Arguments Ok {A} a.
Arguments Raise {A} e.

(** ** [src/openalex/query.py]: records of the OpenAlex JSON *)

(** A topic, read through
    [topic.get("field", {}).get("display_name", default)] with the empty
    string as default. *)
Record topic := { field_display_name : pystr }.

(** An author record of [data["results"]]; every field is what the
    source's [.get] with its default returns. *)
Record candidate := {
  cand_id : pystr;                         (* get("id"), default empty *)
  display_name : pystr;                    (* get("display_name"), default empty *)
  display_name_alternatives : list pystr;  (* get(..., []) *)
  affiliations : list pystr;  (* institution id of each affiliation, empty if none *)
  topics : list topic;                     (* get("topics", []) *)
  ids : list (pystr * pystr);              (* get("ids", {}).items() *)
  works_count : option Z;
  cited_by_count : option Z;
  summary_stats : list (pystr * pystr);    (* items, values rendered *)
}.

(** The 12-tuple stored per accepted candidate; [ct_alex_id] is index 4,
    [ct_relevance] index 10 and [ct_topics] the last component. *)
Record candidate_tuple := {
  ct_fs_id : pystr;
  ct_name : pystr;
  ct_alternatives : list pystr;
  ct_field : pystr;
  ct_alex_id : pystr;
  ct_orcid : pystr;
  ct_scopus : pystr;
  ct_works_count : option Z;
  ct_cited_by_count : option Z;
  ct_summary_stats : pystr;
  ct_relevance : option Z;
  ct_topics : list topic;
}.

(** The objects a run mutates in place, the cache file and the log of the
    URLs requested so far. *)
Record session := {
  candidate_dict : gmap pystr (list candidate_tuple);
  reject_dict : gmap pystr bool;
  ins_cache : gmap pystr pystr;
  cache_file : option (gmap pystr pystr);
  requests : list pystr;
}.

Definition set_candidate_dict (d : gmap pystr (list candidate_tuple))
    (st : session) : session :=
  {| candidate_dict := d; reject_dict := reject_dict st;
     ins_cache := ins_cache st; cache_file := cache_file st;
     requests := requests st |}.

Definition set_reject_dict (d : gmap pystr bool) (st : session) : session :=
  {| candidate_dict := candidate_dict st; reject_dict := d;
     ins_cache := ins_cache st; cache_file := cache_file st;
     requests := requests st |}.

Definition set_ins_cache (d : gmap pystr pystr) (st : session) : session :=
  {| candidate_dict := candidate_dict st; reject_dict := reject_dict st;
     ins_cache := d; cache_file := cache_file st;
     requests := requests st |}.

Definition set_cache_file (f : option (gmap pystr pystr)) (st : session)
    : session :=
  {| candidate_dict := candidate_dict st; reject_dict := reject_dict st;
     ins_cache := ins_cache st; cache_file := f;
     requests := requests st |}.

Definition log_request (url : pystr) (st : session) : session :=
  {| candidate_dict := candidate_dict st; reject_dict := reject_dict st;
     ins_cache := ins_cache st; cache_file := cache_file st;
     requests := requests st ++ [url] |}.

(** Computations that mutate the session and may raise; the session
    survives an exception, as in-place mutation does. *)
Definition M (A : Type) : Type := session → result A * session.

Definition ret {A} (a : A) : M A := λ st, (Ok a, st).

Definition bind {A B} (m : M A) (k : A → M B) : M B :=
  λ st, match m st with
        | (Ok a, st') => k a st'
        | (Raise e, st') => (Raise e, st')
        end.

Definition lift {A} (r : result A) : M A := λ st, (r, st).

Definition get_session : M session := λ st, (Ok st, st).

Definition modify (f : session → session) : M unit := λ st, (Ok tt, f st).

Declare Scope session_scope.
Delimit Scope session_scope with M.
Notation "'do' x <- m ; k" := (bind m (λ x, k))
  (at level 10, x name, m at level 100, k at level 200) : session_scope.
Notation "m ;;; k" := (bind m (λ _ : unit, k))
  (at level 100, k at level 200, right associativity) : session_scope.

(** A [for] loop whose body may raise. *)
Fixpoint for_each {A} (body : A → M unit) (l : list A) : M unit :=
  match l with
  | [] => ret tt
  | a :: r => bind (body a) (λ _, for_each body r)
  end.

(** Replies of the two OpenAlex endpoints.  [InstFailed] and [AuthFailed]
    stand for an exception raised by [requests.get] or [response.json()];
    a reply carries the status code and the fields of the body the source
    reads. *)
Inductive inst_reply :=
  | InstFailed
  | InstReply (status : Z) (results : list (option pystr)).
      (* data.get("results"), each entry's "id" if present *)

Inductive authors_reply :=
  | AuthFailed
  | AuthReply (status : Z) (meta_count : Z)
              (results : option (list candidate)).
      (* data.get("meta", {}).get("count", 0) and data["results"] *)

Definition CACHE_SENTINEL : pystr := str "MANUAL_REQUIRED".
Definition OPENALEX_EMAIL : pystr := str "jcere@umich.edu".

Section OpenAlex.
Context `{U : Unicode}.

(** The network: the reply to a request depends on the URL and on the
    number of requests made before it. *)
Variable get_institutions : nat → pystr → inst_reply.
Variable get_authors : nat → pystr → authors_reply.

(** *** [resolve_institution_id] *)

(** Number of leading whitespace characters. *)
Fixpoint ws_len (s : pystr) : nat :=
  match s with
  | c :: r => if isspace c then S (ws_len r) else O
  | [] => O
  end.

(** Index of the first closing parenthesis of [s] when no newline precedes
    it: the lazy wildcard up to the closing parenthesis. *)
Fixpoint paren_len (s : pystr) : option nat :=
  match s with
  | [] => None
  | c :: r =>
      if c =? 41 then Some O
      else if c =? 10 then None
      else S <$> paren_len r
  end.

(** Length of the longest prefix without newline: the greedy wildcard. *)
Fixpoint line_len (s : pystr) : nat :=
  match s with
  | c :: r => if c =? 10 then O else S (line_len r)
  | [] => O
  end.

(** Length of the match, at the start of [s], of the pattern that
    [resolve_institution_id] deletes: optional whitespace, then either a
    parenthesised group closed on the same line (the shortest one), or a
    comma, a slash or a hyphen-minus with the rest of the line. *)
Definition match_len (s : pystr) : option nat :=
  let w := ws_len s in
  match drop w s with
  | c :: r =>
      if c =? 40 then (λ n, w + 1 + n + 1)%nat <$> paren_len r
      else if (c =? 44) || (c =? 47) || (c =? 45)
           then Some (w + 1 + line_len r)%nat
      else None
  | [] => None
  end.

(** [re.sub] with an empty replacement: matches are found left to right and
    removed;
    [skip] counts the characters of the current match still to drop. *)
Fixpoint clean_go (skip : nat) (s : pystr) : pystr :=
  match s with
  | [] => []
  | c :: r =>
      match skip with
      | S k => clean_go k r
      | O =>
          match match_len s with
          | Some (S k) => clean_go k r
          | _ => c :: clean_go O r
          end
      end
  end.

(** The cache key: the cleaned and stripped institution name, a missing
    name counting as the empty string. *)
Definition clean_institution (ins_name : option pystr) : pystr :=
  strip (clean_go O (default [] ins_name)).

Definition institutions_url (ins_clean : pystr) : pystr :=
  str "https://api.openalex.org/institutions?search=" ++ ins_clean
  ++ str "&mailto=" ++ OPENALEX_EMAIL.

(** [cache[ins_clean] = v; save_institution_cache(cache)]. *)
Definition cache_and_save (ins_clean v : pystr) : M unit :=
  modify (λ st,
    let c := <[ins_clean := v]> (ins_cache st) in
    set_cache_file (Some c) (set_ins_cache c st)).

Definition resolve_institution_id (ins_name : option pystr)
    : M (option pystr) :=
  let ins_clean := clean_institution ins_name in
  (do st <- get_session;
   match ins_cache st !! ins_clean with
   | Some cached =>
       ret (if bool_decide (cached = CACHE_SENTINEL) then None
            else Some cached)
   | None =>
       let url := institutions_url ins_clean in
       let reply := get_institutions (length (requests st)) url in
       modify (log_request url);;;
       match reply with
       | InstFailed => cache_and_save ins_clean CACHE_SENTINEL;;; ret None
       | InstReply status results =>
           if bool_decide (status ≠ 200%Z) then
             cache_and_save ins_clean CACHE_SENTINEL;;; ret None
           else
             match results with
             | [] => cache_and_save ins_clean CACHE_SENTINEL;;; ret None
             | None :: _ =>
                 cache_and_save ins_clean CACHE_SENTINEL;;; ret None
             | Some ins_id :: _ =>
                 cache_and_save ins_clean ins_id;;; ret (Some ins_id)
             end
       end
   end)%M.

(** *** [bag_of_words_reject] *)

(** The loop over [enumerate(candidate_tokens)], from index [i]. *)
Fixpoint token_checks (i : nat) (candidate_tokens full_name_tokens : list pystr)
    : result bool :=
  match candidate_tokens with
  | [] => Ok false
  | token :: rest =>
      if (length full_name_tokens <=? i)%nat then Ok true
      else if (length token <? 2)%nat then
        match full_name_tokens !! i with
        | Some (c0 :: _) =>
            if bool_decide (token ≠ [c0]) then Ok true
            else token_checks (S i) rest full_name_tokens
        | _ => Raise IndexError   (* full_name_tokens[i][0] on an empty token *)
        end
      else if bool_decide (token ∉ full_name_tokens) then Ok true
      else token_checks (S i) rest full_name_tokens
  end.

(** [candidate_name] and [full_name] are only logged. *)
Definition bag_of_words_reject (candidate_tokens full_name_tokens : list pystr)
    (candidate_name full_name : pystr) (reject_dict : gmap pystr bool)
    (candidate_alex_id : pystr) : result bool :=
  if bool_decide (candidate_alex_id ∈ dom reject_dict) then Ok true
  else token_checks 0 candidate_tokens full_name_tokens.

(** *** [gather_candidate_data] *)

(** [", ".join(v for k, v in other_ids.items() if k == key)]. *)
Definition ids_of (key : pystr) (other_ids : list (pystr * pystr)) : pystr :=
  join (str ", ")
    (List.map snd (List.filter (λ kv, bool_decide (kv.1 = key)) other_ids)).

Definition make_candidate_tuple (fs_id : pystr) (c : candidate)
    (candidate_name : pystr) (alternatives : list pystr) : candidate_tuple :=
  {| ct_fs_id := fs_id;
     ct_name := candidate_name;
     ct_alternatives := alternatives;
     ct_field := match topics c with
                 | t :: _ => field_display_name t
                 | [] => []
                 end;
     ct_alex_id := cand_id c;
     ct_orcid := ids_of (str "orcid") (ids c);
     ct_scopus := ids_of (str "scopus") (ids c);
     ct_works_count := works_count c;
     ct_cited_by_count := cited_by_count c;
     ct_summary_stats :=
       join (str ", ")
         (List.map (λ kv, kv.1 ++ str ": " ++ kv.2) (summary_stats c));
     ct_relevance := None;
     ct_topics := topics c |}.

(** [candidate_dict[fs_id].append(candidate_tuple)]; the subscript raises
    [KeyError] on a missing key. *)
Definition gather_candidate_data (fs_id : pystr) (c : candidate)
    (candidate_name : pystr) (alternatives : list pystr) : M unit :=
  λ st,
    match candidate_dict st !! fs_id with
    | Some l =>
        let t := make_candidate_tuple fs_id c candidate_name alternatives in
        (Ok tt, set_candidate_dict (<[fs_id := l ++ [t]]> (candidate_dict st)) st)
    | None => (Raise KeyError, st)
    end.

(** *** [search_openalex] *)

(** [any(candidate_alex_id == ct[4] for ct in candidate_dict.get(fs_id, []))]. *)
Definition already_accepted (fs_id candidate_alex_id : pystr) (st : session)
    : bool :=
  existsb (λ ct, bool_decide (candidate_alex_id = ct_alex_id ct))
          (default [] (candidate_dict st !! fs_id)).

(** Lexicographic order on strings and [sorted]. *)
Fixpoint str_leb (a b : pystr) : bool :=
  match a, b with
  | [], _ => true
  | _ :: _, [] => false
  | x :: a', y :: b' => (x <? y) || ((x =? y) && str_leb a' b')
  end.

Fixpoint insert_sorted (x : pystr) (l : list pystr) : list pystr :=
  match l with
  | [] => [x]
  | y :: r => if str_leb x y then x :: l else y :: insert_sorted x r
  end.

Definition sorted (l : list pystr) : list pystr :=
  foldr insert_sorted [] l.

(** [max(existing, key=lambda c: c[10] if c[10] is not None else 0,
    default=None)]: the first element of greatest key. *)
Definition relevance_key (c : candidate_tuple) : Z :=
  default 0%Z (ct_relevance c).

Definition max_by_key {A} (key : A → Z) (l : list A) : option A :=
  match l with
  | [] => None
  | x :: r =>
      Some (fold_left (λ best c, if (key best <? key c)%Z then c else best) r x)
  end.

(** Case 1: exact name or alternative match. *)
Definition tier1_step (fs_id full_name_norm : pystr) (c : candidate)
    : M unit :=
  let candidate_name := display_name c in
  let candidate_name_norm := normalize_name candidate_name in
  let alternatives := display_name_alternatives c in
  let alternatives_norm := List.map normalize_name alternatives in
  if bool_decide (candidate_name_norm = full_name_norm)
     || existsb (λ alt, bool_decide (full_name_norm = alt)) alternatives_norm
  then
    (do st <- get_session;
     if negb (already_accepted fs_id (cand_id c) st)
     then gather_candidate_data fs_id c candidate_name alternatives
     else ret tt)%M
  else ret tt.

(** The common head of cases 2 and 3: skip an accepted candidate, reject
    and memoise one that fails the gate; [k] is the rest of the body. *)
Definition gated (fs_id full_name : pystr) (c : candidate)
    (candidate_tokens full_name_tokens : list pystr) (k : M unit) : M unit :=
  (do st <- get_session;
   if already_accepted fs_id (cand_id c) st then ret tt
   else
     do rejected <- lift (bag_of_words_reject candidate_tokens full_name_tokens
                            (display_name c) full_name (reject_dict st)
                            (cand_id c));
     if rejected : bool
     then modify (λ st, set_reject_dict (<[cand_id c := true]> (reject_dict st)) st)
     else k)%M.

(** Case 2: institution match with bag-of-words name check. *)
Definition tier2_step (fs_id full_name : pystr) (ins_id : option pystr)
    (c : candidate) : M unit :=
  let candidate_name := display_name c in
  let full_name_tokens := split (normalize_name full_name) in
  let candidate_tokens := split (normalize_name candidate_name) in
  gated fs_id full_name c candidate_tokens full_name_tokens
    (let candidate_institutions :=
       List.filter (λ i, negb (bool_decide (i = []))) (affiliations c) in
     match ins_id with
     | Some ((_ :: _) as i) =>
         if bool_decide (i ∈ candidate_institutions)
         then gather_candidate_data fs_id c candidate_name
                (display_name_alternatives c)
         else ret tt
     | _ => ret tt
     end).

(** Case 3: topic matching against the existing candidates. *)
Definition tier3_step (fs_id full_name : pystr) (c : candidate) : M unit :=
  let candidate_name := display_name c in
  let full_name_tokens := sorted (split (normalize_name full_name)) in
  let candidate_tokens := sorted (split (normalize_name candidate_name)) in
  gated fs_id full_name c candidate_tokens full_name_tokens
    (do st <- get_session;
     let existing_candidates := default [] (candidate_dict st !! fs_id) in
     let potential_topics := topics c in
     match max_by_key relevance_key existing_candidates with
     | None => ret tt
     | Some best_existing =>
         let existing_topics := ct_topics best_existing in
         if existsb (λ topic,
              existsb (λ topic_cmp,
                bool_decide (field_display_name topic
                             = field_display_name topic_cmp))
                (take 2 potential_topics))
              (take 2 existing_topics)
         then gather_candidate_data fs_id c candidate_name
                (display_name_alternatives c)
         else ret tt
     end)%M.

Definition authors_url (q_name : pystr) : pystr :=
  str "https://api.openalex.org/authors?search=" ++ q_name
  ++ str "&mailto=" ++ OPENALEX_EMAIL.

Definition search_openalex (fs_id q_name full_name pais : pystr)
    (ins : option pystr) : M unit :=
  (do ins_id <- resolve_institution_id ins;
   do st <- get_session;
   let url := authors_url q_name in
   let reply := get_authors (length (requests st)) url in
   modify (log_request url);;;
   match reply with
   | AuthFailed => ret tt
   | AuthReply status meta_count results =>
       if bool_decide (status ≠ 200%Z) then ret tt
       else
         modify (λ st,
           match candidate_dict st !! fs_id with
           | Some _ => st
           | None => set_candidate_dict (<[fs_id := []]> (candidate_dict st)) st
           end);;;
         if bool_decide (meta_count = 0%Z) then ret tt
         else
           match results with
           | None => lift (Raise KeyError)   (* data["results"] *)
           | Some results =>
               let full_name_norm := normalize_name full_name in
               for_each (tier1_step fs_id full_name_norm) results;;;
               for_each (tier2_step fs_id full_name ins_id) results;;;
               for_each (tier3_step fs_id full_name) results
           end
   end)%M.

(** *** [run_openalex_pipeline], up to the construction of the data frame *)

Record row := {
  ID : pystr;
  Nombre : pystr;
  Apellido_1 : pystr;
  Nombre_apellidos : pystr;
  Pais : pystr;
  Trabajo_institucion : option pystr;
}.

Definition process_row (r : row) : M unit :=
  let query_name := Nombre r ++ str " " ++ Apellido_1 r in
  search_openalex (ID r) query_name (Nombre_apellidos r) (Pais r)
    (Trabajo_institucion r).

(** The session a run starts from: empty dictionaries and the cache read
    from the cache file, if there is one. *)
Definition initial_session (file : option (gmap pystr pystr)) : session :=
  {| candidate_dict := ∅; reject_dict := ∅;
     ins_cache := default ∅ file; cache_file := file; requests := [] |}.

Definition run_openalex_pipeline (file : option (gmap pystr pystr))
    (df_main : list row) : result unit * session :=
  for_each process_row df_main (initial_session file).

End OpenAlex.

(** ** [src/google_scholar/search.py]: composite scoring of CrossRef items *)

(** An author of a CrossRef item; [None] is an absent key, for which the
    source's [.get] supplies the empty string. *)
Record author := {
  given : option pystr;
  family : option pystr;
  affiliation : list (option pystr);   (* the "name" of each affiliation *)
}.

Record item := {
  item_author : list author;           (* item.get("author", []) *)
  publisher : option pystr;
  date_parts : list (list Z);   (* item.get("created", {}).get("date-parts", []) *)
  DOI : option pystr;
}.

Section Scholar.
Context `{U : Unicode}.

Definition check_affiliation_or_publisher (it : item)
    (institution_name : pystr) : bool :=
  existsb (λ au,
    existsb (λ aff, institution_match institution_name (default [] aff))
            (affiliation au))
    (item_author it)
  || institution_match institution_name (default [] (publisher it)).

Definition get_created_year (it : item) : option Z :=
  match date_parts it with
  | (y :: _) :: _ => Some y
  | _ => None
  end.

Definition check_created_year_in_range (it : item) (scholarship_year : Z)
    (delta : Z) : bool :=
  match get_created_year it with
  | None => false
  | Some year =>
      (scholarship_year - delta <=? year)%Z
      && (year <=? scholarship_year + delta)%Z
  end.

(** [set(tokenize_name_fields(given, family))], a missing field counting
    as the empty string. *)
Definition author_tokens (au : author) : gset pystr :=
  list_to_set (tokenize_name_fields
                 [default [] (given au); default [] (family au)]).

Definition query_tokens (full_name : pystr) : gset pystr :=
  list_to_set (tokenize_name_fields [full_name]).

Definition compute_similarity_score (it : item) (full_name institution_name : pystr)
    (scholarship_year : Z) : Z :=
  let perfect_match :=
    existsb (λ au, bool_decide (query_tokens full_name ⊆ author_tokens au))
            (item_author it) in
  if negb perfect_match then (-999)%Z
  else
    let score := 1%Z in
    let score := if check_affiliation_or_publisher it institution_name
                 then (score + 1)%Z else score in
    let score := if check_created_year_in_range it scholarship_year 5
                 then (score + 1)%Z else score in
    score.

(** [list.sort(key=lambda x: x[0], reverse=True)]: a stable sort by
    decreasing score; equal scores keep their order. *)
Fixpoint insert_desc {A} (x : Z * A) (l : list (Z * A)) : list (Z * A) :=
  match l with
  | [] => [x]
  | y :: r => if (y.1 <=? x.1)%Z then x :: l else y :: insert_desc x r
  end.

Definition sort_desc {A} (l : list (Z * A)) : list (Z * A) :=
  foldr insert_desc [] l.

(** A truthy DOI: present and not empty. *)
Definition truthy (o : option pystr) : option pystr :=
  match o with
  | Some ((_ :: _) as d) => Some d
  | _ => None
  end.

Definition doi_url (doi : pystr) : pystr := str "https://doi.org/" ++ doi.

(** Lines 111-115 of [search_doi]: the surname query sent to CrossRef and
    the full name the results are scored against. *)
Definition doi_queries (name_query given_name : pystr) : pystr * pystr :=
  let '(_, apellido1, apellido2) := parse_spanish_name name_query in
  let last_name_query := default [] (truthy apellido1) in
  let last_name_query :=
    match truthy apellido2 with
    | Some a2 => last_name_query ++ str " " ++ a2
    | None => last_name_query
    end in
  let full_name := strip (given_name ++ str " " ++ last_name_query) in
  (last_name_query, full_name).

(** The fallback test of the loop: some author's token set equals the
    target token set. *)
Definition exact_token_match (full_name : pystr) (it : item) : bool :=
  existsb (λ au, bool_decide (author_tokens au = query_tokens full_name))
          (item_author it).

(** Lines 126-157 of [search_doi]: scoring of the results and selection.
    The result [[{"doi": url, "score": score}]] is rendered as
    [Some (url, score)]. *)
Definition select_doi (full_name institution_name : pystr)
    (scholarship_year : Z) (results : list item) : option (pystr * Z) :=
  let scored_items :=
    List.filter (λ p : Z * item, (0 <? p.1)%Z)
      (List.map (λ it, (compute_similarity_score it full_name institution_name
                          scholarship_year, it)) results) in
  let exact_match_items :=
    List.filter (exact_token_match full_name) results in
  let scored_items := sort_desc scored_items in
  let best_scored := List.filter (λ p : Z * item, (2 <=? p.1)%Z) scored_items in
  let fallback :=
    match exact_match_items with
    | it :: _ =>
        match truthy (DOI it) with
        | Some doi => Some (doi_url doi, 1%Z)
        | None => None
        end
    | [] => None
    end in
  match best_scored with
  | (best_score, best_item) :: _ =>
      match truthy (DOI best_item) with
      | Some doi => Some (doi_url doi, best_score)
      | None => fallback
      end
  | [] => fallback
  end.

(** The sample of search results CrossRef returns for an author query. *)
Variable crossref_sample : pystr → list item.

Definition search_doi (name_query given_name : pystr) (scholarship_year : Z)
    (institution_name : pystr) : option (pystr * Z) :=
  let '(last_name_query, full_name) := doi_queries name_query given_name in
  let results := crossref_sample last_name_query in
  select_doi full_name institution_name scholarship_year results.

End Scholar.

(** ** [src/scopus/id_match.py]: position-anchored linking *)

(** An entry of [data.get("authorships", [])], read through
    [.get("author", {}).get("id")]. *)
Record authorship := { author_id : option pystr }.

(** The reply to the work lookup: [requests.get] or [resp.json()] raised,
    or a status code with the fields of the body the source reads. *)
Inductive work_reply :=
  | WorkFailed
  | WorkReply (status : Z) (work_id : option pystr)
              (authorships : list authorship).

Definition OPENALEX_PREFIX : pystr := str "https://api.openalex.org/works/".

Section Scopus.
Context `{U : Unicode}.

Variable quote : pystr → pystr.    (* requests.utils.quote(_, safe=":/") *)
Variable get_work : pystr → work_reply.

Definition openalex_for_doi_by_index (doi : pystr) (seq : Z)
    : result (option pystr * option pystr) :=
  let doi_url := str "https://doi.org/" ++ strip doi in
  let lookup_url := OPENALEX_PREFIX ++ quote doi_url in
  match get_work lookup_url with
  | WorkFailed => Raise RequestError
  | WorkReply status work_id authorships =>
      if bool_decide (status ≠ 200%Z) then Ok (None, None)
      else
        let idx := (seq - 1)%Z in
        let author_id :=
          if (0 <=? idx)%Z && (idx <? Z.of_nat (length authorships))%Z
          then match authorships !! Z.to_nat idx with
               | Some a => author_id a
               | None => None
               end
          else None in
        Ok (work_id, author_id)
  end.

End Scopus.

(** [str.split(sep)] for a separator of one character: the pieces between
    the separators, empty ones included; never an empty list.  [cur] is
    the piece being read, reversed. *)
Fixpoint split_on_go (sep : N) (cur : pystr) (s : pystr) : list pystr :=
  match s with
  | [] => [rev cur]
  | c :: r =>
      if (c =? sep)%N then rev cur :: split_on_go sep [] r
      else split_on_go sep (c :: cur) r
  end.

Definition split_on (sep : N) (s : pystr) : list pystr := split_on_go sep [] s.

(** Lines 101-104 of [process_researcher_files]: the base name of an input
    file gives the researcher's label, the Scopus identifier and the name
    of the output file.  [parts[-1]] is [List.last] and [parts[:-1]] is
    [removelast]. *)
Definition researcher_file_names (base : pystr) : pystr * pystr * pystr :=
  let parts := split_on 95 base in
  let scopus_id := List.last parts [] in
  let researcher_label := join (str "_") (removelast parts) in
  let out_filename := researcher_label ++ str "_" ++ scopus_id ++ str ".xlsx" in
  (researcher_label, scopus_id, out_filename).

(** * Vocabulary of the specification *)

(** The check a candidate token at position [i] has to satisfy, in the
    words of the specification: the token fails when [i] is beyond the end
    of the target tokens, when it is an initial (shorter than two
    characters) other than the first character of the target token at [i],
    or when it is longer and not a member of the target tokens. *)
Definition fails_check (full_name_tokens : list pystr) (i : nat)
    (token : pystr) : Prop :=
  (length full_name_tokens ≤ i)%nat
  ∨ ((length token < 2)%nat
     ∧ ∃ c0 r, full_name_tokens !! i = Some (c0 :: r) ∧ token ≠ [c0])
  ∨ ((2 ≤ length token)%nat ∧ token ∉ full_name_tokens).

(** The first element of greatest score. *)
Fixpoint first_max {A} (l : list (Z * A)) : option (Z * A) :=
  match l with
  | [] => None
  | x :: r =>
      match first_max r with
      | Some y => if (y.1 <=? x.1)%Z then Some x else Some y
      | None => Some x
      end
  end.

(** [m] preserves the property [P] of sessions, whether it returns or
    raises. *)
Definition preserves (P : session → Prop) {A} (m : M A) : Prop :=
  ∀ st, P st → P (m st).2.

(** Started in a session satisfying [Q], [m] returns a value and ends in
    such a session. *)
Definition returns_in (Q : session → Prop) {A} (m : M A) : Prop :=
  ∀ st, Q st → (∃ a, (m st).1 = Ok a) ∧ Q (m st).2.

(** No identifier occurs twice in a person's list of accepted candidates. *)
Definition unique_ids (st : session) : Prop :=
  ∀ fs l, candidate_dict st !! fs = Some l → NoDup (ct_alex_id <$> l).

(** The person's list of accepted candidates exists. *)
Definition has_person (fs_id : pystr) (st : session) : Prop :=
  is_Some (candidate_dict st !! fs_id).

Section Vocabulary.
Context `{U : Unicode}.

(** Some single author's given and family tokens contain every token of
    the target name. *)
Definition name_match_perfect (it : item) (full_name : pystr) : Prop :=
  ∃ au, au ∈ item_author it ∧ query_tokens full_name ⊆ author_tokens au.

(** An author affiliation or the publisher matches the institution. *)
Definition affiliation_or_publisher_match (it : item)
    (institution_name : pystr) : Prop :=
  (∃ au aff, au ∈ item_author it ∧ aff ∈ affiliation au
             ∧ institution_match institution_name (default [] aff) = true)
  ∨ institution_match institution_name (default [] (publisher it)) = true.

(** The creation year exists and lies within [reference ± 5], inclusive. *)
Definition year_within_range (it : item) (scholarship_year : Z) : Prop :=
  ∃ y, get_created_year it = Some y
       ∧ (scholarship_year - 5 ≤ y ≤ scholarship_year + 5)%Z.

(** The tokens of an institution name before the stop words are dropped. *)
Definition institution_words (name : pystr) : list pystr :=
  split (unidecode
           (List.filter (λ ch, is_word ch || isspace ch)
              (List.map (λ ch, if ch =? 45 then 32 else ch)
                 (str_lower name)))).

(** Every whitespace character is a single space between two other
    characters; [prev_ws] tells that the previous character was one. *)
Fixpoint collapsed (prev_ws : bool) (s : pystr) : Prop :=
  match s with
  | [] => True
  | c :: r =>
      if isspace c then c = 32 ∧ prev_ws = false ∧ collapsed true r
      else collapsed false r
  end.

(** What the last four steps of [normalize_name] leave. *)
Definition kept (c : N) : Prop :=
  combining c = 0 ∧ is_hyphen c = false ∧ isalnum c || isspace c = true.

Definition no_leading_space (s : pystr) : Prop :=
  match s with
  | c :: _ => isspace c = false
  | [] => True
  end.

(** The string left by the steps that follow the decomposition. *)
Definition finish (s : pystr) : pystr :=
  strip (collapse_ws
    (List.filter (λ ch, isalnum ch || isspace ch)
       (List.map (λ ch, if is_hyphen ch then 32 else ch)
          (List.filter (λ ch, combining ch =? 0) s)))).

End Vocabulary.

Section SelectionVocabulary.
Context `{U : Unicode}.
Variables (full_name institution_name : pystr) (scholarship_year : Z).

Local Abbreviation score it :=
  (compute_similarity_score it full_name institution_name scholarship_year).

(** [it] is the first document of greatest score, in the order of the
    result set. *)
Definition first_best (results : list item) (it : item) : Prop :=
  ∃ i, results !! i = Some it
       ∧ (∀ j it', results !! j = Some it' → (score it' ≤ score it)%Z)
       ∧ (∀ j it', (j < i)%nat → results !! j = Some it' →
                   (score it' < score it)%Z).

(** Some single author's token set equals the target token set. *)
Definition exact_author (it : item) : Prop :=
  ∃ au, au ∈ item_author it ∧ author_tokens au = query_tokens full_name.

(** [e] is the first document with such an author. *)
Definition first_exact (results : list item) (e : item) : Prop :=
  ∃ i, results !! i = Some e ∧ exact_author e
       ∧ ∀ j e', (j < i)%nat → results !! j = Some e' → ¬ exact_author e'.

(** The fallback: the first document with an exactly matching author
    decides alone, giving its DOI with score 1 when it has a non-empty
    one and nothing when it has none; without such a document the result
    is null. *)
Definition fallback_result (results : list item)
    (r : option (pystr * Z)) : Prop :=
  (∃ e, first_exact results e
        ∧ r = match truthy (DOI e) with
              | Some doi => Some (doi_url doi, 1%Z)
              | None => None
              end)
  ∨ ((∀ e, e ∈ results → ¬ exact_author e) ∧ r = None).

End SelectionVocabulary.

(** * Concrete data for the examples *)

(** The token lists of the gate's examples. *)
Definition tokens_j_garcia : list pystr := [str "j"; str "garcia"].
Definition tokens_juan_garcia_smith : list pystr :=
  [str "juan"; str "garcia"; str "smith"].
Definition tokens_juan_garcia_lopez : list pystr :=
  [str "juan"; str "garcia"; str "lopez"].

(** A name with two given names and two surnames. *)
Definition maria_jose_garcia_lopez : pystr := str "Maria Jose Garcia Lopez".

(** A CrossRef item whose only author, "Ana María Ruiz-Gómez" of the
    Universidad de Zaragoza, carries more tokens than the target name
    "Ana Ruiz"; created in 2017. *)
Definition item_ana_maria : item :=
  {| item_author :=
       [ {| given := Some (str "Ana Mar" ++ [237] ++ str "a");
            family := Some (str "Ruiz-G" ++ [243] ++ str "mez");
            affiliation := [Some (str "Universidad de Zaragoza")] |} ];
     publisher := Some (str "Elsevier");
     date_parts := [[2017; 3; 1]]%Z;
     DOI := Some (str "10.1000/xyz123") |}.

(** A work with three authors. *)
Definition three_authorships : list authorship :=
  [ {| author_id := Some (str "https://openalex.org/A1") |};
    {| author_id := Some (str "https://openalex.org/A2") |};
    {| author_id := Some (str "https://openalex.org/A3") |} ].

(** A works endpoint that answers every lookup with that work. *)
Definition three_author_work (url : pystr) : work_reply :=
  WorkReply 200 (Some (str "https://openalex.org/W1")) three_authorships.

(** An institutions endpoint that knows one institution. *)
Definition mit_id : pystr := str "https://openalex.org/I63966007".

Definition institutions_mit (n : nat) (url : pystr) : inst_reply :=
  InstReply 200 [Some mit_id].

(** The session after a first resolution of "MIT (Cambridge)". *)
Definition session_after_mit : session :=
  (resolve_institution_id (U := ucd) institutions_mit
     (Some (str "MIT (Cambridge)")) (initial_session None)).2.

(** "Núñez-Ríos", with precomposed accented letters. *)
Definition nunez_rios_accented : pystr :=
  [78; 250; 241; 101; 122; 45; 82; 237; 111; 115].

(** The one-character string U+2122 TRADE MARK SIGN. *)
Definition trade_mark : pystr := [8482].

(** Two CrossRef items for the target "Ana Ruiz Gomez".  The first carries
    a further given name, the institution and a creation year in range, but
    no DOI; the second has exactly the target's tokens, a DOI and no other
    signal. *)
Definition item_without_doi : item :=
  {| item_author :=
       [ {| given := Some (str "Ana Maria");
            family := Some (str "Ruiz Gomez");
            affiliation := [Some (str "Universidad de Zaragoza")] |} ];
     publisher := None;
     date_parts := [[2016; 5; 20]]%Z;
     DOI := None |}.

(** An item whose only author has exactly the target's tokens. *)
Definition item_exact : item :=
  {| item_author :=
       [ {| given := Some (str "Ana");
            family := Some (str "Ruiz Gomez");
            affiliation := [] |} ];
     publisher := None;
     date_parts := [];
     DOI := Some (str "10.1000/b") |}.

(** The first item again, this time with a DOI. *)
Definition item_scored_three : item :=
  {| item_author := item_author item_without_doi;
     publisher := None;
     date_parts := [[2016; 5; 20]]%Z;
     DOI := Some (str "10.1000/a") |}.

(** The full search name for the target and the score of an item against
    it, for the Universidad de Zaragoza and the reference year 2015. *)
Definition full_name_ana : pystr :=
  (doi_queries (U := ucd) (str "Ana Ruiz Gomez") (str "Ana")).2.

Definition score_ana (it : item) : Z :=
  compute_similarity_score (U := ucd) it full_name_ana
    (str "Universidad de Zaragoza") 2015.

(** Two result sets, returned whatever the query. *)
Definition sample_without_doi (last_name_query : pystr) : list item :=
  [item_without_doi; item_exact].

Definition sample_with_doi (last_name_query : pystr) : list item :=
  [item_exact; item_scored_three; item_scored_three].

(** A run of the tiered search for "Ana Ruiz Gomez" of the Universidad de
    Zaragoza: the institution, four candidate profiles, the replies of the
    two endpoints and the rows. *)
Definition I_zaragoza : pystr := str "https://openalex.org/I255234318".

Definition topic_chemistry : topic := {| field_display_name := str "Chemistry" |}.
Definition topic_physics : topic := {| field_display_name := str "Physics" |}.

Definition mk_candidate (id name : pystr) (affs : list pystr)
    (tps : list topic) : candidate :=
  {| cand_id := id; display_name := name; display_name_alternatives := [];
     affiliations := affs; topics := tps; ids := [(str "openalex", id)];
     works_count := Some 10%Z; cited_by_count := Some 100%Z;
     summary_stats := [] |}.

(** "Ana Ruiz Gómez", with the target's name, institution and field. *)
Definition cand_A1 : candidate :=
  mk_candidate (str "A1") (str "Ana Ruiz G" ++ [243] ++ str "mez")
    [I_zaragoza] [topic_chemistry].
(** "A. Ruiz" of the target's institution. *)
Definition cand_A2 : candidate :=
  mk_candidate (str "A2") (str "A. Ruiz") [I_zaragoza] [topic_physics].
(** "Ana Gomez", elsewhere, in the field of the first accepted candidate. *)
Definition cand_A3 : candidate :=
  mk_candidate (str "A3") (str "Ana Gomez") [str "https://openalex.org/I9"]
    [topic_physics; topic_chemistry].
(** "Ana Smith": a token that the target name does not have. *)
Definition cand_A4 : candidate :=
  mk_candidate (str "A4") (str "Ana Smith") [I_zaragoza] [topic_chemistry].

Definition institutions_zaragoza (n : nat) (url : pystr) : inst_reply :=
  InstReply 200 [Some I_zaragoza].

Definition authors_ana (n : nat) (url : pystr) : authors_reply :=
  AuthReply 200 5 (Some [cand_A1; cand_A2; cand_A3; cand_A4; cand_A1]).

Definition row_ana : row :=
  {| ID := str "FS1"; Nombre := str "Ana"; Apellido_1 := str "Ruiz";
     Nombre_apellidos := str "Ana Ruiz Gomez"; Pais := str "Spain";
     Trabajo_institucion := Some (str "Universidad de Zaragoza (Spain)") |}.

Definition row_juan : row :=
  {| ID := str "FS2"; Nombre := str "Juan"; Apellido_1 := str "Smith";
     Nombre_apellidos := str "Juan Smith"; Pais := str "Spain";
     Trabajo_institucion := None |}.

(** The same person processed twice in one run. *)
Definition run_ana : result unit * session :=
  run_openalex_pipeline (U := ucd) institutions_zaragoza authors_ana None
    [row_ana; row_ana].

(** The session after another person has been processed as well. *)
Definition session_after_juan : session :=
  (for_each (process_row (U := ucd) institutions_zaragoza authors_ana)
     [row_juan] run_ana.2).2.

(** * Further vocabulary *)

(** The cache file holds what the cache in memory holds. *)
Definition synced (st : session) : Prop :=
  default ∅ (cache_file st) = ins_cache st.

(** The identifiers accepted so far for a person. *)
Definition accepted_ids (fs_id : pystr) (st : session) : list pystr :=
  ct_alex_id <$> default [] (candidate_dict st !! fs_id).

Section SearchParts.
Context `{U : Unicode}.

(** What [search_openalex] does with the reply to its request for
    authors. *)
Definition after_authors_request (fs_id full_name : pystr)
    (ins_id : option pystr) (reply : authors_reply) : M unit :=
  match reply with
  | AuthFailed => ret tt
  | AuthReply status meta_count results =>
      if bool_decide (status ≠ 200%Z) then ret tt
      else
        bind (modify (λ st,
                match candidate_dict st !! fs_id with
                | Some _ => st
                | None => set_candidate_dict (<[fs_id := []]> (candidate_dict st)) st
                end))
          (λ _,
            if bool_decide (meta_count = 0%Z) then ret tt
            else
              match results with
              | None => lift (Raise KeyError)
              | Some results =>
                  bind (for_each (tier1_step fs_id (normalize_name full_name))
                          results)
                    (λ _, bind (for_each (tier2_step fs_id full_name ins_id)
                                  results)
                            (λ _, for_each (tier3_step fs_id full_name)
                                    results))
              end)
  end.

(** The exact-name test of tier 1. *)
Definition exact_name (full_name : pystr) (c : candidate) : Prop :=
  normalize_name (display_name c) = normalize_name full_name
  ∨ ∃ alt, alt ∈ display_name_alternatives c
           ∧ normalize_name full_name = normalize_name alt.

End SearchParts.

(** "Ana Ruiz", without affiliation, in the field "Chemistry". *)
Definition cand_A5 : candidate :=
  mk_candidate (str "A5") (str "Ana Ruiz") [] [topic_chemistry].

Definition authors_without_affiliation (n : nat) (url : pystr) : authors_reply :=
  AuthReply 200 1 (Some [cand_A5]).

(** Every accepted list belongs to one of the persons [persons], and every
    tuple of a list carries the identifier of the person it is filed
    under. *)
Definition filed (persons : list pystr) (st : session) : Prop :=
  ∀ fs l, candidate_dict st !! fs = Some l →
          fs ∈ persons ∧ Forall (λ t, ct_fs_id t = fs) l.

(** A text with nothing for the cleaning of an institution name to
    remove: no opening parenthesis, comma, slash or hyphen-minus. *)
Definition plain (s : pystr) : Prop :=
  Forall (λ c, c ≠ 40 ∧ c ≠ 44 ∧ c ≠ 47 ∧ c ≠ 45) s.

(** * Properties *)

(** ** The embedding on small inputs *)

Example clean_institution_examples :
  clean_institution (U := ucd) (Some (str "Univ. Carlos III / Madrid"))
  = str "Univ. Carlos III"
  ∧ clean_institution (U := ucd) (Some (str "CSIC-UPM")) = str "CSIC"
  ∧ clean_institution (U := ucd) (Some (str "Inst (a) of (b) X"))
    = str "Inst of X"
  ∧ clean_institution (U := ucd) (Some (str "A (unclosed"))
    = str "A (unclosed"
  ∧ clean_institution (U := ucd) (Some (str "MIT (Cambridge)")) = str "MIT"
  ∧ clean_institution (U := ucd) None = [].
Proof. repeat split; vm_compute; reflexivity. Qed.

Example split_join_examples :
  split (U := ucd) (str "  a" ++ [9] ++ str "b" ++ [10] ++ str " c ")
  = [str "a"; str "b"; str "c"]
  ∧ join (str " ") [str "a"; []; str "b"] = str "a  b"
  ∧ sorted [str "ruiz"; str "ana"; str "gomez"; str "a"]
    = [str "a"; str "ana"; str "gomez"; str "ruiz"].
Proof. repeat split; vm_compute; reflexivity. Qed.

Example sort_desc_stable :
  sort_desc [(1, "a"); (3, "b"); (2, "c"); (3, "d"); (1, "e")]%Z
  = [(3, "b"); (3, "d"); (2, "c"); (1, "a"); (1, "e")]%Z
  ∧ max_by_key snd [("a", 1); ("b", 3); ("c", 3)]%Z = Some ("b", 3%Z)
  ∧ truthy (Some []) = None
  ∧ truthy (Some (str "10.1/x")) = Some (str "10.1/x").
Proof. repeat split; vm_compute; reflexivity. Qed.

(** The examples of the specification for the parser: "Juan Pérez López"
    and "Ana Ruiz". *)
Example parse_spanish_name_examples :
  parse_spanish_name (U := ucd)
    (str "Juan P" ++ [233] ++ str "rez L" ++ [243] ++ str "pez")
  = ([str "juan"], Some (str "p" ++ [233] ++ str "rez"),
     Some (str "l" ++ [243] ++ str "pez"))
  ∧ parse_spanish_name (U := ucd) (str "Ana Ruiz")
    = ([str "ana"], Some (str "ruiz"), None)
  ∧ tokenize_name_fields (U := ucd) [str "Rebeca"; str "acin-perez"]
    = [str "rebeca"; str "acin"; str "perez"].
Proof. repeat split; vm_compute; reflexivity. Qed.

(** ** Tokens *)

Section TokenFacts.
Context `{U : Unicode}.

Lemma split_go_nonempty cur s : Forall (λ t, t ≠ []) (split_go cur s).
Proof.
  revert cur. induction s as [|c r IH]; intros cur; simpl.
  - destruct cur as [|x cur]; constructor; [|constructor].
    intros H. apply (f_equal (@length N)) in H.
    rewrite length_rev in H. discriminate.
  - destruct (isspace c); [|apply IH].
    destruct cur as [|x cur]; [apply IH|].
    constructor; [|apply IH].
    intros H. apply (f_equal (@length N)) in H.
    rewrite length_rev in H. discriminate.
Qed.

(** [str.split()] never yields an empty token. *)
Lemma split_nonempty s : Forall (λ t, t ≠ []) (split s).
Proof. apply split_go_nonempty. Qed.

(** Stripping keeps a property of all characters. *)
Lemma lstrip_Forall (Q : N → Prop) s : Forall Q s → Forall Q (lstrip s).
Proof.
  induction 1 as [|c r Hc Hr IH]; simpl; [constructor|].
  destruct (isspace c); [done|by constructor].
Qed.

Lemma strip_Forall (Q : N → Prop) s : Forall Q s → Forall Q (strip s).
Proof.
  intros H. unfold strip, rstrip.
  by apply Forall_rev, lstrip_Forall, Forall_rev, lstrip_Forall.
Qed.

End TokenFacts.

Lemma insert_sorted_Forall (P : pystr → Prop) x l :
  P x → Forall P l → Forall P (insert_sorted x l).
Proof.
  intros Hx Hl. induction Hl as [|y r Hy Hr IH]; simpl.
  - by repeat constructor.
  - destruct (str_leb x y); repeat constructor; auto.
Qed.

Lemma sorted_Forall (P : pystr → Prop) l : Forall P l → Forall P (sorted l).
Proof.
  induction 1 as [|y r Hy Hr IH]; simpl; [constructor|].
  by apply insert_sorted_Forall.
Qed.

(** ** The bag-of-words gate *)

Lemma token_checks_spec target :
  Forall (λ t, t ≠ []) target →
  ∀ cand i0, ∃ b,
    token_checks i0 cand target = Ok b
    ∧ (b = true ↔
       ∃ j token, cand !! j = Some token
                  ∧ fails_check target (i0 + j) token).
Proof.
  intros Hne. induction cand as [|token rest IH]; intros i0; simpl.
  - exists false. split; [done|]. split; [done|].
    intros (j & t & Hj & _). by rewrite lookup_nil in Hj.
  - destruct (Nat.leb_spec (length target) i0) as [Hlen|Hlen].
    { exists true. split; [done|]. split; [|done]. intros _.
      exists 0%nat, token. split; [done|]. left. lia. }
    assert (Hstep : ∀ b,
      ¬ fails_check target i0 token →
      (b = true ↔ ∃ j t, rest !! j = Some t ∧ fails_check target (S i0 + j) t) →
      (b = true ↔ ∃ j t, (token :: rest) !! j = Some t
                         ∧ fails_check target (i0 + j) t)).
    { intros b Hok Hb. rewrite Hb. split.
      - intros (j & t & Hj & Hf). exists (S j), t. split; [done|].
        by replace (i0 + S j)%nat with (S i0 + j)%nat by lia.
      - intros (j & t & Hj & Hf). destruct j as [|j].
        + simpl in Hj. injection Hj as <-.
          by rewrite Nat.add_0_r in Hf.
        + exists j, t. split; [done|].
          by replace (S i0 + j)%nat with (i0 + S j)%nat by lia. }
    destruct (Nat.ltb_spec (length token) 2) as [Hshort|Hlong].
    + destruct (lookup_lt_is_Some_2 target i0 Hlen) as [t Ht].
      rewrite Ht. destruct t as [|c0 r].
      { exfalso. rewrite Forall_forall in Hne.
        apply (Hne []); [|done].
        eapply list_elem_of_lookup_2; eauto. }
      case_bool_decide as Hneq.
      * exists true. split; [done|]. split; [|done]. intros _.
        exists 0%nat, token. split; [done|]. rewrite Nat.add_0_r.
        right; left. eauto.
      * destruct (IH (S i0)) as (b & Hb & Hiff). exists b. split; [done|].
        apply Hstep; [|done].
        intros [H|[(_ & c & r' & Hl & Hd)|(H & _)]]; [lia| |lia].
        rewrite Ht in Hl. injection Hl as <- <-. apply Hd.
        by destruct (decide (token = [c0])).
    + case_bool_decide as Hmem.
      * exists true. split; [done|]. split; [|done]. intros _.
        exists 0%nat, token. split; [done|]. right; right. done.
      * destruct (IH (S i0)) as (b & Hb & Hiff). exists b. split; [done|].
        apply Hstep; [|done].
        intros [H|[(H & _)|(_ & H)]]; [lia|lia|]. exact (H Hmem).
Qed.

(** The memo check comes first: a memoised identifier is rejected whatever
    the tokens are, even where the token checks would raise. *)
Lemma bag_of_words_reject_memo (cand target : list pystr)
    (name fname : pystr) (memo : gmap pystr bool) (id : pystr) :
  id ∈ dom memo → bag_of_words_reject cand target name fname memo id = Ok true.
Proof. intros H. unfold bag_of_words_reject. by rewrite bool_decide_eq_true_2. Qed.

Lemma bag_of_words_reject_fresh (cand target : list pystr)
    (name fname : pystr) (memo : gmap pystr bool) (id : pystr) :
  id ∉ dom memo →
  bag_of_words_reject cand target name fname memo id
  = token_checks 0 cand target.
Proof. intros H. unfold bag_of_words_reject. by rewrite bool_decide_eq_false_2. Qed.

(** C1, as stated, fails: with the candidate's identifier in the rejection
    memo the gate rejects the tokens ["j", "garcia"] against
    ["juan", "garcia", "lopez"] although every token satisfies its check. *)
Lemma bag_of_words_reject_memo_overrides_tokens :
  bag_of_words_reject tokens_j_garcia tokens_juan_garcia_lopez
    (str "J Garcia") (str "Juan Garcia Lopez")
    {[ str "A1" := true ]} (str "A1") = Ok true
  ∧ ¬ ∃ i token, tokens_j_garcia !! i = Some token
                 ∧ fails_check tokens_juan_garcia_lopez i token.
Proof.
  split; [vm_compute; reflexivity|].
  unfold tokens_j_garcia, tokens_juan_garcia_lopez.
  intros (i & token & Hi & Hf).
  destruct i as [|[|i]]; simplify_eq/=.
  - destruct Hf as [H|[(_ & c & r & Hl & Hd)|(H & _)]].
    + vm_compute in H. lia.
    + vm_compute in Hl. by simplify_eq.
    + vm_compute in H. lia.
  - destruct Hf as [H|[(H & _)|(_ & H)]].
    + vm_compute in H. lia.
    + vm_compute in H. lia.
    + apply H. apply list_elem_of_lookup. by exists 1%nat.
Qed.

(** C1 (amended): for target tokens that are not empty, as [split] yields
    them, the gate returns without raising; it rejects exactly when the
    candidate's identifier is already in the rejection memo or some
    candidate token fails its check.  For an identifier that is not in the
    memo, ["j", "garcia"] passes against ["juan", "garcia", "lopez"], and
    ["juan", "garcia", "smith"] is rejected against it in every case. *)
Theorem bag_of_words_reject_spec (cand target : list pystr)
    (name fname : pystr) (memo : gmap pystr bool) (id : pystr) :
  Forall (λ t, t ≠ []) target →
  (∃ b, bag_of_words_reject cand target name fname memo id = Ok b
        ∧ (b = true ↔
           id ∈ dom memo
           ∨ ∃ i token, cand !! i = Some token ∧ fails_check target i token))
  ∧ (id ∉ dom memo →
     bag_of_words_reject tokens_j_garcia tokens_juan_garcia_lopez
       name fname memo id = Ok false)
  ∧ bag_of_words_reject tokens_juan_garcia_smith tokens_juan_garcia_lopez
      name fname memo id = Ok true.
Proof.
  intros Hne. split; [|split].
  - destruct (decide (id ∈ dom memo)) as [Hin|Hout].
    + exists true. split; [by apply bag_of_words_reject_memo|]. tauto.
    + rewrite bag_of_words_reject_fresh by done.
      destruct (token_checks_spec target Hne cand 0) as (b & Hb & Hiff).
      exists b. split; [done|]. rewrite Hiff. simpl. tauto.
  - intros Hout. by rewrite bag_of_words_reject_fresh.
  - destruct (decide (id ∈ dom memo)) as [Hin|Hout].
    + by apply bag_of_words_reject_memo.
    + by rewrite bag_of_words_reject_fresh.
Qed.

Lemma bag_of_words_reject_spec_witness :
  ∃ b, bag_of_words_reject tokens_juan_garcia_smith tokens_juan_garcia_lopez
         (str "Juan Garcia Smith") (str "Juan Garcia Lopez") ∅ (str "A2")
       = Ok b
       ∧ (b = true ↔
          str "A2" ∈ dom (∅ : gmap pystr bool)
          ∨ ∃ i token, tokens_juan_garcia_smith !! i = Some token
                       ∧ fails_check tokens_juan_garcia_lopez i token).
Proof.
  apply (bag_of_words_reject_spec tokens_juan_garcia_smith
           tokens_juan_garcia_lopez (str "Juan Garcia Smith")
           (str "Juan Garcia Lopez") ∅ (str "A2")).
  repeat constructor; discriminate.
Defined.

(** ** Parsing of Spanish names *)

Lemma last_two {A} (l : list A) :
  (2 ≤ length l)%nat → ∃ mid p m, l = mid ++ [p; m].
Proof.
  destruct l as [|m l _] using rev_ind; simpl; [lia|].
  destruct l as [|p l _] using rev_ind; simpl; [lia|].
  intros _. exists l, p, m. by rewrite <- app_assoc.
Qed.

Lemma lookup_second_last {A} (l : list A) (p m : A) :
  (l ++ [p; m]) !! (length (l ++ [p; m]) - 2)%nat = Some p.
Proof.
  rewrite length_app. simpl.
  replace (length l + 2 - 2)%nat with (length l + 0)%nat by lia.
  by rewrite lookup_app_r, Nat.add_comm, Nat.add_sub by lia.
Qed.

Lemma lookup_very_last {A} (l : list A) (p m : A) :
  (l ++ [p; m]) !! (length (l ++ [p; m]) - 1)%nat = Some m.
Proof.
  rewrite length_app. simpl.
  replace (length l + 2 - 1)%nat with (length l + 1)%nat by lia.
  by rewrite lookup_app_r, Nat.add_comm, Nat.add_sub by lia.
Qed.

Lemma parse_spanish_name_three `{U : Unicode} (full_name a : pystr)
    (mid : list pystr) (p m : pystr) :
  split (str_lower full_name) = a :: mid ++ [p; m] →
  parse_spanish_name full_name = ([a], Some p, Some m).
Proof.
  intros Ht. unfold parse_spanish_name. rewrite Ht.
  destruct mid as [|x mid]; [reflexivity|].
  change (a :: (x :: mid) ++ [p; m]) with ((a :: x :: mid) ++ [p; m]).
  rewrite lookup_second_last, lookup_very_last.
  destruct (Nat.eqb_spec (length ((a :: x :: mid) ++ [p; m])) 2) as [E|_];
    [|reflexivity].
  rewrite length_app in E. simpl in E. lia.
Qed.

(** C2, as stated, fails: of the four tokens of "Maria Jose Garcia Lopez"
    the leading ones are "maria" and "jose", but the list of first names
    returned holds "maria" alone. *)
Lemma parse_spanish_name_keeps_first_token_only :
  split (U := ucd) (str_lower (Unicode := ucd) maria_jose_garcia_lopez)
  = [str "maria"; str "jose"; str "garcia"; str "lopez"]
  ∧ parse_spanish_name (U := ucd) maria_jose_garcia_lopez
    = ([str "maria"], Some (str "garcia"), Some (str "lopez"))
  ∧ (parse_spanish_name (U := ucd) maria_jose_garcia_lopez).1.1
    ≠ [str "maria"; str "jose"].
Proof.
  split; [vm_compute; reflexivity|].
  split; [vm_compute; reflexivity|].
  vm_compute. discriminate.
Qed.

(** C2 (amended): with fewer than two tokens both surnames are null and
    the tokens are returned as first names; with exactly two tokens the
    result is (first token, second token, null); with three or more the
    paternal surname is the second-to-last token, the maternal surname the
    last one, and the list of first names holds the first token only (the
    tokens between it and the surnames are not returned). *)
Theorem parse_spanish_name_spec `{U : Unicode} (full_name : pystr)
    (tokens : list pystr) :
  tokens = split (str_lower full_name) →
  ((length tokens < 2)%nat →
     parse_spanish_name full_name = (tokens, None, None))
  ∧ (∀ a b, tokens = [a; b] →
       parse_spanish_name full_name = ([a], Some b, None))
  ∧ ((3 ≤ length tokens)%nat →
       ∃ a mid p m, tokens = a :: mid ++ [p; m]
                    ∧ parse_spanish_name full_name = ([a], Some p, Some m)).
Proof.
  intros ->. repeat split.
  - unfold parse_spanish_name.
    destruct (split (str_lower full_name)) as [|a [|b l]]; simpl; [done|done|lia].
  - intros a b Ht. unfold parse_spanish_name. by rewrite Ht.
  - intros Hlen.
    destruct (split (str_lower full_name)) as [|a rest] eqn:Ht; simpl in Hlen; [lia|].
    destruct (last_two rest) as (mid & p & m & ->); [lia|].
    exists a, mid, p, m. split; [done|].
    exact (parse_spanish_name_three full_name a mid p m Ht).
Qed.

Lemma parse_spanish_name_spec_witness :
  ∃ a mid p m,
    split (U := ucd) (str_lower (Unicode := ucd) maria_jose_garcia_lopez)
    = a :: mid ++ [p; m]
    ∧ parse_spanish_name (U := ucd) maria_jose_garcia_lopez
      = ([a], Some p, Some m).
Proof.
  apply (parse_spanish_name_spec (U := ucd) maria_jose_garcia_lopez _ eq_refl).
  vm_compute. lia.
Defined.

(** ** Composite score *)

Lemma existsb_elem_of {A} (f : A → bool) (l : list A) :
  existsb f l = true ↔ ∃ x, x ∈ l ∧ f x = true.
Proof.
  rewrite existsb_exists. by setoid_rewrite list_elem_of_In.
Qed.

Section ScoreFacts.
Context `{U : Unicode}.

Lemma check_affiliation_or_publisher_spec it institution_name :
  check_affiliation_or_publisher it institution_name = true
  ↔ affiliation_or_publisher_match it institution_name.
Proof.
  unfold check_affiliation_or_publisher, affiliation_or_publisher_match.
  rewrite orb_true_iff, existsb_elem_of.
  split; (intros [H|H]; [left|by right]).
  - destruct H as (au & Hau & H). apply existsb_elem_of in H.
    destruct H as (aff & Haff & H). eauto.
  - destruct H as (au & aff & Hau & Haff & H). exists au. split; [done|].
    apply existsb_elem_of. eauto.
Qed.

Lemma check_created_year_in_range_spec it scholarship_year :
  check_created_year_in_range it scholarship_year 5 = true
  ↔ year_within_range it scholarship_year.
Proof.
  unfold check_created_year_in_range, year_within_range.
  destruct (get_created_year it) as [y|].
  - rewrite andb_true_iff, !Z.leb_le. split.
    + intros [? ?]. exists y. auto.
    + intros (y' & [= <-] & ?). lia.
  - split; [done|]. by intros (y & ? & _).
Qed.

Lemma perfect_match_spec it full_name :
  existsb (λ au, bool_decide (query_tokens full_name ⊆ author_tokens au))
          (item_author it) = true
  ↔ name_match_perfect it full_name.
Proof.
  rewrite existsb_elem_of. unfold name_match_perfect.
  by setoid_rewrite bool_decide_eq_true.
Qed.

Lemma compute_similarity_score_unfold it full_name institution_name year :
  compute_similarity_score it full_name institution_name year
  = if existsb (λ au, bool_decide (query_tokens full_name ⊆ author_tokens au))
               (item_author it)
    then (1 + Z.b2z (check_affiliation_or_publisher it institution_name)
            + Z.b2z (check_created_year_in_range it year 5))%Z
    else (-999)%Z.
Proof.
  unfold compute_similarity_score.
  destruct (existsb _ _); simpl; [|done].
  by destruct (check_affiliation_or_publisher _ _),
              (check_created_year_in_range _ _ _).
Qed.

(** C3: the score is -999 exactly when no single author's token set
    contains the target token set, whatever the other signals; otherwise
    it is 1, plus 1 for an affiliation or publisher match, plus 1 for a
    creation year within the reference year ± 5.  It always lies in
    {-999, 1, 2, 3}; an author token set that strictly contains the target
    tokens scores 3 with both secondary signals and 1 with neither. *)
Theorem compute_similarity_score_spec (it : item)
    (full_name institution_name : pystr) (scholarship_year : Z) :
  let score :=
    compute_similarity_score it full_name institution_name scholarship_year in
  (¬ name_match_perfect it full_name → score = (-999)%Z)
  ∧ (name_match_perfect it full_name →
     ∃ a y : bool,
       (a = true ↔ affiliation_or_publisher_match it institution_name)
       ∧ (y = true ↔ year_within_range it scholarship_year)
       ∧ score = (1 + Z.b2z a + Z.b2z y)%Z)
  ∧ (score = (-999)%Z ∨ score = 1%Z ∨ score = 2%Z ∨ score = 3%Z)
  ∧ ((∃ au, au ∈ item_author it ∧ query_tokens full_name ⊂ author_tokens au) →
     (affiliation_or_publisher_match it institution_name →
      year_within_range it scholarship_year → score = 3%Z)
     ∧ (¬ affiliation_or_publisher_match it institution_name →
        ¬ year_within_range it scholarship_year → score = 1%Z)).
Proof.
  intros score. subst score. rewrite compute_similarity_score_unfold.
  pose proof (perfect_match_spec it full_name) as Hp.
  pose proof (check_affiliation_or_publisher_spec it institution_name) as Ha.
  pose proof (check_created_year_in_range_spec it scholarship_year) as Hy.
  destruct (existsb _ (item_author it)) eqn:E.
  - assert (Hperfect : name_match_perfect it full_name) by by apply Hp.
    split; [done|]. split; [eauto|]. split.
    { destruct (check_affiliation_or_publisher _ _),
               (check_created_year_in_range _ _ _); simpl; auto. }
    intros _. split.
    + intros Haff Hyear. apply Ha in Haff. apply Hy in Hyear.
      by rewrite Haff, Hyear.
    + intros Haff Hyear.
      destruct (check_affiliation_or_publisher _ _);
        [destruct Haff; by apply Ha|].
      destruct (check_created_year_in_range _ _ _);
        [destruct Hyear; by apply Hy|]. done.
  - assert (Hno : ¬ name_match_perfect it full_name).
    { intros H. apply Hp in H. congruence. }
    split; [done|]. split; [done|]. split; [auto|].
    intros (au & Hau & Hsub). destruct Hno. exists au. split; [done|].
    by apply strict_include.
Qed.

End ScoreFacts.

Lemma compute_similarity_score_spec_witness :
  compute_similarity_score (U := ucd) item_ana_maria (str "Ana Ruiz")
    (str "Universidad de Zaragoza") 2015 = 3%Z.
Proof.
  apply (compute_similarity_score_spec (U := ucd) item_ana_maria
           (str "Ana Ruiz") (str "Universidad de Zaragoza") 2015).
  - eexists. split; [by left|].
    apply (bool_decide_unpack _). vm_compute. exact I.
  - left. eexists _, _. split; [by left|]. split; [by left|].
    vm_compute. reflexivity.
  - exists 2017%Z. split; [reflexivity|lia].
Defined.

(** ** Institutions without a distinctive token *)

Section InstitutionFacts.
Context `{U : Unicode}.

(** A name made of stop words only has no distinctive token. *)
Lemma normalize_institution_name_stop_words name :
  Forall (λ t, t ∈ COMMON_INSTITUTION_WORDS) (institution_words name) →
  normalize_institution_name name = [].
Proof.
  unfold normalize_institution_name, institution_words.
  induction 1 as [|t l Ht Hl IH]; simpl; [done|].
  by rewrite bool_decide_eq_true_2.
Qed.

(** C10: when the institution name normalizes to an empty token list,
    [institution_match] is false for every affiliation string, so the
    affiliation-or-publisher check fails for every document and the
    composite score never gets the +1 of that signal: it is -999, 1 or 2. *)
Theorem institution_match_empty_institution (institution_name : pystr) :
  normalize_institution_name institution_name = [] →
  (∀ affiliation, institution_match institution_name affiliation = false)
  ∧ (∀ it, check_affiliation_or_publisher it institution_name = false)
  ∧ (∀ it full_name scholarship_year,
       let score := compute_similarity_score it full_name institution_name
                      scholarship_year in
       score = (-999)%Z ∨ score = 1%Z ∨ score = 2%Z).
Proof.
  intros Hempty.
  assert (Hmatch : ∀ affiliation,
            institution_match institution_name affiliation = false).
  { intros affiliation. unfold institution_match. by rewrite Hempty. }
  assert (Hcheck : ∀ it,
            check_affiliation_or_publisher it institution_name = false).
  { intros it. unfold check_affiliation_or_publisher.
    rewrite Hmatch, orb_false_r.
    induction (item_author it) as [|au l IH]; simpl; [done|].
    rewrite IH, orb_false_r.
    induction (affiliation au) as [|aff l' IH']; simpl; [done|].
    by rewrite Hmatch, IH'. }
  split; [done|]. split; [done|].
  intros it full_name year score. subst score.
  rewrite compute_similarity_score_unfold, Hcheck.
  destruct (existsb _ _); [|auto].
  destruct (check_created_year_in_range _ _ _); simpl; auto.
Qed.

End InstitutionFacts.

Lemma institution_match_empty_institution_witness :
  normalize_institution_name (U := ucd) (str "University") = []
  ∧ normalize_institution_name (U := ucd) (str "Instituto") = []
  ∧ normalize_institution_name (U := ucd) [] = []
  ∧ institution_match (U := ucd) (str "University")
      (str "University of Michigan") = false
  ∧ check_affiliation_or_publisher (U := ucd) item_ana_maria
      (str "University") = false.
Proof.
  split; [vm_compute; reflexivity|].
  split; [vm_compute; reflexivity|].
  split; [vm_compute; reflexivity|].
  pose proof (institution_match_empty_institution (U := ucd)
                (str "University") eq_refl) as (Hm & Hc & _).
  split; [apply Hm | apply Hc].
Defined.

(** ** Position-anchored linking *)

Section LinkFacts.
Context `{U : Unicode}.
Variable quote : pystr → pystr.
Variable get_work : pystr → work_reply.

(** C7: when the lookup of the work succeeds with the ordered author list
    [authorships] of length [n], the function returns without raising; for
    a 1-based position [1 ≤ seq ≤ n] the author identifier is that of the
    entry at index [seq - 1], and for a position out of bounds ([seq > n]
    or [seq ≤ 0]) it is null. *)
Theorem openalex_for_doi_by_index_spec (doi : pystr) (seq : Z)
    (work_id : option pystr) (authorships : list authorship) :
  get_work (OPENALEX_PREFIX ++ quote (str "https://doi.org/" ++ strip doi))
  = WorkReply 200 work_id authorships →
  ∃ author,
    openalex_for_doi_by_index quote get_work doi seq = Ok (work_id, author)
    ∧ ((1 ≤ seq ≤ Z.of_nat (length authorships))%Z →
       ∃ a, authorships !! Z.to_nat (seq - 1) = Some a
            ∧ author = author_id a)
    ∧ ((Z.of_nat (length authorships) < seq)%Z ∨ (seq ≤ 0)%Z →
       author = None).
Proof.
  intros Hreply. unfold openalex_for_doi_by_index. rewrite Hreply.
  rewrite bool_decide_eq_false_2 by (intros H; by apply H).
  eexists. split; [reflexivity|]. split.
  - intros [Hlo Hhi].
    rewrite (proj2 (Z.leb_le 0 (seq - 1))) by lia.
    rewrite (proj2 (Z.ltb_lt (seq - 1) _)) by lia. simpl.
    destruct (lookup_lt_is_Some_2 authorships (Z.to_nat (seq - 1))) as [a Ha];
      [lia|].
    exists a. by rewrite Ha.
  - intros [Hhi|Hlo].
    + rewrite (proj2 (Z.ltb_ge (seq - 1) _)) by lia. by rewrite andb_false_r.
    + by rewrite (proj2 (Z.leb_gt 0 (seq - 1))) by lia.
Qed.

End LinkFacts.

Lemma openalex_for_doi_by_index_spec_witness :
  openalex_for_doi_by_index (U := ucd) id three_author_work
    (str "10.1000/xyz123") 2
  = Ok (Some (str "https://openalex.org/W1"),
        Some (str "https://openalex.org/A2"))
  ∧ openalex_for_doi_by_index (U := ucd) id three_author_work
      (str "10.1000/xyz123") 5
    = Ok (Some (str "https://openalex.org/W1"), None).
Proof.
  split.
  - destruct (openalex_for_doi_by_index_spec (U := ucd) id three_author_work
                (str "10.1000/xyz123") 2 _ _ eq_refl)
      as (author & -> & Hin & _).
    destruct Hin as (a & Ha & ->); [vm_compute; split; discriminate|].
    vm_compute in Ha. by injection Ha as <-.
  - destruct (openalex_for_doi_by_index_spec (U := ucd) id three_author_work
                (str "10.1000/xyz123") 5 _ _ eq_refl)
      as (author & -> & _ & Hout).
    rewrite Hout; [done|]. left. vm_compute. reflexivity.
Defined.

(** ** The institution resolver *)

Section ResolverFacts.
Context `{U : Unicode}.
Variable get_institutions : nat → pystr → inst_reply.

(** A cache hit answers from the cache and leaves the whole session, the
    log of requests included, as it was. *)
Lemma resolve_institution_id_hit (ins_name : option pystr) (st : session)
    (cached : pystr) :
  ins_cache st !! clean_institution ins_name = Some cached →
  resolve_institution_id get_institutions ins_name st
  = (Ok (if bool_decide (cached = CACHE_SENTINEL) then None else Some cached),
     st).
Proof.
  intros Hhit. unfold resolve_institution_id, bind, get_session, ret.
  by rewrite Hhit.
Qed.

(** Whatever happens, the cleaned key is in the cache after a call. *)
Lemma resolve_institution_id_caches (ins_name : option pystr) (st : session) :
  is_Some (ins_cache (resolve_institution_id get_institutions ins_name st).2
           !! clean_institution ins_name).
Proof.
  unfold resolve_institution_id, bind, get_session, ret, modify,
    cache_and_save.
  destruct (ins_cache st !! clean_institution ins_name) as [c|] eqn:E;
    simpl; [by rewrite E|].
  destruct (get_institutions _ _) as [|status results]; simpl.
  { rewrite lookup_insert_eq. eauto. }
  case_bool_decide; simpl; [rewrite lookup_insert_eq; eauto|].
  destruct results as [|[i|] results]; simpl;
    rewrite lookup_insert_eq; eauto.
Qed.

(** Where comma, slash and hyphen-minus are not whitespace, as in the
    Unicode character database, none of them survives the cleaning. *)
Lemma clean_go_no_separator (skip : nat) (s : pystr) :
  isspace 44 = false → isspace 47 = false → isspace 45 = false →
  Forall (λ c, c ≠ 44 ∧ c ≠ 47 ∧ c ≠ 45) (clean_go skip s).
Proof.
  intros Hcomma Hslash Hdash.
  assert (Hsep : ∀ c r, c = 44 ∨ c = 47 ∨ c = 45 →
                        ∃ k, match_len (c :: r) = Some (S k)).
  { intros c r Hc. unfold match_len. simpl.
    destruct Hc as [-> | [-> | ->]]; rewrite ?Hcomma, ?Hslash, ?Hdash; simpl;
      eauto. }
  revert skip. induction s as [|c r IH]; intros skip; simpl; [constructor|].
  destruct skip as [|k]; [|apply IH].
  assert (Hc : match_len (c :: r) = None ∨ match_len (c :: r) = Some O →
               c ≠ 44 ∧ c ≠ 47 ∧ c ≠ 45).
  { intros Hm.
    assert (Hno : ¬ (c = 44 ∨ c = 47 ∨ c = 45)).
    { intros Hc. destruct (Hsep c r Hc) as [k Hk].
      rewrite Hk in Hm. by destruct Hm. }
    repeat split; intros ->; apply Hno; auto. }
  destruct (match_len (c :: r)) as [[|k]|]; [|apply IH|];
    (constructor; [auto|apply IH]).
Qed.

End ResolverFacts.

(** ** Name normalization *)

(** C9 at a failing input.  The case-, accent- and hyphen-insensitive
    example holds: "Núñez-Ríos" and "nunez rios" have the same normal form.
    Idempotence does not: the trade mark sign has no lower-case mapping but
    its compatibility decomposition, applied after lower-casing, is the
    upper-case "TM", which a second pass turns into "tm". *)
Theorem normalize_name_trade_mark :
  normalize_name (U := ucd) nunez_rios_accented
  = normalize_name (U := ucd) (str "nunez rios")
  ∧ normalize_name (U := ucd) trade_mark = str "TM"
  ∧ normalize_name (U := ucd) (normalize_name (U := ucd) trade_mark)
    = str "tm"
  ∧ normalize_name (U := ucd) (normalize_name (U := ucd) trade_mark)
    ≠ normalize_name (U := ucd) trade_mark.
Proof.
  split; [vm_compute; reflexivity|].
  split; [vm_compute; reflexivity|].
  split; [vm_compute; reflexivity|].
  vm_compute. discriminate.
Qed.

(** ** Selection of the best DOI *)

Lemma head_insert_desc {A} (x : Z * A) l :
  head (insert_desc x l)
  = match head l with
    | Some y => if (y.1 <=? x.1)%Z then Some x else Some y
    | None => Some x
    end.
Proof. destruct l as [|y r]; simpl; [done|]. by destruct (y.1 <=? x.1)%Z. Qed.

(** A stable sort by decreasing score starts with the first element of
    greatest score. *)
Lemma head_sort_desc {A} (l : list (Z * A)) : head (sort_desc l) = first_max l.
Proof.
  induction l as [|x r IH]; simpl; [done|].
  by rewrite head_insert_desc, IH.
Qed.

Lemma elem_of_insert_desc {A} (x y : Z * A) l :
  y ∈ insert_desc x l → y = x ∨ y ∈ l.
Proof.
  induction l as [|z r IH]; simpl.
  - intros ->%list_elem_of_singleton. by left.
  - destruct (z.1 <=? x.1)%Z.
    + intros [->|H]%elem_of_cons; auto.
    + intros [->|H]%elem_of_cons; [right; left|].
      destruct (IH H) as [?|?]; [by left|right; by right].
Qed.

Lemma elem_of_sort_desc {A} (y : Z * A) l : y ∈ sort_desc l → y ∈ l.
Proof.
  induction l as [|x r IH]; simpl; [done|].
  intros [->|H]%elem_of_insert_desc; [left|right; auto].
Qed.

Lemma first_max_elem_of {A} (l : list (Z * A)) m :
  first_max l = Some m → m ∈ l.
Proof.
  revert m. induction l as [|x r IH]; intros m; simpl; [done|].
  destruct (first_max r) as [y|].
  - destruct (y.1 <=? x.1)%Z; intros [= <-]; [left|right; auto].
  - intros [= <-]. left.
Qed.

Lemma first_max_None {A} (l : list (Z * A)) : first_max l = None → l = [].
Proof.
  destruct l as [|x r]; simpl; [done|].
  destruct (first_max r) as [y|]; [|done]. by destruct (y.1 <=? x.1)%Z.
Qed.

Lemma first_max_greatest {A} (l : list (Z * A)) m :
  first_max l = Some m → ∀ y, y ∈ l → (y.1 ≤ m.1)%Z.
Proof.
  revert m. induction l as [|x r IH]; intros m; simpl; [done|].
  destruct (first_max r) as [z|] eqn:E.
  - destruct (Z.leb_spec z.1 x.1); intros [= <-] y [->|Hy]%elem_of_cons;
      try lia.
    + specialize (IH z eq_refl y Hy). lia.
    + by apply IH.
  - intros [= <-] y [->|Hy]%elem_of_cons; [lia|].
    apply first_max_None in E. subst r. by apply elem_of_nil in Hy.
Qed.

(** What [best_scored] starts with: the first element of greatest score
    when that score reaches 2, and nothing otherwise. *)
Lemma best_scored_head {A} (l : list (Z * A)) :
  head (List.filter (λ p : Z * A, (2 <=? p.1)%Z) (sort_desc l))
  = match first_max l with
    | Some m => if (2 <=? m.1)%Z then Some m else None
    | None => None
    end.
Proof.
  rewrite <- head_sort_desc.
  pose proof (first_max_greatest l) as Hmax.
  rewrite <- head_sort_desc in Hmax.
  pose proof (@elem_of_sort_desc A) as Hin.
  destruct (sort_desc l) as [|m r] eqn:E; simpl; [done|].
  destruct (Z.leb_spec 2 m.1) as [Hm|Hm]; simpl; [done|].
  assert (Hall : ∀ y, y ∈ r → (2 <=? y.1)%Z = false).
  { intros y Hy. apply Z.leb_gt.
    assert (y.1 ≤ m.1)%Z; [|lia].
    apply (Hmax m eq_refl). apply (Hin y l). rewrite E. by right. }
  clear -Hall. induction r as [|y r IH]; simpl; [done|].
  rewrite Hall by left. apply IH. intros z Hz. apply Hall. by right.
Qed.

(** The first element a predicate holds for. *)
Lemma head_filter_first {A} (f : A → bool) (l : list A) i e :
  l !! i = Some e → f e = true →
  (∀ j e', (j < i)%nat → l !! j = Some e' → f e' = false) →
  head (List.filter f l) = Some e.
Proof.
  revert i. induction l as [|x r IH]; intros i Hi He Hbefore; [done|].
  destruct i as [|i]; simpl in *.
  - injection Hi as ->. by rewrite He.
  - rewrite (Hbefore 0%nat x) by (done || lia).
    apply (IH i); [done|done|].
    intros j e' Hj Hl. apply (Hbefore (S j) e'); [lia|done].
Qed.

Lemma filter_none {A} (f : A → bool) (l : list A) :
  (∀ e, e ∈ l → f e = false) → List.filter f l = [].
Proof.
  induction l as [|x r IH]; intros H; simpl; [done|].
  rewrite H by left. apply IH. intros e He. apply H. by right.
Qed.

Lemma head_filter_Some {A} (f : A → bool) (l : list A) e :
  head (List.filter f l) = Some e →
  ∃ i, l !! i = Some e ∧ f e = true
       ∧ ∀ j e', (j < i)%nat → l !! j = Some e' → f e' = false.
Proof.
  induction l as [|x r IH]; simpl; [done|].
  destruct (f x) eqn:Hx; simpl.
  - intros [= <-]. exists 0%nat. repeat split; [done|]. intros; lia.
  - intros (i & Hi & He & Hbefore)%IH. exists (S i). repeat split; [done..|].
    intros [|j] e' Hj; simpl; [by intros [= <-]|].
    apply Hbefore. lia.
Qed.

Lemma filter_nil_all {A} (f : A → bool) (l : list A) :
  List.filter f l = [] → ∀ e, e ∈ l → f e = false.
Proof.
  induction l as [|x r IH]; simpl; [by intros _ e ?%elem_of_nil|].
  destruct (f x) eqn:Hx; [done|].
  intros Hr e [->|He]%elem_of_cons; auto.
Qed.

Section SelectionFacts.
Context `{U : Unicode}.
Variables (full_name institution_name : pystr) (scholarship_year : Z).

Local Abbreviation score it :=
  (compute_similarity_score it full_name institution_name scholarship_year).
Local Abbreviation first_best :=
  (first_best full_name institution_name scholarship_year).
Local Abbreviation exact_author := (exact_author full_name).
Local Abbreviation first_exact := (first_exact full_name).
Local Abbreviation fallback_result := (fallback_result full_name).

Lemma exact_token_match_spec it :
  exact_token_match full_name it = true ↔ exact_author it.
Proof.
  unfold exact_token_match, exact_author. rewrite existsb_elem_of.
  by setoid_rewrite bool_decide_eq_true.
Qed.

Lemma exact_token_match_false it :
  exact_token_match full_name it = false ↔ ¬ exact_author it.
Proof.
  rewrite <- exact_token_match_spec. by destruct (exact_token_match _ _).
Qed.

Lemma first_max_scored (results : list item) i it :
  results !! i = Some it →
  (∀ j it', results !! j = Some it' → (score it' ≤ score it)%Z) →
  (∀ j it', (j < i)%nat → results !! j = Some it' → (score it' < score it)%Z) →
  (2 ≤ score it)%Z →
  first_max (List.filter (λ p : Z * item, (0 <? p.1)%Z)
               (List.map (λ it, (score it, it)) results))
  = Some (score it, it).
Proof.
  intros Hi Hmax Hbefore Hhigh. revert i Hi Hmax Hbefore.
  induction results as [|x r IH]; intros i Hi Hmax Hbefore; [done|].
  destruct i as [|i]; simpl in Hi.
  - injection Hi as ->. simpl.
    rewrite (proj2 (Z.ltb_lt 0 (score it))) by lia. simpl.
    destruct (first_max _) as [y|] eqn:E; [|done].
    apply first_max_elem_of in E.
    apply list_elem_of_In, filter_In in E. destruct E as [E _].
    apply in_map_iff in E. destruct E as (it' & <- & Hin).
    apply list_elem_of_In, list_elem_of_lookup in Hin. destruct Hin as [j Hj].
    simpl. rewrite (proj2 (Z.leb_le _ _)); [done|].
    apply (Hmax (S j)). done.
  - assert (Hx : (score x < score it)%Z) by (apply (Hbefore 0%nat); [lia|done]).
    assert (Hr : first_max (List.filter (λ p : Z * item, (0 <? p.1)%Z)
                    (List.map (λ it, (score it, it)) r))
                 = Some (score it, it)).
    { apply (IH i); [done| |].
      - intros j it' Hj. by apply (Hmax (S j)).
      - intros j it' Hlt Hj. apply (Hbefore (S j)); [lia|done]. }
    simpl. destruct (Z.ltb_spec 0 (score x)); simpl; [|done].
    rewrite Hr. simpl. by rewrite (proj2 (Z.leb_gt _ _)) by lia.
Qed.

Lemma first_max_scored_low (results : list item) :
  (∀ it, it ∈ results → (score it < 2)%Z) →
  match first_max (List.filter (λ p : Z * item, (0 <? p.1)%Z)
                     (List.map (λ it, (score it, it)) results)) with
  | Some m => (2 <=? m.1)%Z = false
  | None => True
  end.
Proof.
  intros Hlow. destruct (first_max _) as [m|] eqn:E; [|done].
  apply first_max_elem_of in E.
  apply list_elem_of_In, filter_In in E. destruct E as [E _].
  apply in_map_iff in E. destruct E as (it' & <- & Hin).
  apply Z.leb_gt, Hlow. by apply list_elem_of_In.
Qed.

(** A result set that is not empty has a first document of greatest
    score, so the cases of the selection are exhaustive. *)
Lemma first_best_exists (results : list item) :
  results ≠ [] → ∃ it, first_best results it.
Proof.
  induction results as [|x r IH]; [done|]. intros _.
  destruct r as [|y r'].
  { exists x, 0%nat. split; [done|]. split.
    - intros [|j] it' Hj; simpl in Hj; [|done]. injection Hj as <-. lia.
    - intros j it' Hlt. lia. }
  destruct IH as (b & i & Hi & Hmax & Hbefore); [done|].
  destruct (Z_le_gt_dec (score b) (score x)) as [Hle|Hgt].
  - exists x, 0%nat. split; [done|]. split.
    + intros [|j] it' Hj; simpl in Hj.
      * injection Hj as <-. lia.
      * specialize (Hmax j it' Hj). lia.
    + intros j it' Hlt. lia.
  - exists b, (S i). split; [done|]. split.
    + intros [|j] it' Hj; simpl in Hj.
      * injection Hj as <-. lia.
      * by apply (Hmax j).
    + intros [|j] it' Hlt Hj; simpl in Hj.
      * injection Hj as <-. lia.
      * apply (Hbefore j); [lia|done].
Qed.

(** The fallback branch of [select_doi] computes [fallback_result]. *)
Lemma select_doi_fallback (results : list item) :
  fallback_result results
    match List.filter (exact_token_match full_name) results with
    | it :: _ =>
        match truthy (DOI it) with
        | Some doi => Some (doi_url doi, 1%Z)
        | None => None
        end
    | [] => None
    end.
Proof.
  destruct (List.filter _ results) as [|e r] eqn:E.
  - right. split; [|done]. intros e He.
    apply exact_token_match_false. by apply (filter_nil_all _ _ E).
  - left. exists e. split; [|done].
    destruct (head_filter_Some (exact_token_match full_name) results e)
      as (i & Hi & He & Hbefore); [by rewrite E|].
    exists i. split; [done|]. split; [by apply exact_token_match_spec|].
    intros j e' Hj Hl. apply exact_token_match_false. eauto.
Qed.

Lemma select_doi_spec (results : list item) :
  let r := select_doi full_name institution_name scholarship_year results in
  (∀ it, first_best results it → (2 ≤ score it)%Z →
     match truthy (DOI it) with
     | Some doi => r = Some (doi_url doi, score it)
     | None => fallback_result results r
     end)
  ∧ ((∀ it, it ∈ results → (score it < 2)%Z) → fallback_result results r).
Proof.
  intros r. subst r. unfold select_doi.
  pose proof (select_doi_fallback results) as Hfb.
  pose proof (best_scored_head
    (List.filter (λ p : Z * item, (0 <? p.1)%Z)
       (List.map (λ it, (score it, it)) results))) as Hhead.
  split.
  - intros it (i & Hi & Hmax & Hbefore) Hhigh.
    rewrite (first_max_scored results i it Hi Hmax Hbefore Hhigh) in Hhead.
    simpl in Hhead. rewrite (proj2 (Z.leb_le 2 _) Hhigh) in Hhead.
    destruct (List.filter (λ p : Z * item, (2 <=? p.1)%Z) _) as [|[s b] l];
      [done|].
    simpl in Hhead. injection Hhead as -> ->.
    by destruct (truthy (DOI it)).
  - intros Hlow. pose proof (first_max_scored_low results Hlow) as Hl.
    destruct (first_max _) as [m|].
    + rewrite Hl in Hhead.
      by destruct (List.filter (λ p : Z * item, (2 <=? p.1)%Z) _).
    + by destruct (List.filter (λ p : Z * item, (2 <=? p.1)%Z) _).
Qed.

End SelectionFacts.


Section SearchFacts.
Context `{U : Unicode}.
Variable crossref_sample : pystr → list item.


End SearchFacts.


(** ** Invariants of the tiered search *)

Lemma preserves_ret P {A} (a : A) : preserves P (ret a).
Proof. by intros st H. Qed.

Lemma preserves_lift P {A} (r : result A) : preserves P (lift r).
Proof. by intros st H. Qed.

Lemma preserves_modify P (f : session → session) :
  (∀ st, P st → P (f st)) → preserves P (modify f).
Proof. intros Hf st H. by apply Hf. Qed.

Lemma preserves_bind P {A B} (m : M A) (k : A → M B) :
  preserves P m → (∀ a, preserves P (k a)) → preserves P (bind m k).
Proof.
  intros Hm Hk st H. unfold bind. specialize (Hm st H).
  destruct (m st) as [[a|e] st']; simpl in *; [by apply Hk|done].
Qed.

(** Reading the session: the continuation runs in the session it reads. *)
Lemma preserves_get P {B} (k : session → M B) :
  (∀ st, P st → P (k st st).2) → preserves P (bind get_session k).
Proof. intros Hk st H. unfold bind, get_session. by apply Hk. Qed.

Lemma preserves_for_each P {A} (body : A → M unit) (l : list A) :
  (∀ a, preserves P (body a)) → preserves P (for_each body l).
Proof.
  intros Hbody. induction l as [|a r IH]; simpl.
  - apply preserves_ret.
  - apply preserves_bind; [apply Hbody|]. intros _. apply IH.
Qed.

Section SearchInvariant.
Context `{U : Unicode}.
Variable get_institutions : nat → pystr → inst_reply.
Variable get_authors : nat → pystr → authors_reply.

(** A property of the accepted candidates and of the rejection memo that
    survives the three mutations the search performs: appending a
    candidate whose identifier is not yet in the person's list, memoising
    a rejection, and creating the empty list of a new person. *)
Variable P : session → Prop.
Hypothesis P_frame : ∀ st st',
  candidate_dict st = candidate_dict st' → reject_dict st = reject_dict st' →
  P st → P st'.
Hypothesis P_append : ∀ st fs l t,
  P st → candidate_dict st !! fs = Some l →
  (∀ ct, ct ∈ l → ct_alex_id t ≠ ct_alex_id ct) →
  P (set_candidate_dict (<[fs := l ++ [t]]> (candidate_dict st)) st).
Hypothesis P_reject : ∀ st id,
  P st → P (set_reject_dict (<[id := true]> (reject_dict st)) st).
Hypothesis P_new_person : ∀ st fs,
  P st → candidate_dict st !! fs = None →
  P (set_candidate_dict (<[fs := []]> (candidate_dict st)) st).

Lemma resolve_institution_id_frame (ins_name : option pystr) (st : session) :
  let st' := (resolve_institution_id get_institutions ins_name st).2 in
  candidate_dict st' = candidate_dict st ∧ reject_dict st' = reject_dict st.
Proof.
  unfold resolve_institution_id, bind, get_session, ret, modify,
    cache_and_save. simpl.
  destruct (ins_cache st !! clean_institution ins_name); simpl; [done|].
  destruct (get_institutions _ _) as [|status results]; simpl; [done|].
  case_bool_decide; simpl; [done|].
  by destruct results as [|[i|] results].
Qed.

Lemma preserves_resolve_institution_id (ins_name : option pystr) :
  preserves P (resolve_institution_id get_institutions ins_name).
Proof.
  intros st H.
  destruct (resolve_institution_id_frame ins_name st) as [Hc Hr].
  by apply (P_frame st).
Qed.

Lemma already_accepted_false (fs id : pystr) (st : session) l :
  already_accepted fs id st = false → candidate_dict st !! fs = Some l →
  ∀ ct, ct ∈ l → id ≠ ct_alex_id ct.
Proof.
  unfold already_accepted. intros Hacc Hl ct Hct Heq. rewrite Hl in Hacc.
  simpl in Hacc. apply not_true_iff_false in Hacc. apply Hacc.
  apply existsb_elem_of. exists ct. split; [done|].
  by apply bool_decide_eq_true.
Qed.

Lemma gather_candidate_data_preserves fs c name alts st :
  P st → already_accepted fs (cand_id c) st = false →
  P (gather_candidate_data fs c name alts st).2.
Proof.
  intros H Hacc. unfold gather_candidate_data.
  destruct (candidate_dict st !! fs) as [l|] eqn:El; simpl; [|done].
  apply P_append; [done|done|]. simpl.
  by apply (already_accepted_false fs (cand_id c) st l).
Qed.

Lemma preserves_tier1_step fs full_name_norm c :
  preserves P (tier1_step fs full_name_norm c).
Proof.
  unfold tier1_step. destruct (_ || _); [|apply preserves_ret].
  apply preserves_get. intros st H.
  destruct (already_accepted fs (cand_id c) st) eqn:Hacc; simpl; [done|].
  by apply gather_candidate_data_preserves.
Qed.

(** The body guarded by the gate runs only for a candidate that is not yet
    accepted, in the session the guards were evaluated in. *)
Lemma preserves_gated fs full_name c candidate_tokens full_name_tokens k :
  (∀ st, P st → already_accepted fs (cand_id c) st = false → P (k st).2) →
  preserves P (gated fs full_name c candidate_tokens full_name_tokens k).
Proof.
  intros Hk. unfold gated. apply preserves_get. intros st H.
  destruct (already_accepted fs (cand_id c) st) eqn:Hacc; simpl; [done|].
  unfold bind, lift.
  destruct (bag_of_words_reject _ _ _ _ _ _) as [[|]|e]; simpl; [|auto|done].
  by apply P_reject.
Qed.

Lemma preserves_tier2_step fs full_name ins_id c :
  preserves P (tier2_step fs full_name ins_id c).
Proof.
  unfold tier2_step. apply preserves_gated. intros st H Hacc.
  destruct ins_id as [[|x i]|]; simpl; [done| |done].
  case_bool_decide; [|done].
  by apply gather_candidate_data_preserves.
Qed.

Lemma preserves_tier3_step fs full_name c :
  preserves P (tier3_step fs full_name c).
Proof.
  unfold tier3_step. apply preserves_gated. intros st H Hacc.
  unfold bind, get_session.
  destruct (max_by_key _ _) as [best|]; simpl; [|done].
  destruct (existsb _ _); simpl; [|done].
  by apply gather_candidate_data_preserves.
Qed.

Lemma preserves_search_openalex fs_id q_name full_name pais ins :
  preserves P (search_openalex get_institutions get_authors fs_id q_name
                 full_name pais ins).
Proof.
  unfold search_openalex.
  apply preserves_bind; [apply preserves_resolve_institution_id|].
  intros ins_id. apply preserves_get. intros st H.
  apply preserves_bind; [|intros _|done].
  { apply preserves_modify. intros st' H'. by apply (P_frame st'). }
  destruct (get_authors _ _) as [|status meta_count results];
    [apply preserves_ret|].
  case_bool_decide; [apply preserves_ret|].
  apply preserves_bind.
  { apply preserves_modify. intros st' H'.
    destruct (candidate_dict st' !! fs_id) eqn:E; [done|].
    by apply P_new_person. }
  intros _. case_bool_decide; [apply preserves_ret|].
  destruct results as [results|]; [|apply preserves_lift].
  apply preserves_bind;
    [apply preserves_for_each; intros c; apply preserves_tier1_step|].
  intros _. apply preserves_bind;
    [apply preserves_for_each; intros c; apply preserves_tier2_step|].
  intros _. apply preserves_for_each. intros c. apply preserves_tier3_step.
Qed.

Lemma preserves_rows (df_main : list row) :
  preserves P (for_each (process_row get_institutions get_authors) df_main).
Proof.
  apply preserves_for_each. intros r. apply preserves_search_openalex.
Qed.

End SearchInvariant.

(** *** Accepted identifiers are unique per person *)

Lemma unique_ids_append st fs l t :
  unique_ids st → candidate_dict st !! fs = Some l →
  (∀ ct, ct ∈ l → ct_alex_id t ≠ ct_alex_id ct) →
  unique_ids (set_candidate_dict (<[fs := l ++ [t]]> (candidate_dict st)) st).
Proof.
  intros Hu Hl Hfresh fs' l'. simpl.
  destruct (decide (fs = fs')) as [<-|Hne].
  - rewrite lookup_insert_eq. intros [= <-].
    rewrite fmap_app. apply NoDup_app. split; [by apply (Hu fs)|]. split.
    + intros x Hx [->|[]%elem_of_nil]%elem_of_cons.
      apply list_elem_of_fmap in Hx as (ct & Heq & Hct).
      by apply (Hfresh ct).
    + apply NoDup_singleton.
  - rewrite lookup_insert_ne by done. apply Hu.
Qed.

Lemma unique_ids_new_person st fs :
  unique_ids st → candidate_dict st !! fs = None →
  unique_ids (set_candidate_dict (<[fs := []]> (candidate_dict st)) st).
Proof.
  intros Hu Hnone fs' l'. simpl.
  destruct (decide (fs = fs')) as [<-|Hne].
  - rewrite lookup_insert_eq. intros [= <-]. constructor.
  - rewrite lookup_insert_ne by done. apply Hu.
Qed.

Lemma unique_ids_initial file : unique_ids (initial_session file).
Proof. intros fs l. simpl. by rewrite lookup_empty. Qed.

Section UniqueIds.
Context `{U : Unicode}.
Variable get_institutions : nat → pystr → inst_reply.
Variable get_authors : nat → pystr → authors_reply.

(** C5: a call of [search_openalex] for a person, started in a session
    where no identifier occurs twice in any person's accepted list, ends,
    whether it returns or raises, in such a session: no tier appends an
    identifier that an earlier tier or an earlier call has accepted for
    that person.  Hence after a whole run every person's accepted list
    holds each identifier at most once. *)
Theorem accepted_ids_unique :
  (∀ fs_id q_name full_name pais ins st,
     unique_ids st →
     unique_ids (search_openalex get_institutions get_authors fs_id q_name
                   full_name pais ins st).2)
  ∧ (∀ file df_main fs l,
       candidate_dict
         (run_openalex_pipeline get_institutions get_authors file df_main).2
         !! fs = Some l →
       NoDup (ct_alex_id <$> l)).
Proof.
  assert (Hsearch : ∀ fs_id q_name full_name pais ins,
            preserves unique_ids
              (search_openalex get_institutions get_authors fs_id q_name
                 full_name pais ins)).
  { intros. apply preserves_search_openalex.
    - intros st st' Hc _ Hu fs l. rewrite <- Hc. apply Hu.
    - apply unique_ids_append.
    - intros st id Hu. exact Hu.
    - apply unique_ids_new_person. }
  split.
  - intros. by apply Hsearch.
  - intros file df_main. unfold run_openalex_pipeline.
    apply (preserves_for_each unique_ids); [|apply unique_ids_initial].
    intros r. apply Hsearch.
Qed.

End UniqueIds.

(** *** A concrete run *)

(** The run accepts A1 by exact name, A2 by institution and A3 by topic,
    and memoises the rejection of A4; the second call for the same person
    finds them again and appends nothing. *)
Lemma accepted_ids_unique_witness :
  ∃ l, candidate_dict run_ana.2 !! str "FS1" = Some l
       ∧ ct_alex_id <$> l = [str "A1"; str "A2"; str "A3"]
       ∧ NoDup (ct_alex_id <$> l).
Proof.
  eexists. split; [vm_compute; reflexivity|]. split; [reflexivity|].
  eapply (proj2 (accepted_ids_unique (U := ucd) institutions_zaragoza
                   authors_ana) None [row_ana; row_ana] (str "FS1")).
  vm_compute. reflexivity.
Defined.

(** *** The rejection memo only grows *)

Section RejectionMemo.
Context `{U : Unicode}.
Variable get_institutions : nat → pystr → inst_reply.
Variable get_authors : nat → pystr → authors_reply.

Lemma memo_member_preserved (id : pystr) fs_id q_name full_name pais ins :
  preserves (λ st, id ∈ dom (reject_dict st))
    (search_openalex get_institutions get_authors fs_id q_name full_name
       pais ins).
Proof.
  apply preserves_search_openalex.
  - intros st st' _ Hr H. by rewrite <- Hr.
  - intros st fs l t H _ _. exact H.
  - intros st id' H. simpl. rewrite dom_insert. set_solver.
  - intros st fs H _. exact H.
Qed.

(** A candidate that is not yet accepted and that the gate rejects is in the
    memo afterwards. *)
Lemma gated_memoises fs_id full_name c candidate_tokens full_name_tokens k st :
  already_accepted fs_id (cand_id c) st = false →
  bag_of_words_reject candidate_tokens full_name_tokens (display_name c)
    full_name (reject_dict st) (cand_id c) = Ok true →
  cand_id c ∈ dom (reject_dict
                     (gated fs_id full_name c candidate_tokens
                        full_name_tokens k st).2).
Proof.
  intros Hacc Hgate. unfold gated, bind, get_session, lift. simpl.
  rewrite Hacc, Hgate. simpl. rewrite dom_insert. set_solver.
Qed.

(** C6: an identifier that is in the rejection memo is still in it after
    any further call of [search_openalex] and after the processing of any
    further rows, for whatever person; and from then on the gate answers
    "rejected" for it whatever the tokens are, the memo check preceding
    the token checks. *)
Theorem rejection_memo_monotone (id : pystr) (st : session) :
  id ∈ dom (reject_dict st) →
  (∀ fs_id q_name full_name pais ins,
     id ∈ dom (reject_dict
                 (search_openalex get_institutions get_authors fs_id q_name
                    full_name pais ins st).2))
  ∧ (∀ df_rest : list row,
       let st' := (for_each (process_row get_institutions get_authors)
                     df_rest st).2 in
       id ∈ dom (reject_dict st')
       ∧ ∀ candidate_tokens full_name_tokens candidate_name full_name,
           bag_of_words_reject candidate_tokens full_name_tokens
             candidate_name full_name (reject_dict st') id = Ok true).
Proof.
  intros Hin. split.
  - intros. by apply memo_member_preserved.
  - intros df_rest st'.
    assert (Hin' : id ∈ dom (reject_dict st')).
    { apply (preserves_for_each (λ st, id ∈ dom (reject_dict st)));
        [|done].
      intros r. apply memo_member_preserved. }
    split; [done|]. intros. by apply bag_of_words_reject_memo.
Qed.

End RejectionMemo.

(** After the rows of the first person, A4 is memoised; it stays so while
    another person is processed, for whom the tokens of "Juan Smith" would
    pass the token checks against the target "Juan Smith". *)
Lemma rejection_memo_monotone_witness :
  str "A4" ∈ dom (reject_dict session_after_juan)
  ∧ bag_of_words_reject [str "juan"; str "smith"] [str "juan"; str "smith"]
      (str "Juan Smith") (str "Juan Smith") (reject_dict session_after_juan)
      (str "A4")
    = Ok true
  ∧ token_checks 0 [str "juan"; str "smith"] [str "juan"; str "smith"]
    = Ok false.
Proof.
  destruct (proj2 (rejection_memo_monotone (U := ucd) institutions_zaragoza
                     authors_ana (str "A4") run_ana.2
                     ltac:(apply elem_of_dom; eexists; vm_compute;
                           reflexivity))
              [row_juan]) as [Hin Hgate].
  split; [exact Hin|]. split; [apply Hgate|vm_compute; reflexivity].
Defined.

(** ** Normal forms are fixed points, up to lower-casing and decomposition *)

Section NormalizeFacts.
Context `{U : Unicode}.

Lemma lstrip_no_leading_space s : no_leading_space (lstrip s).
Proof.
  induction s as [|c r IH]; simpl; [done|].
  destruct (isspace c) eqn:E; [done|]. simpl. done.
Qed.

Lemma lstrip_fixed s : no_leading_space s → lstrip s = s.
Proof. destruct s as [|c r]; simpl; [done|]. by intros ->. Qed.

Lemma lstrip_app_last l c :
  lstrip (l ++ [c])
  = match lstrip l with
    | [] => lstrip [c]
    | l' => l' ++ [c]
    end.
Proof.
  induction l as [|x l IH]; simpl; [done|].
  destruct (isspace x); [done|]. done.
Qed.

(** [rstrip] by recursion on the string. *)
Lemma rstrip_cons c r :
  rstrip (c :: r)
  = match rstrip r with
    | [] => if isspace c then [] else [c]
    | _ => c :: rstrip r
    end.
Proof.
  unfold rstrip. simpl. rewrite lstrip_app_last.
  destruct (lstrip (rev r)) as [|x l] eqn:E; simpl.
  - by destruct (isspace c).
  - rewrite rev_app_distr. simpl.
    destruct (rev l ++ [x]) eqn:E'; [|done].
    by destruct (rev l).
Qed.

Lemma rstrip_no_leading_space s : no_leading_space s → no_leading_space (rstrip s).
Proof.
  destruct s as [|c r]; [done|]. simpl. intros Hc. rewrite rstrip_cons.
  destruct (rstrip r); [by rewrite Hc|done].
Qed.

Lemma rstrip_idempotent s : rstrip (rstrip s) = rstrip s.
Proof.
  unfold rstrip. rewrite rev_involutive.
  by rewrite (lstrip_fixed _ (lstrip_no_leading_space _)).
Qed.

Lemma strip_idempotent s : strip (strip s) = strip s.
Proof.
  unfold strip.
  rewrite (lstrip_fixed (rstrip (lstrip s))).
  - apply rstrip_idempotent.
  - apply rstrip_no_leading_space, lstrip_no_leading_space.
Qed.

Lemma collapsed_weaken b s : collapsed b s → collapsed false s.
Proof.
  destruct b; [|done]. destruct s as [|c r]; simpl; [done|].
  destruct (isspace c); [|done]. by intros (_ & ? & _).
Qed.

Lemma collapsed_fixed b s : collapsed b s → collapse_go b s = s.
Proof.
  revert b. induction s as [|c r IH]; intros b; simpl; [done|].
  destruct (isspace c).
  - intros (-> & -> & H). by rewrite (IH true).
  - intros H. by rewrite (IH false).
Qed.

Lemma collapsed_lstrip b s : collapsed b s → collapsed false (lstrip s).
Proof.
  revert b. induction s as [|c r IH]; intros b; simpl; [done|].
  destruct (isspace c) eqn:E.
  - intros (_ & _ & H). by apply (IH true).
  - intros H. simpl. by rewrite E.
Qed.

Lemma collapsed_rstrip b s : collapsed b s → collapsed b (rstrip s).
Proof.
  revert b. induction s as [|c r IH]; intros b; [done|].
  rewrite rstrip_cons. simpl.
  destruct (isspace c) eqn:E.
  - intros (-> & -> & H). specialize (IH true H).
    destruct (rstrip r) as [|x l]; [done|]. simpl. by rewrite E.
  - intros H. specialize (IH false H).
    destruct (rstrip r) as [|x l]; simpl; by rewrite E.
Qed.

Lemma filter_fixed (f : N → bool) s :
  Forall (λ c, f c = true) s → List.filter f s = s.
Proof.
  induction 1 as [|c r Hc Hr IH]; simpl; [done|]. by rewrite Hc, IH.
Qed.

Lemma map_fixed (f : N → N) s : Forall (λ c, f c = c) s → List.map f s = s.
Proof.
  induction 1 as [|c r Hc Hr IH]; simpl; [done|]. by rewrite Hc, IH.
Qed.

(** The space is whitespace and not a combining mark, as in the Unicode
    character database. *)
Hypothesis space_isspace : isspace 32 = true.
Hypothesis space_combining : combining 32 = 0.

Lemma kept_space : kept 32.
Proof.
  unfold kept. rewrite space_isspace, space_combining.
  by rewrite orb_true_r.
Qed.

Lemma collapse_go_collapsed b s : collapsed b (collapse_go b s).
Proof.
  revert b. induction s as [|c r IH]; intros b; simpl; [done|].
  destruct (isspace c) eqn:E.
  - destruct b; [apply IH|]. simpl. rewrite space_isspace. auto.
  - simpl. rewrite E. apply IH.
Qed.

Lemma collapse_go_Forall b s : Forall kept s → Forall kept (collapse_go b s).
Proof.
  intros H. revert b. induction H as [|c r Hc Hr IH]; intros b; simpl;
    [constructor|].
  destruct (isspace c); [destruct b|]; auto using kept_space.
Qed.

Lemma finish_kept s : Forall kept (finish s).
Proof.
  unfold finish. apply strip_Forall, collapse_go_Forall.
  apply Forall_forall. intros c Hc.
  apply list_elem_of_In, filter_In in Hc. destruct Hc as [Hc Hkeep].
  apply in_map_iff in Hc. destruct Hc as (c0 & Hc & Hc0).
  apply filter_In in Hc0. destruct Hc0 as [_ Hcomb%N.eqb_eq].
  destruct (is_hyphen c0) eqn:Eh; subst c; [apply kept_space|].
  by repeat split.
Qed.

Lemma finish_collapsed s : collapsed false (finish s).
Proof.
  unfold finish, strip.
  eapply collapsed_rstrip, collapsed_lstrip, (collapse_go_collapsed false).
Qed.

Lemma finish_fixed s : finish (finish s) = finish s.
Proof.
  pose proof (finish_kept s) as Hk. pose proof (finish_collapsed s) as Hc.
  assert (Hs : strip (finish s) = finish s) by apply strip_idempotent.
  unfold finish at 1.
  rewrite (filter_fixed (λ ch, combining ch =? 0) (finish s)).
  2: { eapply Forall_impl; [exact Hk|].
       intros c (Hcomb & _ & _). by apply N.eqb_eq. }
  rewrite (map_fixed (λ ch, if is_hyphen ch then 32 else ch) (finish s)).
  2: { eapply Forall_impl; [exact Hk|].
       intros c (_ & Hh & _). by rewrite Hh. }
  rewrite (filter_fixed (λ ch, isalnum ch || isspace ch) (finish s)).
  2: { eapply Forall_impl; [exact Hk|]. by intros c (_ & _ & Hkeep). }
  unfold collapse_ws. by rewrite (collapsed_fixed false), Hs.
Qed.

(** A normal form that lower-casing and the compatibility decomposition
    leave alone is a fixed point of [normalize_name].  (The normal form
    "TM" of the trade mark sign is not left alone by lower-casing.) *)
Lemma normalize_name_fixed_when_stable (x : pystr) :
  str_lower (normalize_name x) = normalize_name x →
  nfkd (normalize_name x) = normalize_name x →
  normalize_name (normalize_name x) = normalize_name x.
Proof.
  destruct x as [|c x]; [done|].
  change (normalize_name (c :: x))
    with (finish (nfkd (str_lower (strip (c :: x))))).
  set (z := nfkd (str_lower (strip (c :: x)))).
  intros Hlower Hnfkd.
  assert (Hs : strip (finish z) = finish z) by apply strip_idempotent.
  destruct (finish z) as [|d y] eqn:Ey; [done|].
  change (normalize_name (d :: y))
    with (finish (nfkd (str_lower (strip (d :: y))))).
  rewrite Hs, Hlower, Hnfkd. rewrite <- Ey. apply finish_fixed.
Qed.

End NormalizeFacts.

(** ** The search returns *)

Lemma returns_ret Q {A} (a : A) : returns_in Q (ret a).
Proof. intros st H. simpl. eauto. Qed.

Lemma returns_modify Q (f : session → session) :
  (∀ st, Q st → Q (f st)) → returns_in Q (modify f).
Proof. intros Hf st H. simpl. eauto. Qed.

Lemma returns_bind Q {A B} (m : M A) (k : A → M B) :
  returns_in Q m → (∀ a, returns_in Q (k a)) → returns_in Q (bind m k).
Proof.
  intros Hm Hk st H. unfold bind. destruct (Hm st H) as [[a Ha] HQ].
  destruct (m st) as [r st']. simpl in *. subst r. by apply Hk.
Qed.

Lemma returns_get Q {B} (k : session → M B) :
  (∀ st, Q st → (∃ b, (k st st).1 = Ok b) ∧ Q (k st st).2) →
  returns_in Q (bind get_session k).
Proof. intros Hk st H. unfold bind, get_session. by apply Hk. Qed.

Lemma returns_for_each Q {A} (body : A → M unit) (l : list A) :
  (∀ a, returns_in Q (body a)) → returns_in Q (for_each body l).
Proof.
  intros Hbody. induction l as [|a r IH]; simpl.
  - apply returns_ret.
  - apply returns_bind; [apply Hbody|]. intros _. apply IH.
Qed.

Section SearchReturns.
Context `{U : Unicode}.
Variable get_institutions : nat → pystr → inst_reply.
Variable get_authors : nat → pystr → authors_reply.
Variable fs_id : pystr.

Lemma returns_resolve_institution_id (Q : session → Prop) ins_name :
  (∀ st st', candidate_dict st = candidate_dict st' → Q st → Q st') →
  returns_in Q (resolve_institution_id get_institutions ins_name).
Proof.
  intros Hframe st H. split.
  - unfold resolve_institution_id, bind, get_session, ret, modify,
      cache_and_save. simpl.
    destruct (ins_cache st !! clean_institution ins_name); simpl; [eauto|].
    destruct (get_institutions _ _) as [|status results]; simpl; [eauto|].
    case_bool_decide; simpl; [eauto|].
    destruct results as [|[i|] results]; simpl; eauto.
  - apply (Hframe st); [|done]. symmetry.
    apply (resolve_institution_id_frame get_institutions ins_name st).
Qed.

Lemma returns_gather_candidate_data c name alts :
  returns_in (has_person fs_id) (gather_candidate_data fs_id c name alts).
Proof.
  intros st [l Hl]. unfold gather_candidate_data. rewrite Hl. simpl.
  split; [eauto|]. unfold has_person. simpl. rewrite lookup_insert_eq. eauto.
Qed.

Lemma returns_tier1_step full_name_norm c :
  returns_in (has_person fs_id) (tier1_step fs_id full_name_norm c).
Proof.
  unfold tier1_step. destruct (_ || _); [|apply returns_ret].
  apply returns_get. intros st H.
  destruct (already_accepted _ _ _); simpl; [eauto|].
  by apply returns_gather_candidate_data.
Qed.

(** With target tokens that are not empty the gate returns, so the guarded
    body decides. *)
Lemma returns_gated full_name c candidate_tokens full_name_tokens k :
  Forall (λ t, t ≠ []) full_name_tokens →
  returns_in (has_person fs_id) k →
  returns_in (has_person fs_id)
    (gated fs_id full_name c candidate_tokens full_name_tokens k).
Proof.
  intros Hne Hk. unfold gated. apply returns_get. intros st H.
  destruct (already_accepted _ _ _); simpl; [eauto|].
  unfold bind, lift, bag_of_words_reject.
  case_bool_decide; simpl; [eauto|].
  destruct (token_checks_spec full_name_tokens Hne candidate_tokens 0)
    as (b & -> & _).
  destruct b; simpl; [eauto|]. by apply Hk.
Qed.

Lemma returns_tier2_step full_name ins_id c :
  returns_in (has_person fs_id) (tier2_step fs_id full_name ins_id c).
Proof.
  unfold tier2_step. apply returns_gated; [apply split_nonempty|].
  destruct ins_id as [[|x i]|]; try apply returns_ret.
  case_bool_decide; [|apply returns_ret].
  apply returns_gather_candidate_data.
Qed.

Lemma returns_tier3_step full_name c :
  returns_in (has_person fs_id) (tier3_step fs_id full_name c).
Proof.
  unfold tier3_step.
  apply returns_gated; [apply sorted_Forall, split_nonempty|].
  apply returns_get. intros st H.
  destruct (max_by_key _ _) as [best|]; simpl; [|eauto].
  destruct (existsb _ _); simpl; [|eauto].
  by apply returns_gather_candidate_data.
Qed.

(** When every successful reply that announces results carries them, the
    search returns: no [IndexError] comes from the gate and no [KeyError]
    from the person's list. *)
Lemma search_openalex_returns q_name full_name pais ins st :
  (∀ n url count, get_authors n url = AuthReply 200 count None → count = 0%Z) →
  (search_openalex get_institutions get_authors fs_id q_name full_name pais
     ins st).1 = Ok tt.
Proof.
  intros Hres.
  assert (Hany : ∀ Q (m : M unit) st, returns_in Q m → Q st → (m st).1 = Ok tt).
  { intros Q m st0 Hm H0. destruct (Hm st0 H0) as [[[] ->] _]. done. }
  apply (Hany (λ _, True)); [|done]. unfold search_openalex.
  apply returns_bind; [by apply returns_resolve_institution_id|].
  intros ins_id. apply returns_get. intros st0 _.
  unfold bind at 1. simpl.
  destruct (get_authors _ _) as [|status count results] eqn:Ereply;
    simpl; [eauto|].
  case_bool_decide as Hst; simpl; [eauto|].
  assert (status = 200%Z) as -> by (by destruct (decide (status = 200%Z))).
  unfold bind at 1. simpl.
  case_bool_decide as Hcount; simpl; [eauto|].
  destruct results as [results|]; [|by destruct Hcount; eapply Hres].
  split; [|done].
  set (st1 := match candidate_dict _ !! fs_id with
              | Some _ => _ | None => _ end).
  assert (H1 : has_person fs_id st1).
  { subst st1. unfold has_person. simpl.
    destruct (candidate_dict st0 !! fs_id) eqn:E; simpl.
    - rewrite E. eauto.
    - rewrite lookup_insert_eq. eauto. }
  exists tt. apply (Hany (has_person fs_id)); [|done].
  apply returns_bind;
    [apply returns_for_each; intros c; apply returns_tier1_step|].
  intros _. apply returns_bind;
    [apply returns_for_each; intros c; apply returns_tier2_step|].
  intros _. apply returns_for_each. intros c. apply returns_tier3_step.
Qed.

End SearchReturns.

(** ** The cache key of an institution *)

Section CleanerFacts.
Context `{U : Unicode}.

(** The lazy wildcard stops at the first closing parenthesis. *)
Lemma paren_len_closed (g rest : pystr) :
  41 ∉ g → 10 ∉ g → paren_len (g ++ 41 :: rest) = Some (length g).
Proof.
  induction g as [|c g IH]; intros H41 H10; [done|].
  change (paren_len ((c :: g) ++ 41 :: rest))
    with (if c =? 41 then Some O
          else if c =? 10 then None
          else S <$> paren_len (g ++ 41 :: rest)).
  destruct (N.eqb_spec c 41) as [->|_]; [destruct H41; by left|].
  destruct (N.eqb_spec c 10) as [->|_]; [destruct H10; by left|].
  rewrite IH; [done| |]; intros ?; [apply H41|apply H10]; by right.
Qed.

(** The greedy wildcard stops at the end of the line. *)
Lemma line_len_line (r tail : pystr) :
  10 ∉ r → tail = [] ∨ (∃ t, tail = 10 :: t) →
  line_len (r ++ tail) = length r.
Proof.
  intros H10 Htail. induction r as [|c r IH].
  - destruct Htail as [->|[t ->]]; done.
  - change (line_len ((c :: r) ++ tail))
      with (if c =? 10 then O else S (line_len (r ++ tail))).
    destruct (N.eqb_spec c 10) as [->|_]; [destruct H10; by left|].
    rewrite IH; [done|]. intros ?. apply H10. by right.
Qed.

Lemma ws_len_app (ws s : pystr) :
  Forall (λ c, isspace c = true) ws →
  ws_len (ws ++ s) = (length ws + ws_len s)%nat.
Proof.
  induction 1 as [|c ws Hc Hws IH]; [done|]. simpl. by rewrite Hc, IH.
Qed.

Lemma ws_len_non_space (c : N) (s : pystr) :
  isspace c = false → ws_len (c :: s) = O.
Proof. intros Hc. simpl. by rewrite Hc. Qed.

(** A parenthesised group closed on its line, with the whitespace before
    it, is a match. *)
Lemma match_len_paren (ws g rest : pystr) :
  Forall (λ c, isspace c = true) ws → isspace 40 = false →
  41 ∉ g → 10 ∉ g →
  match_len (ws ++ 40 :: g ++ 41 :: rest)
  = Some (S (length ws + length g + 1)).
Proof.
  intros Hws H40 H41 H10. unfold match_len.
  rewrite (ws_len_app ws _ Hws), (ws_len_non_space 40 _ H40), Nat.add_0_r.
  rewrite drop_app_length.
  change (40 =? 40) with true. cbv iota.
  rewrite (paren_len_closed g rest H41 H10). simpl. f_equal. lia.
Qed.

(** A comma, a slash or a hyphen-minus with the rest of its line and the
    whitespace before it is a match. *)
Lemma match_len_separator (ws : pystr) (c : N) (r tail : pystr) :
  Forall (λ c, isspace c = true) ws → isspace c = false →
  c = 44 ∨ c = 47 ∨ c = 45 →
  10 ∉ r → tail = [] ∨ (∃ t, tail = 10 :: t) →
  match_len (ws ++ c :: r ++ tail) = Some (S (length ws + length r)).
Proof.
  intros Hws Hc Hsep H10 Htail. unfold match_len.
  rewrite (ws_len_app ws _ Hws), (ws_len_non_space c _ Hc), Nat.add_0_r.
  rewrite drop_app_length, (line_len_line r tail H10 Htail).
  destruct Hsep as [-> | [-> | ->]]; simpl; f_equal; lia.
Qed.

Lemma clean_go_skip (k : nat) (s : pystr) :
  clean_go k s = clean_go O (drop k s).
Proof.
  revert s. induction k as [|k IH]; intros s; [by rewrite drop_0|].
  destruct s as [|c r]; [done|]. apply IH.
Qed.

Lemma clean_go_cons (c : N) (r : pystr) :
  clean_go O (c :: r)
  = match match_len (c :: r) with
    | Some (S k) => clean_go k r
    | _ => c :: clean_go O r
    end.
Proof. reflexivity. Qed.

(** A match is removed and the cleaning goes on behind it. *)
Lemma clean_go_match (s : pystr) (n : nat) :
  match_len s = Some (S n) → clean_go O s = clean_go O (drop (S n) s).
Proof.
  destruct s as [|c r]; [done|]. intros Hm.
  rewrite clean_go_cons, Hm. exact (clean_go_skip n r).
Qed.

(** Where nothing matches, the character is kept. *)
Lemma clean_go_keep (c : N) (r : pystr) :
  match_len (c :: r) = None → clean_go O (c :: r) = c :: clean_go O r.
Proof. intros Hm. by rewrite clean_go_cons, Hm. Qed.

(** The first character after the leading whitespace of a text that holds
    a character other than whitespace. *)
Lemma first_non_space (l : pystr) (x : N) (s : pystr) :
  isspace x = false →
  ∃ c r, drop (ws_len (l ++ x :: s)) (l ++ x :: s) = c :: r ∧ c ∈ l ++ [x].
Proof.
  intros Hx. induction l as [|a l IH]; simpl.
  - rewrite Hx. exists x, s. split; [done|by left].
  - destruct (isspace a) eqn:E; simpl.
    + destruct IH as (c & r & H & Hin). exists c, r. split; [done|by right].
    + exists a, (l ++ x :: s). split; [done|by left].
Qed.

Lemma plain_no_match (c : N) (r : pystr) :
  c ≠ 40 ∧ c ≠ 44 ∧ c ≠ 47 ∧ c ≠ 45 →
  (if c =? 40 then (λ n, 0 + 1 + n + 1)%nat <$> paren_len r
   else if (c =? 44) || (c =? 47) || (c =? 45)
        then Some (0 + 1 + line_len r)%nat
        else None) = None.
Proof.
  intros (H40 & H44 & H47 & H45).
  by rewrite !(proj2 (N.eqb_neq _ _)) by done.
Qed.

(** Nothing matches inside a plain text that ends with a character other
    than whitespace, whatever follows it. *)
Lemma match_len_plain_prefix (l : pystr) (x : N) (s : pystr) :
  plain (l ++ [x]) → isspace x = false → match_len (l ++ x :: s) = None.
Proof.
  intros Hp Hx. unfold match_len.
  destruct (first_non_space l x s Hx) as (c & r & -> & Hin).
  assert (Hc : c ≠ 40 ∧ c ≠ 44 ∧ c ≠ 47 ∧ c ≠ 45).
  { unfold plain in Hp. rewrite Forall_forall in Hp. by apply Hp. }
  destruct Hc as (H40 & H44 & H47 & H45).
  by rewrite !(proj2 (N.eqb_neq _ _)) by done.
Qed.

Lemma clean_go_prefix (l : pystr) (x : N) (s : pystr) :
  plain (l ++ [x]) → isspace x = false →
  clean_go O (l ++ x :: s) = l ++ x :: clean_go O s.
Proof.
  induction l as [|a l IH]; intros Hp Hx.
  - change ([] ++ x :: s) with (x :: s).
    rewrite clean_go_keep; [done|].
    apply (match_len_plain_prefix [] x s Hp Hx).
  - change ((a :: l) ++ x :: s) with (a :: (l ++ x :: s)).
    rewrite clean_go_keep.
    + rewrite IH; [done| |done]. by apply Forall_cons in Hp as [_ Hp].
    + apply (match_len_plain_prefix (a :: l) x s Hp Hx).
Qed.

(** Nothing is removed from a plain text. *)
Lemma clean_go_plain (s : pystr) : plain s → clean_go O s = s.
Proof.
  induction 1 as [|c r Hc Hr IH]; [done|].
  rewrite clean_go_keep; [by rewrite IH|].
  unfold match_len.
  destruct (drop (ws_len (c :: r)) (c :: r)) as [|y t] eqn:E; [done|].
  assert (Hy : Forall (λ c, c ≠ 40 ∧ c ≠ 44 ∧ c ≠ 47 ∧ c ≠ 45) (y :: t)).
  { rewrite <- E. apply Forall_drop. by constructor. }
  apply Forall_cons in Hy as [(H40 & H44 & H47 & H45) _].
  by rewrite !(proj2 (N.eqb_neq _ _)) by done.
Qed.

(** *** Stripping *)

Lemma lstrip_split (l : pystr) :
  ∃ ws, l = ws ++ lstrip l ∧ Forall (λ c, isspace c = true) ws.
Proof.
  induction l as [|c l IH]; simpl; [by exists []|].
  destruct (isspace c) eqn:E.
  - destruct IH as (ws & Hl & Hws). exists (c :: ws). split.
    + simpl. by rewrite <- Hl.
    + by constructor.
  - by exists [].
Qed.

Lemma lstrip_all_space (ws s : pystr) :
  Forall (λ c, isspace c = true) ws → lstrip (ws ++ s) = lstrip s.
Proof. induction 1 as [|c ws Hc Hws IH]; [done|]. simpl. by rewrite Hc. Qed.

Lemma lstrip_app_non_space (l : pystr) (x : N) (s : pystr) :
  isspace x = false → lstrip (l ++ x :: s) = lstrip (l ++ [x]) ++ s.
Proof.
  intros Hx. induction l as [|a l IH]; simpl.
  - by rewrite Hx.
  - destruct (isspace a); [done|]. simpl. by rewrite <- app_assoc.
Qed.

Lemma rstrip_app_space (s ws : pystr) :
  Forall (λ c, isspace c = true) ws → rstrip (s ++ ws) = rstrip s.
Proof.
  intros Hws. unfold rstrip. rewrite rev_app_distr.
  rewrite lstrip_all_space; [done|]. by apply Forall_rev.
Qed.

(** A text is its right-stripped part followed by whitespace, and that
    part is empty or ends with a character other than whitespace. *)
Lemma rstrip_split (p : pystr) :
  ∃ ws, p = rstrip p ++ ws ∧ Forall (λ c, isspace c = true) ws
        ∧ (rstrip p = [] ∨ ∃ p0 x, rstrip p = p0 ++ [x] ∧ isspace x = false).
Proof.
  destruct (lstrip_split (rev p)) as (ws & Hl & Hws).
  exists (rev ws). split; [|split].
  - unfold rstrip. rewrite <- rev_app_distr, <- Hl. by rewrite rev_involutive.
  - by apply Forall_rev.
  - unfold rstrip. pose proof (lstrip_no_leading_space (rev p)) as Hlead.
    destruct (lstrip (rev p)) as [|x t]; [by left|]. right.
    exists (rev t), x. split; [done|]. exact Hlead.
Qed.

Lemma rstrip_plain (p : pystr) : plain p → plain (rstrip p).
Proof.
  intros Hp. destruct (rstrip_split p) as (ws & Heq & _).
  unfold plain in *. rewrite Heq in Hp. by apply Forall_app in Hp as [Hp _].
Qed.

Lemma strip_rstrip (p : pystr) : strip (rstrip p) = strip p.
Proof.
  destruct (rstrip_split p) as (ws & Heq & Hws & Hcase).
  unfold strip. rewrite Heq at 2.
  destruct Hcase as [->|(p0 & x & -> & Hx)].
  - change ([] ++ ws) with ws. rewrite <- (app_nil_r ws).
    by rewrite (lstrip_all_space ws [] Hws).
  - rewrite <- app_assoc. change ([x] ++ ws) with (x :: ws).
    rewrite (lstrip_app_non_space p0 x ws Hx).
    by rewrite (rstrip_app_space _ ws Hws).
Qed.

(** *** What the cleaning removes *)

Lemma clean_go_rstrip_prefix (p s : pystr) :
  plain p → clean_go O (rstrip p ++ s) = rstrip p ++ clean_go O s.
Proof.
  intros Hp. pose proof (rstrip_plain p Hp) as Hq.
  destruct (rstrip_split p) as (_ & _ & _ & [->|(p0 & x & Hr & Hx)]); [done|].
  rewrite Hr in *. rewrite <- !app_assoc.
  change ([x] ++ ?t) with (x :: t). by apply clean_go_prefix.
Qed.

(** A match that follows a plain text: the text is kept up to its trailing
    whitespace and the cleaning goes on behind the match. *)
Lemma clean_go_after_plain (p m rest : pystr) (n : nat) :
  plain p →
  (∀ ws, Forall (λ c, isspace c = true) ws →
         match_len (ws ++ m ++ rest) = Some (S (length ws + n))) →
  length m = S n →
  clean_go O (p ++ m ++ rest) = rstrip p ++ clean_go O rest.
Proof.
  intros Hp Hm Hlen.
  destruct (rstrip_split p) as (ws & Heq & Hws & _).
  rewrite Heq at 1. rewrite <- app_assoc.
  rewrite (clean_go_rstrip_prefix p _ Hp). f_equal.
  rewrite (clean_go_match _ _ (Hm ws Hws)).
  rewrite app_assoc.
  replace (S (length ws + n)) with (length (ws ++ m))
    by (rewrite length_app; lia).
  by rewrite drop_app_length.
Qed.

Lemma clean_go_paren (p g rest : pystr) :
  isspace 40 = false → plain p → 41 ∉ g → 10 ∉ g →
  clean_go O (p ++ 40 :: g ++ 41 :: rest) = rstrip p ++ clean_go O rest.
Proof.
  intros H40 Hp H41 H10.
  assert (Hshape : ∀ t : pystr,
            t ++ 40 :: g ++ 41 :: rest = t ++ (40 :: g ++ [41]) ++ rest).
  { intros t. simpl. by rewrite <- app_assoc. }
  rewrite Hshape.
  apply (clean_go_after_plain p (40 :: g ++ [41]) rest (length g + 1) Hp).
  - intros ws Hws. rewrite <- Hshape.
    rewrite (match_len_paren ws g rest Hws H40 H41 H10). f_equal. lia.
  - simpl. rewrite length_app. simpl. lia.
Qed.

Lemma clean_go_separator (p : pystr) (c : N) (r tail : pystr) :
  isspace c = false → c = 44 ∨ c = 47 ∨ c = 45 → plain p →
  10 ∉ r → tail = [] ∨ (∃ t, tail = 10 :: t) →
  clean_go O (p ++ c :: r ++ tail) = rstrip p ++ clean_go O tail.
Proof.
  intros Hc Hsep Hp H10 Htail.
  change (p ++ c :: r ++ tail) with (p ++ (c :: r) ++ tail).
  apply (clean_go_after_plain p (c :: r) tail (length r) Hp); [|done].
  intros ws Hws.
  exact (match_len_separator ws c r tail Hws Hc Hsep H10 Htail).
Qed.

End CleanerFacts.

(** C8: the cache key is the institution name cleaned and trimmed, a
    missing name counting as the empty string.  "MIT (Cambridge)" and
    "MIT, Cambridge" are cleaned to the same cache key, "MIT".  A call whose
    cleaned key is in the cache makes no request and changes nothing,
    returning null exactly when the cached value is the sentinel and the
    cached identifier otherwise; hence after a first call, a call for any
    name with the same cleaned key makes no request.  No comma, slash or
    hyphen-minus is left in a cache key, and a key neither starts nor ends
    with whitespace.  A name without parenthesis, comma, slash and
    hyphen-minus is kept whole and trimmed.  Of a name that is such a text
    followed by a comma, a slash or a hyphen-minus, the trimmed text before
    the separator is kept: the separator, the whitespace before it and the
    rest of its line are removed.  A parenthesised group, from an opening
    parenthesis to the first closing one on the same line, is removed with
    the whitespace before it, and what follows it is cleaned in the same
    way. *)
Theorem resolve_institution_id_cache_spec :
  clean_institution (U := ucd) (Some (str "MIT (Cambridge)"))
  = clean_institution (U := ucd) (Some (str "MIT, Cambridge"))
  ∧ (∀ (U : Unicode) get_institutions ins_name st cached,
       ins_cache st !! clean_institution ins_name = Some cached →
       resolve_institution_id get_institutions ins_name st
       = (Ok (if bool_decide (cached = CACHE_SENTINEL) then None
              else Some cached), st)
       ∧ ((resolve_institution_id get_institutions ins_name st).1 = Ok None
          ↔ cached = CACHE_SENTINEL))
  ∧ (∀ (U : Unicode) get_institutions ins_name ins_name' st,
       clean_institution ins_name = clean_institution ins_name' →
       let st1 := (resolve_institution_id get_institutions ins_name st).2 in
       (resolve_institution_id get_institutions ins_name' st1).2 = st1)
  ∧ (∀ (U : Unicode) ins_name,
       isspace 44 = false → isspace 47 = false → isspace 45 = false →
       Forall (λ c, c ≠ 44 ∧ c ≠ 47 ∧ c ≠ 45) (clean_institution ins_name))
  ∧ (clean_institution (U := ucd) (Some (str "MIT (Cambridge)")) = str "MIT"
     ∧ clean_institution (U := ucd) (Some (str "MIT, Cambridge")) = str "MIT")
  ∧ (∀ (U : Unicode), clean_institution None = [])
  ∧ (∀ (U : Unicode) ins_name,
       no_leading_space (clean_institution ins_name)
       ∧ no_leading_space (rev (clean_institution ins_name)))
  ∧ (∀ (U : Unicode) s, plain s → clean_institution (Some s) = strip s)
  ∧ (∀ (U : Unicode) p c r,
       isspace 44 = false → isspace 47 = false → isspace 45 = false →
       plain p → c = 44 ∨ c = 47 ∨ c = 45 → 10 ∉ r →
       clean_institution (Some (p ++ c :: r)) = strip p
       ∧ ∀ rest, clean_institution (Some (p ++ c :: r ++ 10 :: rest))
                 = clean_institution (Some (rstrip p ++ 10 :: rest)))
  ∧ (∀ (U : Unicode) p g rest,
       isspace 40 = false → plain p → 41 ∉ g → 10 ∉ g →
       clean_institution (Some (p ++ 40 :: g ++ 41 :: rest))
       = clean_institution (Some (rstrip p ++ rest))).
Proof.
  split; [vm_compute; reflexivity|].
  split; [|split; [|split; [|split; [|split; [|split; [|split; [|split]]]]]]].
  - intros U get_institutions ins_name st cached Hhit.
    rewrite (resolve_institution_id_hit _ _ _ _ Hhit). simpl.
    split; [done|]. by case_bool_decide.
  - intros U get_institutions ins_name ins_name' st Hkey st1.
    destruct (resolve_institution_id_caches get_institutions ins_name st)
      as [cached Hc].
    fold st1 in Hc. rewrite Hkey in Hc.
    by rewrite (resolve_institution_id_hit _ _ _ _ Hc).
  - intros U ins_name Hcomma Hslash Hdash. unfold clean_institution.
    apply strip_Forall. by apply clean_go_no_separator.
  - split; vm_compute; reflexivity.
  - intros U. reflexivity.
  - intros U ins_name. unfold clean_institution, strip. split.
    + apply rstrip_no_leading_space, lstrip_no_leading_space.
    + unfold rstrip. rewrite rev_involutive. apply lstrip_no_leading_space.
  - intros U s Hs. unfold clean_institution.
    change (default [] (Some s)) with s. by rewrite clean_go_plain.
  - intros U p c r Hcomma Hslash Hdash Hp Hsep H10.
    assert (Hc : isspace c = false) by (by destruct Hsep as [-> | [-> | ->]]).
    unfold clean_institution. split.
    + change (default [] (Some (p ++ c :: r))) with (p ++ c :: r).
      rewrite <- (app_nil_r r).
      rewrite (clean_go_separator p c r [] Hc Hsep Hp H10) by by left.
      change (clean_go O []) with (@nil N).
      by rewrite app_nil_r, strip_rstrip.
    + intros rest.
      change (default [] (Some ?x)) with x.
      rewrite (clean_go_separator p c r (10 :: rest) Hc Hsep Hp H10)
        by (right; eauto).
      by rewrite (clean_go_rstrip_prefix p _ Hp).
  - intros U p g rest H40 Hp H41 H10. unfold clean_institution.
    change (default [] (Some ?x)) with x.
    rewrite (clean_go_paren p g rest H40 Hp H41 H10).
    by rewrite (clean_go_rstrip_prefix p _ Hp).
Qed.

(** After "MIT (Cambridge)" has been resolved, "MIT, Cambridge" is answered
    from the cache; and "MIT (Cambridge), USA" has the key of "MIT, USA". *)
Lemma resolve_institution_id_cache_spec_witness :
  length (requests session_after_mit) = 1%nat
  ∧ resolve_institution_id (U := ucd) institutions_mit
      (Some (str "MIT, Cambridge")) session_after_mit
    = (Ok (Some mit_id), session_after_mit)
  ∧ clean_institution (U := ucd)
      (Some (str "MIT " ++ 40 :: str "Cambridge" ++ 41 :: str ", USA"))
    = clean_institution (U := ucd)
        (Some (rstrip (U := ucd) (str "MIT ") ++ str ", USA")).
Proof.
  split; [vm_compute; reflexivity|]. split.
  - pose proof (proj1 (proj2 resolve_institution_id_cache_spec) ucd
                  institutions_mit (Some (str "MIT, Cambridge"))
                  session_after_mit mit_id) as H.
    destruct H as [H _]; [vm_compute; reflexivity|].
    rewrite H. reflexivity.
  - apply (proj2 (proj2 (proj2 (proj2 (proj2 (proj2 (proj2 (proj2 (proj2
             resolve_institution_id_cache_spec)))))))) ucd
             (str "MIT ") (str "Cambridge") (str ", USA")).
    + reflexivity.
    + unfold plain. apply Forall_forall. intros c Hc.
      repeat (apply elem_of_cons in Hc as [->|Hc]; [by repeat split|]).
      by apply elem_of_nil in Hc.
    + intros Hc.
      repeat (apply elem_of_cons in Hc as [Hc|Hc]; [discriminate|]).
      by apply elem_of_nil in Hc.
    + intros Hc.
      repeat (apply elem_of_cons in Hc as [Hc|Hc]; [discriminate|]).
      by apply elem_of_nil in Hc.
Defined.

(** * Further properties of the code *)

(** ** Tokens of names and institutions *)

Section MoreTokenFacts.
Context `{U : Unicode}.

(** The characters of the tokens are the characters of the string that
    are not whitespace. *)
Lemma split_go_chars (Q : N → Prop) cur s :
  Forall Q cur → Forall (λ c, isspace c = false → Q c) s →
  Forall (Forall Q) (split_go cur s).
Proof.
  intros Hcur Hs. revert cur Hcur.
  induction Hs as [|c r Hc Hr IH]; intros cur Hcur; simpl.
  - destruct cur; repeat constructor. by apply Forall_rev.
  - destruct (isspace c) eqn:E.
    + destruct cur as [|x cur]; [by apply IH|].
      constructor; [by apply Forall_rev|by apply IH].
    + apply IH. constructor; auto.
Qed.

Lemma split_chars (Q : N → Prop) s :
  Forall (λ c, isspace c = false → Q c) s → Forall (Forall Q) (split s).
Proof. intros H. by apply split_go_chars. Qed.

(** X1: every token that [tokenize_name_fields] returns is non-empty and
    made of word characters (alphanumeric or underscore) only: it holds no
    whitespace and no hyphen-minus, whatever the fields are. *)
Theorem tokenize_name_fields_tokens (fields : list pystr) :
  Forall (λ t, t ≠ []
               ∧ Forall (λ c, is_word c = true ∧ isspace c = false ∧ c ≠ 45) t)
         (tokenize_name_fields fields).
Proof.
  unfold tokenize_name_fields. apply Forall_and. split; [apply split_nonempty|].
  apply split_chars. apply Forall_forall. intros c Hc Hns.
  apply list_elem_of_In, filter_In in Hc. destruct Hc as [Hc Hkeep].
  apply in_map_iff in Hc. destruct Hc as (c0 & Hc & _).
  rewrite Hns, orb_false_r in Hkeep. repeat split; [done|done|].
  intros ->. destruct (N.eqb_spec c0 45); [done|]. by subst c0.
Qed.

(** Two names match when they share a distinctive token. *)
Lemma institution_match_shared institution affiliation :
  institution_match institution affiliation = true
  ↔ ∃ t, t ∈ normalize_institution_name institution
         ∧ t ∈ normalize_institution_name affiliation.
Proof.
  unfold institution_match.
  destruct (normalize_institution_name institution) as [|t0 l] eqn:E.
  - split; [done|]. by intros (t & ?%elem_of_nil & _).
  - rewrite existsb_elem_of. by setoid_rewrite bool_decide_eq_true.
Qed.

(** X2: [institution_match] is symmetric: although only the institution
    side is tested for emptiness, swapping institution and affiliation
    never changes the answer. *)
Theorem institution_match_symmetric (institution affiliation : pystr) :
  institution_match institution affiliation
  = institution_match affiliation institution.
Proof.
  apply eq_true_iff_eq. rewrite !institution_match_shared.
  split; intros (t & ? & ?); eauto.
Qed.

End MoreTokenFacts.


(** ** The shape of a normalised name *)

Section NormalFormFacts.
Context `{U : Unicode}.
Hypothesis space_isspace : isspace 32 = true.

Lemma split_go_not_nil x cur s : split_go (x :: cur) s ≠ [].
Proof.
  revert x cur. induction s as [|c r IH]; intros x cur; simpl; [done|].
  destruct (isspace c); [done|apply IH].
Qed.

Lemma join_cons_cons sep (p q : pystr) rest :
  join sep (p :: q :: rest) = p ++ sep ++ join sep (q :: rest).
Proof. done. Qed.

Lemma join_cons_not_nil sep (p : pystr) rest :
  rest ≠ [] → join sep (p :: rest) = p ++ sep ++ join sep rest.
Proof. destruct rest; [done|]. intros _. apply join_cons_cons. Qed.

(** A string whose whitespace is single spaces between other characters
    is its tokens joined by single spaces; [cur] is the token being read. *)
Lemma join_split_go cur s :
  (cur = [] → no_leading_space s) →
  collapsed false s → no_leading_space (rev s) →
  join [32] (split_go cur s) = rev cur ++ s.
Proof.
  revert cur. induction s as [|c r IH]; intros cur Hlead Hcol Htrail; simpl.
  - destruct cur; simpl; [done|]. by rewrite app_nil_r.
  - simpl in Hcol. destruct (isspace c) eqn:E.
    + destruct Hcol as (-> & _ & Hcol).
      destruct cur as [|x cur]; [specialize (Hlead eq_refl); simpl in Hlead;
                                  congruence|].
      destruct r as [|d r'].
      { simpl in Htrail. congruence. }
      assert (Hd : isspace d = false).
      { simpl in Hcol. destruct (isspace d); [by destruct Hcol as (_ & ? & _)|done]. }
      assert (Htrail' : no_leading_space (rev (d :: r'))).
      { simpl in Htrail |- *. destruct (rev r' ++ [d]) eqn:Er; [done|].
        simpl in Htrail. done. }
      rewrite join_cons_not_nil.
      * rewrite (IH []); [done| |by apply (collapsed_weaken true)|done].
        intros _. exact Hd.
      * simpl. rewrite Hd. apply split_go_not_nil.
    + rewrite (IH (c :: cur)); [simpl; by rewrite <- app_assoc|done|done|].
      destruct r as [|d r']; [done|].
      simpl in Htrail |- *. destruct (rev r' ++ [d]) eqn:Er; [|done].
      by destruct (rev r').
Qed.

Lemma rstrip_no_trailing_space s : no_leading_space (rev (rstrip s)).
Proof.
  unfold rstrip. rewrite rev_involutive. apply lstrip_no_leading_space.
Qed.

Lemma normalize_name_finish (x : pystr) :
  x ≠ [] → normalize_name x = finish (nfkd (str_lower (strip x))).
Proof. by destruct x. Qed.

Lemma normalize_name_join (x : pystr) :
  join [32] (split (normalize_name x)) = normalize_name x.
Proof.
  destruct x as [|c x]; [done|].
  rewrite normalize_name_finish by done.
  set (z := nfkd _). unfold split.
  rewrite join_split_go; [done| | |].
  - intros _. unfold finish, strip.
    apply rstrip_no_leading_space, lstrip_no_leading_space.
  - by apply finish_collapsed.
  - unfold finish, strip. apply rstrip_no_trailing_space.
Qed.

(** X3: a normalised name is exactly its tokens joined by single spaces,
    so two names have the same normal form (the exact-name test of tier 1)
    if and only if they have the same list of tokens (what tiers 2 and 3
    compare). *)
Theorem normalize_name_is_joined_tokens (x y : pystr) :
  join (str " ") (split (normalize_name x)) = normalize_name x
  ∧ (normalize_name x = normalize_name y
     ↔ split (normalize_name x) = split (normalize_name y)).
Proof.
  split; [apply normalize_name_join|]. split; [by intros ->|].
  intros H. rewrite <- (normalize_name_join x), <- (normalize_name_join y).
  by rewrite H.
Qed.

Hypothesis space_combining : combining 32 = 0.

(** X4: every token of a normalised name is non-empty and made of
    alphanumeric characters only: no whitespace, no combining mark, no
    hyphen and no punctuation is left in it. *)
Theorem normalize_name_tokens_alnum (x : pystr) :
  Forall (λ t, t ≠ []
               ∧ Forall (λ c, isalnum c = true ∧ isspace c = false
                              ∧ combining c = 0 ∧ is_hyphen c = false) t)
         (split (normalize_name x)).
Proof.
  apply Forall_and. split; [apply split_nonempty|]. apply split_chars.
  destruct x as [|c0 x]; [constructor|].
  rewrite normalize_name_finish by done.
  eapply Forall_impl; [by apply finish_kept|].
  intros c (Hcomb & Hhyp & Hkeep) Hns.
  rewrite Hns, orb_false_r in Hkeep. done.
Qed.

End NormalFormFacts.

Lemma normalize_name_is_joined_tokens_witness :
  join (str " ") (split (U := ucd) (normalize_name (U := ucd) nunez_rios_accented))
  = str "nunez rios"
  ∧ split (U := ucd) (normalize_name (U := ucd) nunez_rios_accented)
    = split (U := ucd) (normalize_name (U := ucd) (str "  NUNEZ   Rios.")).
Proof.
  split.
  - rewrite (proj1 (normalize_name_is_joined_tokens (U := ucd) eq_refl
                      nunez_rios_accented [])).
    vm_compute. reflexivity.
  - apply (proj2 (normalize_name_is_joined_tokens (U := ucd) eq_refl
                    nunez_rios_accented (str "  NUNEZ   Rios."))).
    vm_compute. reflexivity.
Defined.

Lemma normalize_name_tokens_alnum_witness :
  Forall (λ t, t ≠ []
               ∧ Forall (λ c, isalnum (Unicode := ucd) c = true
                              ∧ isspace (Unicode := ucd) c = false
                              ∧ combining (Unicode := ucd) c = 0
                              ∧ is_hyphen c = false) t)
         (split (U := ucd) (normalize_name (U := ucd) nunez_rios_accented)).
Proof.
  apply (normalize_name_tokens_alnum (U := ucd) eq_refl eq_refl).
Defined.


(** ** More on the bag-of-words gate *)

Lemma token_checks_prefix (l : list pystr) :
  Forall (λ t, t ≠ []) l →
  ∀ k i, token_checks i (take k (drop i l)) l = Ok false.
Proof.
  intros Hne. induction k as [|k IH]; intros i; [done|].
  destruct (drop i l) as [|token rest] eqn:Ed; [done|].
  assert (Hi : l !! i = Some token).
  { pose proof (lookup_drop l i 0) as Hl. rewrite Ed, Nat.add_0_r in Hl.
    by rewrite <- Hl. }
  assert (Hrest : rest = drop (S i) l).
  { pose proof (drop_S l token i Hi) as Hd. rewrite Ed in Hd. congruence. }
  simpl. rewrite (proj2 (Nat.leb_gt _ _)) by (by eapply lookup_lt_Some).
  rewrite Hi, Hrest, IH.
  destruct (Nat.ltb_spec (length token) 2) as [Hshort|Hlong].
  - destruct token as [|c0 [|c1 token]]; simpl in Hshort; [|  |lia].
    + rewrite Forall_forall in Hne. destruct (Hne []); [|done].
      eapply list_elem_of_lookup_2; eauto.
    + by rewrite bool_decide_eq_false_2 by (intros H; by apply H).
  - rewrite bool_decide_eq_false_2; [done|].
    intros H. apply H. eapply list_elem_of_lookup_2; eauto.
Qed.

(** X5: a candidate whose tokens are the target's tokens, or the first
    [k] of them, and whose identifier is not memoised passes the gate: a
    profile with the target's own name, or with trailing surnames left
    out, is never rejected. *)
Theorem bag_of_words_accepts_prefix (full_name_tokens : list pystr) (k : nat)
    (candidate_name full_name : pystr) (memo : gmap pystr bool)
    (candidate_alex_id : pystr) :
  Forall (λ t, t ≠ []) full_name_tokens →
  candidate_alex_id ∉ dom memo →
  bag_of_words_reject (take k full_name_tokens) full_name_tokens
    candidate_name full_name memo candidate_alex_id = Ok false
  ∧ bag_of_words_reject full_name_tokens full_name_tokens
      candidate_name full_name memo candidate_alex_id = Ok false.
Proof.
  intros Hne Hout. rewrite !bag_of_words_reject_fresh by done. split.
  - apply (token_checks_prefix _ Hne k 0).
  - rewrite <- (firstn_all full_name_tokens) at 1.
    apply (token_checks_prefix _ Hne _ 0).
Qed.

Lemma bag_of_words_accepts_prefix_witness :
  bag_of_words_reject [str "juan"; str "garcia"] tokens_juan_garcia_lopez
    (str "Juan Garcia") (str "Juan Garcia Lopez") ∅ (str "A7") = Ok false.
Proof.
  apply (bag_of_words_accepts_prefix tokens_juan_garcia_lopez 2
           (str "Juan Garcia") (str "Juan Garcia Lopez") ∅ (str "A7")).
  - repeat constructor; discriminate.
  - rewrite dom_empty. apply not_elem_of_empty.
Defined.

(** Without initials the token checks never index a target token: the
    verdict is a matter of counting and membership. *)
Lemma token_checks_long (cand target : list pystr) (i : nat) :
  Forall (λ t, (2 ≤ length t)%nat) cand →
  token_checks i cand target
  = Ok (bool_decide ((cand ≠ [] ∧ length target < i + length cand)%nat
                     ∨ Exists (λ t, t ∉ target) cand)).
Proof.
  intros Hlong. revert i.
  induction Hlong as [|token rest Ht Hrest IH]; intros i; simpl.
  - done.
  - destruct (Nat.leb_spec (length target) i) as [Hi|Hi].
    { rewrite bool_decide_eq_true_2; [done|]. left. split; [done|]. lia. }
    rewrite (proj2 (Nat.ltb_ge _ _) Ht).
    case_bool_decide as Hmem.
    { rewrite bool_decide_eq_true_2; [done|]. right. by left. }
    rewrite IH. f_equal. apply bool_decide_ext. split.
    + intros [[Hne Hlen]|Hex]; [left|right; by right].
      split; [done|]. lia.
    + intros [[_ Hlen]|Hex].
      * destruct rest as [|t' rest']; [simpl in Hlen; lia|].
        left. split; [done|]. simpl in *. lia.
      * apply Exists_cons in Hex as [Hex|Hex]; [|by right].
        by destruct Hex.
Qed.

Lemma elem_of_insert_sorted x y l : y ∈ insert_sorted x l ↔ y = x ∨ y ∈ l.
Proof.
  induction l as [|z r IH]; simpl.
  - rewrite list_elem_of_singleton. split; [auto|]. intros [?|?%elem_of_nil]; done.
  - destruct (str_leb x z).
    + by rewrite elem_of_cons.
    + rewrite !elem_of_cons, IH. tauto.
Qed.

Lemma elem_of_sorted y l : y ∈ sorted l ↔ y ∈ l.
Proof.
  induction l as [|x r IH]; simpl; [done|].
  by rewrite elem_of_insert_sorted, elem_of_cons, IH.
Qed.

Lemma length_insert_sorted x l : length (insert_sorted x l) = S (length l).
Proof.
  induction l as [|z r IH]; simpl; [done|].
  destruct (str_leb x z); simpl; [done|]. by rewrite IH.
Qed.

Lemma length_sorted l : length (sorted l) = length l.
Proof.
  induction l as [|x r IH]; simpl; [done|].
  by rewrite length_insert_sorted, IH.
Qed.

Lemma Exists_sorted (Q : pystr → Prop) l : Exists Q (sorted l) ↔ Exists Q l.
Proof.
  rewrite !Exists_exists. split; intros (t & Ht & HQ); exists t;
    (split; [by apply elem_of_sorted|done]).
Qed.

Lemma sorted_not_nil l : sorted l ≠ [] ↔ l ≠ [].
Proof. rewrite <- !length_zero_iff_nil, length_sorted. done. Qed.

(** X6: for a candidate without initials (every token has at least two
    characters) the gate's verdict does not depend on the order of the
    tokens: the sorted comparison of tier 3 answers as the positional
    comparison of tier 2.  The candidate is rejected exactly when it is
    memoised, has more tokens than the target, or has a token that the
    target lacks. *)
Theorem bag_of_words_order_independent (candidate_tokens full_name_tokens : list pystr)
    (candidate_name full_name : pystr) (memo : gmap pystr bool)
    (candidate_alex_id : pystr) :
  Forall (λ t, (2 ≤ length t)%nat) candidate_tokens →
  bag_of_words_reject (sorted candidate_tokens) (sorted full_name_tokens)
    candidate_name full_name memo candidate_alex_id
  = bag_of_words_reject candidate_tokens full_name_tokens
      candidate_name full_name memo candidate_alex_id
  ∧ (bag_of_words_reject candidate_tokens full_name_tokens
       candidate_name full_name memo candidate_alex_id = Ok true
     ↔ candidate_alex_id ∈ dom memo
       ∨ (length full_name_tokens < length candidate_tokens)%nat
       ∨ ∃ t, t ∈ candidate_tokens ∧ t ∉ full_name_tokens).
Proof.
  intros Hlong.
  assert (Hsorted : Forall (λ t, (2 ≤ length t)%nat) (sorted candidate_tokens))
    by by apply sorted_Forall.
  unfold bag_of_words_reject. case_bool_decide as Hmemo.
  { split; [done|]. split; auto. }
  rewrite !token_checks_long by done. split.
  - f_equal. apply bool_decide_ext.
    rewrite !length_sorted, Exists_sorted, sorted_not_nil.
    assert (Exists (λ t, t ∉ sorted full_name_tokens) candidate_tokens
            ↔ Exists (λ t, t ∉ full_name_tokens) candidate_tokens) as ->; [|done].
    rewrite !Exists_exists.
    split; intros (t & Ht & Hn); exists t; (split; [done|]);
      intros Hin; apply Hn; by apply elem_of_sorted.
  - split.
    + intros [= H%bool_decide_eq_true]. right. simpl in H.
      destruct H as [[_ ?]|H%Exists_exists]; auto.
    + intros [?|[Hlen|Hex]]; [done| |].
      * f_equal. apply bool_decide_eq_true. left. split; [|simpl; lia].
        intros ->. simpl in Hlen. lia.
      * f_equal. apply bool_decide_eq_true. right. by apply Exists_exists.
Qed.

Lemma bag_of_words_order_independent_witness :
  bag_of_words_reject (sorted [str "ruiz"; str "ana"])
    (sorted [str "ana"; str "ruiz"; str "gomez"])
    (str "Ruiz Ana") (str "Ana Ruiz Gomez") ∅ (str "A8")
  = bag_of_words_reject [str "ruiz"; str "ana"]
      [str "ana"; str "ruiz"; str "gomez"]
      (str "Ruiz Ana") (str "Ana Ruiz Gomez") ∅ (str "A8").
Proof.
  apply (bag_of_words_order_independent [str "ruiz"; str "ana"]
           [str "ana"; str "ruiz"; str "gomez"]
           (str "Ruiz Ana") (str "Ana Ruiz Gomez") ∅ (str "A8")).
  repeat constructor; vm_compute; lia.
Defined.


(** ** More on the institution resolver *)

Section MoreResolverFacts.
Context `{U : Unicode}.
Variable get_institutions : nat → pystr → inst_reply.

(** A call always returns; what it returns is what the cache then holds
    for the cleaned key; entries that were in the cache are left alone; at
    most the one request for the cleaned key is made. *)
Lemma resolve_institution_id_backed (ins_name : option pystr) (st : session) :
  ∃ res, (resolve_institution_id get_institutions ins_name st).1 = Ok res
    ∧ ins_cache (resolve_institution_id get_institutions ins_name st).2
        !! clean_institution ins_name
      = Some (default CACHE_SENTINEL res)
    ∧ (∀ k v, ins_cache st !! k = Some v →
         ins_cache (resolve_institution_id get_institutions ins_name st).2
           !! k = Some v)
    ∧ requests (resolve_institution_id get_institutions ins_name st).2
      = requests st
        ++ match ins_cache st !! clean_institution ins_name with
           | Some _ => []
           | None => [institutions_url (clean_institution ins_name)]
           end
    ∧ (synced st →
       synced (resolve_institution_id get_institutions ins_name st).2).
Proof.
  unfold resolve_institution_id, bind, get_session, ret, modify,
    cache_and_save, synced. simpl.
  destruct (ins_cache st !! clean_institution ins_name) as [c|] eqn:E; simpl.
  { eexists. split; [done|]. rewrite E, app_nil_r.
    split; [|done]. by case_bool_decide; simplify_eq. }
  assert (Hkeep : ∀ x k v, ins_cache st !! k = Some v →
            <[clean_institution ins_name := x]> (ins_cache st) !! k = Some v).
  { intros x k v Hk. rewrite lookup_insert_ne; [done|]. intros <-. congruence. }
  destruct (get_institutions _ _) as [|status results]; simpl.
  { exists None. rewrite lookup_insert_eq. repeat split; auto. }
  case_bool_decide; simpl.
  { exists None. rewrite lookup_insert_eq. repeat split; auto. }
  destruct results as [|[i|] results]; simpl;
    [exists None|exists (Some i)|exists None];
    rewrite lookup_insert_eq; repeat split; auto.
Qed.

(** X7: a call of [resolve_institution_id] always returns, never changes
    or removes an entry the cache already holds, and answers from the
    cache: a returned identifier is the one now cached under the cleaned
    name, and null means the sentinel is cached there. *)
Theorem resolve_institution_id_keeps_entries (ins_name : option pystr)
    (st : session) :
  ∃ res, (resolve_institution_id get_institutions ins_name st).1 = Ok res
    ∧ ins_cache (resolve_institution_id get_institutions ins_name st).2
        !! clean_institution ins_name
      = Some match res with Some ins_id => ins_id | None => CACHE_SENTINEL end
    ∧ (∀ k v, ins_cache st !! k = Some v →
         ins_cache (resolve_institution_id get_institutions ins_name st).2
           !! k = Some v).
Proof.
  destruct (resolve_institution_id_backed ins_name st)
    as (res & Hres & Hkey & Hkeep & _).
  exists res. by destruct res.
Qed.

(** X8: the answer is remembered, failures included: after a call that
    returned null, a call for any name with the same cleaned key returns
    null again without a request, and after a call that returned an
    identifier (other than the sentinel string) it returns that identifier
    without a request. *)
Theorem resolve_institution_id_repeat (ins_name ins_name' : option pystr)
    (st : session) :
  clean_institution ins_name = clean_institution ins_name' →
  ∃ res, (resolve_institution_id get_institutions ins_name st).1 = Ok res
    ∧ (res ≠ Some CACHE_SENTINEL →
       resolve_institution_id get_institutions ins_name'
         (resolve_institution_id get_institutions ins_name st).2
       = (Ok res, (resolve_institution_id get_institutions ins_name st).2)).
Proof.
  intros Hkey.
  destruct (resolve_institution_id_backed ins_name st)
    as (res & Hres & Hc & _).
  exists res. split; [done|]. intros Hne. rewrite Hkey in Hc.
  rewrite (resolve_institution_id_hit _ _ _ _ Hc).
  destruct res as [i|]; case_bool_decide as Hd; simpl in Hd |- *;
    [by subst i|done|done|done].
Qed.

End MoreResolverFacts.

(** An institutions endpoint that is down. *)
Lemma resolve_institution_id_keeps_entries_witness :
  ins_cache (resolve_institution_id (U := ucd) (λ _ _, InstFailed)
               (Some (str "Univ. X, Madrid")) session_after_mit).2
    !! str "MIT" = Some mit_id.
Proof.
  destruct (resolve_institution_id_keeps_entries (U := ucd) (λ _ _, InstFailed)
              (Some (str "Univ. X, Madrid")) session_after_mit)
    as (res & _ & _ & Hkeep).
  apply Hkeep. vm_compute. reflexivity.
Defined.

Lemma resolve_institution_id_repeat_witness :
  ∃ st1,
    resolve_institution_id (U := ucd) (λ _ _, InstFailed)
      (Some (str "Univ. X, Madrid")) (initial_session None) = (Ok None, st1)
    ∧ resolve_institution_id (U := ucd) (λ _ _, InstFailed)
        (Some (str "Univ. X (Spain)")) st1 = (Ok None, st1)
    ∧ length (requests st1) = 1%nat.
Proof.
  eexists. split; [vm_compute; reflexivity|]. split; [|vm_compute; reflexivity].
  destruct (resolve_institution_id_repeat (U := ucd) (λ _ _, InstFailed)
              (Some (str "Univ. X, Madrid")) (Some (str "Univ. X (Spain)"))
              (initial_session None) eq_refl) as (res & Hres & Hrep).
  vm_compute in Hres. injection Hres as <-.
  apply Hrep. discriminate.
Defined.


(** ** More on the tiered search *)

Section AfterRequest.
Context `{U : Unicode}.
Variable P : session → Prop.
Hypothesis P_append : ∀ st fs l t,
  P st → candidate_dict st !! fs = Some l →
  (∀ ct, ct ∈ l → ct_alex_id t ≠ ct_alex_id ct) →
  P (set_candidate_dict (<[fs := l ++ [t]]> (candidate_dict st)) st).
Hypothesis P_reject : ∀ st id,
  P st → P (set_reject_dict (<[id := true]> (reject_dict st)) st).
Hypothesis P_new_person : ∀ st fs,
  P st → candidate_dict st !! fs = None →
  P (set_candidate_dict (<[fs := []]> (candidate_dict st)) st).

Lemma preserves_after_authors_request fs_id full_name ins_id reply :
  preserves P (after_authors_request fs_id full_name ins_id reply).
Proof.
  unfold after_authors_request.
  destruct reply as [|status meta_count results]; [apply preserves_ret|].
  case_bool_decide; [apply preserves_ret|].
  apply preserves_bind.
  { apply preserves_modify. intros st' H'.
    destruct (candidate_dict st' !! fs_id) eqn:E; [done|].
    by apply P_new_person. }
  intros _. case_bool_decide; [apply preserves_ret|].
  destruct results as [results|]; [|apply preserves_lift].
  apply preserves_bind;
    [apply preserves_for_each; intros c; by apply preserves_tier1_step|].
  intros _. apply preserves_bind;
    [apply preserves_for_each; intros c; by apply preserves_tier2_step|].
  intros _. apply preserves_for_each. intros c. by apply preserves_tier3_step.
Qed.

End AfterRequest.

Section MoreSearchFacts.
Context `{U : Unicode}.
Variable get_institutions : nat → pystr → inst_reply.
Variable get_authors : nat → pystr → authors_reply.

(** The search is the resolution of the institution, the request for
    authors and the treatment of its reply. *)
Lemma search_openalex_unfold fs_id q_name full_name pais ins :
  search_openalex get_institutions get_authors fs_id q_name full_name pais ins
  = bind (resolve_institution_id get_institutions ins) (λ ins_id,
      bind get_session (λ st,
        bind (modify (log_request (authors_url q_name))) (λ _,
          after_authors_request fs_id full_name ins_id
            (get_authors (length (requests st)) (authors_url q_name))))).
Proof. reflexivity. Qed.

(** The final session is the one the treatment of the reply leaves. *)
Lemma search_openalex_final fs_id q_name full_name pais ins st :
  ∃ ins_id,
    search_openalex get_institutions get_authors fs_id q_name full_name pais
      ins st
    = after_authors_request fs_id full_name ins_id
        (get_authors
           (length (requests (resolve_institution_id get_institutions ins st).2))
           (authors_url q_name))
        (log_request (authors_url q_name)
           (resolve_institution_id get_institutions ins st).2).
Proof.
  rewrite search_openalex_unfold. unfold bind at 1.
  destruct (resolve_institution_id_backed get_institutions ins st)
    as (res & Hres & _).
  destruct (resolve_institution_id get_institutions ins st) as [r st1].
  simpl in *. subst r. by exists res.
Qed.

Lemma preserves_synced fs_id q_name full_name pais ins :
  preserves synced
    (search_openalex get_institutions get_authors fs_id q_name full_name
       pais ins).
Proof.
  intros st Hs.
  destruct (search_openalex_final fs_id q_name full_name pais ins st)
    as [ins_id ->].
  apply (preserves_after_authors_request synced); try done.
  destruct (resolve_institution_id_backed get_institutions ins st)
    as (_ & _ & _ & _ & _ & Hsync).
  by apply Hsync.
Qed.

(** X9: the cache file is kept in step with the cache in memory: a call
    of [search_openalex] started with the two in agreement ends with them
    in agreement, and so does a whole run; every entry resolved during a
    run is on disk when the run ends, also when it ends by an exception. *)
Theorem cache_file_synced :
  (∀ fs_id q_name full_name pais ins st,
     synced st →
     synced (search_openalex get_institutions get_authors fs_id q_name
               full_name pais ins st).2)
  ∧ (∀ file df_main,
       default ∅ (cache_file
                    (run_openalex_pipeline get_institutions get_authors file
                       df_main).2)
       = ins_cache (run_openalex_pipeline get_institutions get_authors file
                      df_main).2).
Proof.
  split.
  - intros. by apply preserves_synced.
  - intros file df_main. unfold run_openalex_pipeline.
    apply (preserves_for_each synced); [|done].
    intros r. apply preserves_synced.
Qed.

(** X10: a call of [search_openalex] makes one request for authors, and
    before it one request for the institution exactly when the cleaned
    institution name is not in the cache; the tiers make no request. *)
Theorem search_openalex_requests (fs_id q_name full_name pais : pystr)
    (ins : option pystr) (st : session) :
  requests (search_openalex get_institutions get_authors fs_id q_name
              full_name pais ins st).2
  = requests st
    ++ match ins_cache st !! clean_institution ins with
       | Some _ => []
       | None => [institutions_url (clean_institution ins)]
       end
    ++ [authors_url q_name].
Proof.
  destruct (search_openalex_final fs_id q_name full_name pais ins st)
    as [ins_id ->].
  destruct (resolve_institution_id_backed get_institutions ins st)
    as (_ & _ & _ & _ & Hreq & _).
  set (st1 := (resolve_institution_id get_institutions ins st).2) in *.
  rewrite (preserves_after_authors_request
             (λ s, requests s = requests (log_request (authors_url q_name) st1)));
    try done.
  simpl. by rewrite Hreq, <- app_assoc.
Qed.

(** X11: when the request for authors fails or is answered with a status
    other than 200, the call returns normally and leaves the accepted
    candidates and the rejection memo exactly as they were. *)
Theorem search_openalex_failure_isolated (fs_id q_name full_name pais : pystr)
    (ins : option pystr) (st : session) :
  (∀ n, match get_authors n (authors_url q_name) with
        | AuthFailed => True
        | AuthReply status _ _ => status ≠ 200%Z
        end) →
  let r := search_openalex get_institutions get_authors fs_id q_name
             full_name pais ins st in
  r.1 = Ok tt
  ∧ candidate_dict r.2 = candidate_dict st
  ∧ reject_dict r.2 = reject_dict st.
Proof.
  intros Hfail r. subst r.
  destruct (search_openalex_final fs_id q_name full_name pais ins st)
    as [ins_id ->].
  destruct (resolve_institution_id_frame get_institutions ins st) as [Hc Hr].
  set (st1 := (resolve_institution_id get_institutions ins st).2) in *.
  specialize (Hfail (length (requests st1))).
  unfold after_authors_request.
  destruct (get_authors _ _) as [|status meta_count results]; [done|].
  by rewrite bool_decide_eq_true_2.
Qed.

(** X12: accepted candidates are only ever appended: after a call of
    [search_openalex], and after any further rows of a run, every person's
    earlier list of accepted candidates is a prefix of the later one. *)
Theorem accepted_lists_grow (st : session) (fs : pystr)
    (l0 : list candidate_tuple) :
  candidate_dict st !! fs = Some l0 →
  (∀ fs_id q_name full_name pais ins,
     ∃ l', candidate_dict
             (search_openalex get_institutions get_authors fs_id q_name
                full_name pais ins st).2 !! fs = Some (l0 ++ l'))
  ∧ (∀ df_rest,
       ∃ l', candidate_dict
               (for_each (process_row get_institutions get_authors) df_rest
                  st).2 !! fs = Some (l0 ++ l')).
Proof.
  intros Hl0.
  set (P := λ s : session, ∃ l', candidate_dict s !! fs = Some (l0 ++ l')).
  assert (H0 : P st) by (exists []; by rewrite app_nil_r).
  assert (Hsearch : ∀ fs_id q_name full_name pais ins,
            preserves P (search_openalex get_institutions get_authors fs_id
                           q_name full_name pais ins)).
  { intros. apply preserves_search_openalex.
    - intros s s' Hc _ [l' Hl']. exists l'. by rewrite <- Hc.
    - intros s fs' l t [l' Hl'] Hfs _. unfold P. simpl.
      destruct (decide (fs' = fs)) as [->|Hne].
      + rewrite lookup_insert_eq. exists (l' ++ [t]).
        rewrite Hl' in Hfs. injection Hfs as <-. by rewrite app_assoc.
      + rewrite lookup_insert_ne by done. by exists l'.
    - intros s id H. exact H.
    - intros s fs' [l' Hl'] Hnone. unfold P. simpl.
      rewrite lookup_insert_ne; [by exists l'|]. intros ->. congruence. }
  split.
  - intros. by apply Hsearch.
  - intros df_rest. apply (preserves_for_each P); [|done].
    intros r. apply Hsearch.
Qed.

End MoreSearchFacts.

Lemma cache_file_synced_witness :
  synced run_ana.2
  ∧ synced (search_openalex (U := ucd) institutions_mit authors_ana (str "FS3")
              (str "Ana Ruiz") (str "Ana Ruiz Gomez") (str "Spain")
              (Some (str "MIT (Cambridge)")) run_ana.2).2.
Proof.
  assert (H : synced run_ana.2) by (vm_compute; reflexivity).
  split; [exact H|].
  by apply (proj1 (cache_file_synced (U := ucd) institutions_mit authors_ana)).
Defined.

Lemma search_openalex_failure_isolated_witness :
  candidate_dict
    (search_openalex (U := ucd) institutions_zaragoza (λ _ _, AuthReply 503 0 None)
       (str "FS1") (str "Ana Ruiz") (str "Ana Ruiz Gomez") (str "Spain") None
       run_ana.2).2
  = candidate_dict run_ana.2.
Proof.
  apply (search_openalex_failure_isolated (U := ucd) institutions_zaragoza
           (λ _ _, AuthReply 503 0 None)).
  intros n. simpl. discriminate.
Defined.

Lemma accepted_lists_grow_witness :
  ∃ l l', candidate_dict run_ana.2 !! str "FS1" = Some l
          ∧ length l = 3%nat
          ∧ candidate_dict
              (for_each (process_row (U := ucd) institutions_zaragoza authors_ana)
                 [row_juan; row_ana] run_ana.2).2 !! str "FS1"
            = Some (l ++ l').
Proof.
  eexists.
  destruct (proj2 (accepted_lists_grow (U := ucd) institutions_zaragoza
                     authors_ana run_ana.2 (str "FS1") _
                     ltac:(vm_compute; reflexivity))
              [row_juan; row_ana]) as [l' Hl'].
  exists l'. split; [vm_compute; reflexivity|]. split; [reflexivity|exact Hl'].
Defined.


(** ** What the tiers accept *)

Lemma for_each_establishes {A} (I Q : session → Prop) (body : A → M unit)
    (l : list A) (c : A) :
  (∀ a, returns_in I (body a)) → (∀ a, preserves Q (body a)) →
  (∀ st, I st → Q (body c st).2) → c ∈ l →
  ∀ st, I st → Q (for_each body l st).2.
Proof.
  intros Hret Hpres Hc. induction l as [|a r IH]; intros Hin st HI.
  { by apply elem_of_nil in Hin. }
  simpl. unfold bind. destruct (Hret a st HI) as [[[] Ha] HI'].
  apply elem_of_cons in Hin as [->|Hin].
  - specialize (Hc st HI). destruct (body a st) as [res st']. simpl in *.
    subst res. by apply (preserves_for_each Q).
  - specialize (IH Hin). destruct (body a st) as [res st']. simpl in *.
    subst res. by apply IH.
Qed.

Lemma bind_establishes {A B} (I Q : session → Prop) (m : M A) (k : A → M B) :
  (∀ st, I st → Q (m st).2) → (∀ a, preserves Q (k a)) →
  ∀ st, I st → Q (bind m k st).2.
Proof.
  intros Hm Hk st HI. unfold bind. specialize (Hm st HI).
  destruct (m st) as [[a|e] st']; simpl in *; [by apply Hk|done].
Qed.

Section TierFacts.
Context `{U : Unicode}.
Variable get_institutions : nat → pystr → inst_reply.
Variable get_authors : nat → pystr → authors_reply.

Lemma already_accepted_spec fs id st :
  already_accepted fs id st = true ↔ id ∈ accepted_ids fs st.
Proof.
  unfold already_accepted, accepted_ids.
  rewrite existsb_elem_of, list_elem_of_fmap. split.
  - intros (ct & Hct & Heq%bool_decide_eq_true). eauto.
  - intros (ct & Heq & Hct). exists ct. split; [done|].
    by apply bool_decide_eq_true.
Qed.

Lemma accepted_ids_append fs fs' l t st :
  candidate_dict st !! fs' = Some l →
  accepted_ids fs (set_candidate_dict (<[fs' := l ++ [t]]> (candidate_dict st)) st)
  = accepted_ids fs st ++ (if decide (fs' = fs) then [ct_alex_id t] else []).
Proof.
  intros Hl. unfold accepted_ids. simpl. destruct (decide (fs' = fs)) as [->|Hne].
  - rewrite lookup_insert_eq, Hl. simpl. by rewrite fmap_app.
  - rewrite lookup_insert_ne by done. by rewrite app_nil_r.
Qed.

Lemma tier1_step_accepts fs_id full_name c st :
  exact_name full_name c → has_person fs_id st →
  cand_id c ∈ accepted_ids fs_id
                (tier1_step fs_id (normalize_name full_name) c st).2.
Proof.
  intros Hexact [l Hl]. unfold tier1_step.
  assert (bool_decide (normalize_name (display_name c) = normalize_name full_name)
          || existsb (λ alt, bool_decide (normalize_name full_name = alt))
               (List.map normalize_name (display_name_alternatives c)) = true)
    as ->.
  { apply orb_true_iff. destruct Hexact as [H|(alt & Halt & H)].
    - left. by apply bool_decide_eq_true.
    - right. apply existsb_elem_of. exists (normalize_name alt). split.
      + apply list_elem_of_In, in_map, list_elem_of_In, Halt.
      + by apply bool_decide_eq_true. }
  unfold bind, get_session. simpl.
  destruct (already_accepted fs_id (cand_id c) st) eqn:Hacc; simpl.
  - by apply already_accepted_spec.
  - unfold gather_candidate_data. rewrite Hl. simpl.
    rewrite (accepted_ids_append _ _ _ _ _ Hl), decide_True by done.
    apply elem_of_app. right. simpl. by left.
Qed.

(** Membership in a person's accepted list survives every mutation. *)
Lemma accepted_member_append (fs_id id : pystr) st fs l t :
  id ∈ accepted_ids fs_id st → candidate_dict st !! fs = Some l →
  id ∈ accepted_ids fs_id
         (set_candidate_dict (<[fs := l ++ [t]]> (candidate_dict st)) st).
Proof.
  intros Hin Hl. rewrite (accepted_ids_append _ _ _ _ _ Hl).
  apply elem_of_app. by left.
Qed.

(** X13: when the request for authors is answered with results, every
    candidate among them whose normalised display name, or one of whose
    normalised alternative names, equals the normalised target name is in
    the person's accepted list after the call, whether or not its
    identifier is in the rejection memo: tier 1 does not consult the memo
    and the later tiers remove nothing. *)
Theorem search_openalex_accepts_exact_names (fs_id q_name full_name pais : pystr)
    (ins : option pystr) (st : session) (count : Z)
    (results : list candidate) (c : candidate) :
  (∀ n, get_authors n (authors_url q_name) = AuthReply 200 count (Some results)) →
  count ≠ 0%Z → c ∈ results → exact_name full_name c →
  cand_id c ∈ accepted_ids fs_id
                (search_openalex get_institutions get_authors fs_id q_name
                   full_name pais ins st).2.
Proof.
  intros Hreply Hcount Hin Hexact.
  destruct (search_openalex_final get_institutions get_authors fs_id q_name
              full_name pais ins st) as [ins_id ->].
  rewrite Hreply. unfold after_authors_request.
  rewrite bool_decide_eq_false_2 by (intros H; by apply H).
  unfold bind at 1. simpl. rewrite bool_decide_eq_false_2 by done.
  set (st2 := match candidate_dict _ !! fs_id with Some _ => _ | None => _ end).
  assert (H2 : has_person fs_id st2).
  { subst st2. unfold has_person.
    destruct (candidate_dict (resolve_institution_id get_institutions ins st).2
                !! fs_id) eqn:E; simpl.
    - rewrite E. eauto.
    - rewrite lookup_insert_eq. eauto. }
  set (Q := λ s, cand_id c ∈ accepted_ids fs_id s).
  assert (Happ : ∀ s fs l t, Q s → candidate_dict s !! fs = Some l →
            (∀ ct, ct ∈ l → ct_alex_id t ≠ ct_alex_id ct) →
            Q (set_candidate_dict (<[fs := l ++ [t]]> (candidate_dict s)) s)).
  { intros s fs l t Hq Hl _. by apply accepted_member_append. }
  assert (Hrej : ∀ s id, Q s →
            Q (set_reject_dict (<[id := true]> (reject_dict s)) s)) by done.
  apply (bind_establishes (has_person fs_id) Q); [| |done].
  - apply (for_each_establishes (has_person fs_id) Q _ _ c); try done.
    + intros a. apply returns_tier1_step.
    + intros a. by apply preserves_tier1_step.
    + intros s' Hs'. by apply tier1_step_accepts.
  - intros _. apply preserves_bind.
    + apply preserves_for_each. intros a. by apply preserves_tier2_step.
    + intros _. apply preserves_for_each. intros a.
      by apply preserves_tier3_step.
Qed.

End TierFacts.


(** "Ana Smith" was memoised for the first person; searched for by her own
    name she is accepted by tier 1. *)
Lemma search_openalex_accepts_exact_names_witness :
  str "A4" ∈ dom (reject_dict run_ana.2)
  ∧ str "A4" ∈ accepted_ids (str "FS9")
                 (search_openalex (U := ucd) institutions_zaragoza authors_ana
                    (str "FS9") (str "Ana Smith") (str "Ana Smith")
                    (str "Spain") None run_ana.2).2.
Proof.
  split; [apply elem_of_dom; eexists; vm_compute; reflexivity|].
  apply (search_openalex_accepts_exact_names (U := ucd) institutions_zaragoza
           authors_ana (str "FS9") (str "Ana Smith") (str "Ana Smith")
           (str "Spain") None run_ana.2 5
           [cand_A1; cand_A2; cand_A3; cand_A4; cand_A1] cand_A4).
  - intros n. reflexivity.
  - discriminate.
  - do 3 right. left.
  - left. vm_compute. reflexivity.
Defined.

Lemma preserves_for_each_in P {A} (body : A → M unit) (l : list A) :
  (∀ a, a ∈ l → preserves P (body a)) → preserves P (for_each body l).
Proof.
  induction l as [|a r IH]; intros Hbody; [apply preserves_ret|].
  simpl. apply preserves_bind.
  - apply Hbody. by left.
  - intros _. apply IH. intros b Hb. apply Hbody. by right.
Qed.

Section LaterTierFacts.
Context `{U : Unicode}.
Variable get_institutions : nat → pystr → inst_reply.
Variable get_authors : nat → pystr → authors_reply.

(** The test of tier 1 is the exact-name test. *)
Lemma tier1_test_exact full_name c :
  bool_decide (normalize_name (display_name c) = normalize_name full_name)
  || existsb (λ alt, bool_decide (normalize_name full_name = alt))
       (List.map normalize_name (display_name_alternatives c)) = true →
  exact_name full_name c.
Proof.
  intros [H|H]%orb_true_iff.
  - left. by apply bool_decide_eq_true in H.
  - right. apply existsb_elem_of in H as (n & Hn & Heq%bool_decide_eq_true).
    apply list_elem_of_In, in_map_iff in Hn as (alt & <- & Halt).
    exists alt. split; [by apply list_elem_of_In|done].
Qed.

(** The session the treatment of the reply starts from has the lists and
    the memo of the session the search started from. *)
Lemma search_openalex_start ins q_name st :
  candidate_dict (log_request (authors_url q_name)
                    (resolve_institution_id get_institutions ins st).2)
  = candidate_dict st
  ∧ reject_dict (log_request (authors_url q_name)
                   (resolve_institution_id get_institutions ins st).2)
    = reject_dict st.
Proof.
  exact (resolve_institution_id_frame get_institutions ins st).
Qed.

(** Registering a person does not change who is accepted. *)
Lemma accepted_ids_register fs_id fs st :
  accepted_ids fs_id
    match candidate_dict st !! fs with
    | Some _ => st
    | None => set_candidate_dict (<[fs := []]> (candidate_dict st)) st
    end = accepted_ids fs_id st.
Proof.
  destruct (candidate_dict st !! fs) eqn:E; [done|].
  unfold accepted_ids. simpl. destruct (decide (fs = fs_id)) as [->|Hne].
  - by rewrite lookup_insert_eq, E.
  - by rewrite lookup_insert_ne.
Qed.

(** ** A person without accepted candidates *)

Lemma tier1_step_not_exact fs_id full_name c st :
  ¬ exact_name full_name c →
  tier1_step fs_id (normalize_name full_name) c st = (Ok tt, st).
Proof.
  intros Hno. unfold tier1_step.
  destruct (bool_decide _ || existsb _ _) eqn:Htest; [|done].
  destruct Hno. by apply tier1_test_exact.
Qed.

Lemma tier2_step_no_affiliation fs_id full_name ins_id c :
  affiliations c = [] →
  preserves (λ st, accepted_ids fs_id st = [])
    (tier2_step fs_id full_name ins_id c).
Proof.
  intros Haff st Hnone. unfold tier2_step, gated, bind, get_session, lift.
  simpl. destruct (already_accepted _ _ _); [exact Hnone|].
  destruct (bag_of_words_reject _ _ _ _ _ _) as [[|]|e];
    [exact Hnone| |exact Hnone].
  rewrite Haff. simpl. by destruct ins_id as [[|x i]|].
Qed.

Lemma tier3_step_no_anchor fs_id full_name c :
  preserves (λ st, accepted_ids fs_id st = []) (tier3_step fs_id full_name c).
Proof.
  intros st Hnone. unfold tier3_step, gated, bind, get_session, lift.
  simpl. destruct (already_accepted _ _ _); [exact Hnone|].
  destruct (bag_of_words_reject _ _ _ _ _ _) as [[|]|e];
    [exact Hnone| |exact Hnone].
  pose proof Hnone as Hempty. unfold accepted_ids in Hempty.
  apply fmap_nil_inv in Hempty. rewrite Hempty. exact Hnone.
Qed.

(** X14: topic matching needs an anchor.  For a person nobody is accepted
    for yet, a search whose candidates have neither the exact name nor an
    affiliation accepts nobody, whatever the topics of the candidates are
    and however well their name tokens fit. *)
Theorem search_openalex_needs_anchor (fs_id q_name full_name pais : pystr)
    (ins : option pystr) (st : session) :
  accepted_ids fs_id st = [] →
  (∀ n status count results c,
     get_authors n (authors_url q_name) = AuthReply status count (Some results) →
     c ∈ results → ¬ exact_name full_name c ∧ affiliations c = []) →
  accepted_ids fs_id
    (search_openalex get_institutions get_authors fs_id q_name full_name pais
       ins st).2 = [].
Proof.
  intros Hnone Hcands.
  destruct (search_openalex_final get_institutions get_authors fs_id q_name
              full_name pais ins st) as [ins_id ->].
  destruct (search_openalex_start ins q_name st) as [Hc _].
  set (st1 := log_request _ _) in *.
  assert (H1 : accepted_ids fs_id st1 = []).
  { unfold accepted_ids. by rewrite Hc. }
  destruct (get_authors _ _) as [|status count results] eqn:Hreply;
    [exact H1|].
  unfold after_authors_request. case_bool_decide; [exact H1|].
  unfold bind at 1. simpl.
  pose proof (accepted_ids_register fs_id fs_id st1) as Hreg.
  set (st2 := match candidate_dict st1 !! fs_id with
              | Some _ => _ | None => _ end) in *.
  assert (H2 : accepted_ids fs_id st2 = []) by by rewrite Hreg.
  case_bool_decide; [exact H2|].
  destruct results as [results|]; [|exact H2].
  enough (Hpres : preserves (λ s, accepted_ids fs_id s = [])
            (bind (for_each (tier1_step fs_id (normalize_name full_name)) results)
               (λ _, bind (for_each (tier2_step fs_id full_name ins_id) results)
                       (λ _, for_each (tier3_step fs_id full_name) results))))
    by exact (Hpres st2 H2).
  apply preserves_bind.
  - apply preserves_for_each_in. intros c Hin s Hs.
    destruct (Hcands _ _ _ _ c Hreply Hin) as [Hno _].
    by rewrite tier1_step_not_exact.
  - intros _. apply preserves_bind.
    + apply preserves_for_each_in. intros c Hin.
      destruct (Hcands _ _ _ _ c Hreply Hin) as [_ Haff].
      by apply tier2_step_no_affiliation.
    + intros _. apply preserves_for_each. intros c.
      apply tier3_step_no_anchor.
Qed.

(** ** A memoised identifier *)

Section Memoised.
Variables (id fs_id : pystr) (E : Prop).

Local Abbreviation memoised st :=
  (id ∈ dom (reject_dict st) ∧ (id ∈ accepted_ids fs_id st → E)).

Lemma gather_candidate_data_other fs c name alts :
  cand_id c ≠ id ∨ E →
  preserves (λ st, memoised st) (gather_candidate_data fs c name alts).
Proof.
  intros Hc st [Hmemo Hout]. unfold gather_candidate_data.
  destruct (candidate_dict st !! fs) as [l|] eqn:Hl; simpl; [|done].
  split; [done|]. rewrite (accepted_ids_append _ _ _ _ _ Hl).
  intros [?|Hin]%elem_of_app; [auto|].
  destruct Hc as [Hne|He]; [|done].
  destruct (decide (fs = fs_id)); [|by apply elem_of_nil in Hin].
  apply list_elem_of_singleton in Hin. simpl in Hin. congruence.
Qed.

Lemma preserves_gated_memo full_name c ctokens ftokens k :
  (cand_id c ≠ id → preserves (λ st, memoised st) k) →
  preserves (λ st, memoised st) (gated fs_id full_name c ctokens ftokens k).
Proof.
  intros Hk st [Hmemo Hout]. unfold gated, bind, get_session, lift. simpl.
  destruct (already_accepted _ _ _); simpl; [done|].
  destruct (decide (cand_id c = id)) as [Heq|Hne].
  - rewrite bag_of_words_reject_memo by (by rewrite Heq). simpl.
    split; [|done]. rewrite dom_insert. set_solver.
  - destruct (bag_of_words_reject _ _ _ _ _ _) as [[|]|e]; simpl;
      [|by apply Hk|done].
    split; [|done]. rewrite dom_insert. set_solver.
Qed.

Lemma tier1_step_memo full_name c :
  (cand_id c = id → exact_name full_name c → E) →
  preserves (λ st, memoised st) (tier1_step fs_id (normalize_name full_name) c).
Proof.
  intros HE. unfold tier1_step.
  destruct (bool_decide _ || existsb _ _) eqn:Htest; [|apply preserves_ret].
  apply tier1_test_exact in Htest. apply preserves_get. intros st Hst.
  destruct (negb _); [|done].
  apply gather_candidate_data_other; [|done].
  destruct (decide (cand_id c = id)); auto.
Qed.

Lemma tier2_step_memo full_name ins_id c :
  preserves (λ st, memoised st) (tier2_step fs_id full_name ins_id c).
Proof.
  unfold tier2_step. apply preserves_gated_memo. intros Hne.
  destruct ins_id as [[|x i]|]; try apply preserves_ret.
  case_bool_decide; [|apply preserves_ret].
  apply gather_candidate_data_other. by left.
Qed.

Lemma tier3_step_memo full_name c :
  preserves (λ st, memoised st) (tier3_step fs_id full_name c).
Proof.
  unfold tier3_step. apply preserves_gated_memo. intros Hne.
  apply preserves_get. intros s Hs.
  destruct (max_by_key _ _) as [best|]; simpl; [|done].
  destruct (existsb _ _); simpl; [|done].
  apply gather_candidate_data_other; [by left|done].
Qed.

End Memoised.

(** X15: the rejection memo closes tiers 2 and 3 to a candidate.  If an
    identifier is in the memo and not accepted for a person before a
    search and is accepted for that person after it, then the reply held a
    candidate with this identifier whose display name or alternative name
    is the person's normalised full name: only tier 1 can have accepted
    it. *)
Theorem memoised_accepted_only_by_exact_name (fs_id q_name full_name pais : pystr)
    (ins : option pystr) (st : session) (id : pystr) :
  id ∈ dom (reject_dict st) → id ∉ accepted_ids fs_id st →
  id ∈ accepted_ids fs_id
         (search_openalex get_institutions get_authors fs_id q_name full_name
            pais ins st).2 →
  ∃ n count results c,
    get_authors n (authors_url q_name) = AuthReply 200 count (Some results)
    ∧ c ∈ results ∧ cand_id c = id ∧ exact_name full_name c.
Proof.
  intros Hmemo Hout.
  destruct (search_openalex_final get_institutions get_authors fs_id q_name
              full_name pais ins st) as [ins_id ->].
  destruct (search_openalex_start ins q_name st) as [Hc Hr].
  set (st1 := log_request _ _) in *.
  assert (H1 : accepted_ids fs_id st1 = accepted_ids fs_id st).
  { unfold accepted_ids. by rewrite Hc. }
  destruct (get_authors _ _) as [|status count results] eqn:Hreply.
  { intros Hin. destruct Hout. rewrite <- H1. exact Hin. }
  unfold after_authors_request. case_bool_decide as Hstatus.
  { intros Hin. destruct Hout. rewrite <- H1. exact Hin. }
  assert (status = 200%Z) as ->.
  { destruct (decide (status = 200%Z)); [done|]. by destruct Hstatus. }
  unfold bind at 1. simpl.
  pose proof (accepted_ids_register fs_id fs_id st1) as Hreg.
  assert (Hr2 : reject_dict
                  match candidate_dict st1 !! fs_id with
                  | Some _ => st1
                  | None => set_candidate_dict
                              (<[fs_id := []]> (candidate_dict st1)) st1
                  end = reject_dict st1).
  { by destruct (candidate_dict st1 !! fs_id). }
  set (st2 := match candidate_dict st1 !! fs_id with
              | Some _ => _ | None => _ end) in *.
  case_bool_decide.
  { intros Hin. destruct Hout. rewrite <- H1, <- Hreg. exact Hin. }
  destruct results as [results|].
  2:{ intros Hin. destruct Hout. rewrite <- H1, <- Hreg. exact Hin. }
  set (E := ∃ c, c ∈ results ∧ cand_id c = id ∧ exact_name full_name c).
  assert (H2 : id ∈ dom (reject_dict st2) ∧ (id ∈ accepted_ids fs_id st2 → E)).
  { split; [by rewrite Hr2, Hr|]. rewrite Hreg, H1. done. }
  intros Hin.
  assert (HE : E).
  { enough (Hpres : preserves
              (λ s, id ∈ dom (reject_dict s) ∧ (id ∈ accepted_ids fs_id s → E))
              (bind (for_each (tier1_step fs_id (normalize_name full_name))
                       results)
                 (λ _, bind (for_each (tier2_step fs_id full_name ins_id) results)
                         (λ _, for_each (tier3_step fs_id full_name) results))))
      by exact (proj2 (Hpres st2 H2) Hin).
    apply preserves_bind.
    - apply preserves_for_each_in. intros c Hc'. apply tier1_step_memo.
      intros Hid Hexact. by exists c.
    - intros _. apply preserves_bind.
      + apply preserves_for_each. intros c. apply tier2_step_memo.
      + intros _. apply preserves_for_each. intros c. apply tier3_step_memo. }
  destruct HE as (c & Hc' & Hid & Hexact). eauto 10.
Qed.

End LaterTierFacts.

(** A person nobody has been accepted for: "Ana Ruiz Gomez" is the name of
    none of the candidates, who have no affiliation; the search accepts
    none of them, although the name tokens of "Ana Ruiz" pass the gate. *)
Lemma search_openalex_needs_anchor_witness :
  accepted_ids (str "FS5")
    (search_openalex (U := ucd) institutions_zaragoza authors_without_affiliation
       (str "FS5") (str "Ana Ruiz") (str "Ana Ruiz Gomez") (str "Spain")
       (Some (str "Universidad de Zaragoza")) (initial_session None)).2 = [].
Proof.
  apply (search_openalex_needs_anchor (U := ucd) institutions_zaragoza
           authors_without_affiliation).
  - reflexivity.
  - intros n status count results c [= <- <- <-] Hin.
    apply list_elem_of_singleton in Hin as ->. split; [|reflexivity].
    intros [H|(alt & Halt & H)].
    + vm_compute in H. discriminate.
    + by apply elem_of_nil in Halt.
Defined.

(** "Ana Smith" (A4) is memoised after the first run; a later search accepts
    her for the person of that name, and the reply names her exactly. *)
Lemma memoised_accepted_only_by_exact_name_witness :
  ∃ n count results c,
    authors_ana n (authors_url (str "Ana Smith"))
    = AuthReply 200 count (Some results)
    ∧ c ∈ results ∧ cand_id c = str "A4"
    ∧ exact_name (U := ucd) (str "Ana Smith") c.
Proof.
  apply (memoised_accepted_only_by_exact_name (U := ucd) institutions_zaragoza
           authors_ana (str "FS9") (str "Ana Smith") (str "Ana Smith")
           (str "Spain") None run_ana.2 (str "A4")).
  - apply elem_of_dom. eexists. vm_compute. reflexivity.
  - vm_compute. apply not_elem_of_nil.
  - vm_compute. left.
Defined.


Lemma truthy_Some (o : option pystr) (d : pystr) :
  truthy o = Some d → o = Some d ∧ d ≠ [].
Proof. destruct o as [[|x r]|]; simpl; intros [= <-]; done. Qed.

Lemma elem_of_List_filter {A} (f : A → bool) (l : list A) (x : A) :
  x ∈ List.filter f l ↔ x ∈ l ∧ f x = true.
Proof. rewrite !list_elem_of_In. apply filter_In. Qed.

Section SearchSound.
Context `{U : Unicode}.
Variable crossref_sample : pystr → list item.

Lemma positive_score it full_name institution_name year :
  (0 < compute_similarity_score it full_name institution_name year)%Z →
  name_match_perfect it full_name
  ∧ (1 ≤ compute_similarity_score it full_name institution_name year ≤ 3)%Z.
Proof.
  rewrite compute_similarity_score_unfold.
  destruct (existsb _ _) eqn:Hp; [|lia]. intros _. split.
  - by apply perfect_match_spec.
  - destruct (check_affiliation_or_publisher _ _),
             (check_created_year_in_range _ _ _); simpl; lia.
Qed.

Lemma exact_positive_score it full_name institution_name year :
  exact_token_match full_name it = true →
  (0 < compute_similarity_score it full_name institution_name year)%Z.
Proof.
  intros (au & Hau & Heq%bool_decide_eq_true)%existsb_elem_of.
  rewrite compute_similarity_score_unfold.
  assert (existsb (λ au, bool_decide (query_tokens full_name ⊆ author_tokens au))
            (item_author it) = true) as ->.
  { apply existsb_elem_of. exists au. split; [done|].
    apply bool_decide_eq_true. by rewrite Heq. }
  destruct (check_affiliation_or_publisher _ _),
           (check_created_year_in_range _ _ _); simpl; lia.
Qed.

(** X16: the DOI search is sound.  Whatever CrossRef returns, a result of
    [search_doi] is the link of the non-empty DOI of one of the sampled
    documents, and that document has an author whose name tokens contain
    every token of the full search name; the reported score lies between 1
    and 3 and does not exceed the similarity score of that document. *)
Theorem search_doi_sound (name_query given_name : pystr) (scholarship_year : Z)
    (institution_name url : pystr) (s : Z) :
  search_doi crossref_sample name_query given_name scholarship_year
    institution_name = Some (url, s) →
  ∃ it doi,
    it ∈ crossref_sample (doi_queries name_query given_name).1
    ∧ DOI it = Some doi ∧ doi ≠ [] ∧ url = doi_url doi
    ∧ name_match_perfect it (doi_queries name_query given_name).2
    ∧ (1 ≤ s ≤ 3)%Z
    ∧ (s ≤ compute_similarity_score it (doi_queries name_query given_name).2
             institution_name scholarship_year)%Z.
Proof.
  unfold search_doi.
  destruct (doi_queries name_query given_name) as [q full_name]. simpl.
  set (results := crossref_sample q). unfold select_doi.
  set (fallback := match List.filter (exact_token_match full_name) results with
                   | [] => None
                   | it :: _ => _
                   end).
  assert (Hfallback : fallback = Some (url, s) →
    ∃ it doi, it ∈ results ∧ DOI it = Some doi ∧ doi ≠ [] ∧ url = doi_url doi
      ∧ name_match_perfect it full_name ∧ (1 ≤ s ≤ 3)%Z
      ∧ (s ≤ compute_similarity_score it full_name institution_name
               scholarship_year)%Z).
  { subst fallback.
    destruct (List.filter (exact_token_match full_name) results)
      as [|it r] eqn:Hf; [done|].
    assert (Hit : it ∈ List.filter (exact_token_match full_name) results)
      by (rewrite Hf; left).
    apply elem_of_List_filter in Hit as [Hin Hexact].
    destruct (truthy (DOI it)) as [doi|] eqn:Hdoi; [|done].
    intros [= <- <-]. apply truthy_Some in Hdoi as [Hdoi Hne].
    pose proof (exact_positive_score it full_name institution_name
                  scholarship_year Hexact) as Hpos.
    destruct (positive_score _ _ _ _ Hpos) as [Hperfect Hrange].
    exists it, doi. repeat split; try done; lia. }
  destruct (List.filter (λ p : Z * item, (2 <=? p.1)%Z) _)
    as [|[best_score best_item] r] eqn:Hbest; [done|].
  destruct (truthy (DOI best_item)) as [doi|] eqn:Hdoi; [|done].
  intros [= <- <-]. apply truthy_Some in Hdoi as [Hdoi Hne].
  assert (Hin : (best_score, best_item)
                ∈ List.filter (λ p : Z * item, (2 <=? p.1)%Z)
                    (sort_desc
                       (List.filter (λ p : Z * item, (0 <? p.1)%Z)
                          (List.map
                             (λ it, (compute_similarity_score it full_name
                                       institution_name scholarship_year, it))
                             results))))
    by (rewrite Hbest; left).
  apply elem_of_List_filter in Hin as [Hin Htwo].
  apply elem_of_sort_desc, elem_of_List_filter in Hin as [Hin Hpos].
  apply list_elem_of_In, in_map_iff in Hin as (it & [= <- <-] & Hit).
  apply list_elem_of_In in Hit. simpl in Hpos, Htwo.
  apply Z.ltb_lt in Hpos. destruct (positive_score _ _ _ _ Hpos) as [Hp Hr].
  exists it, doi. repeat split; try done; lia.
Qed.

End SearchSound.

(** The search for "Ana Ruiz Gomez" returns the link of "10.1000/a". *)
Lemma search_doi_sound_witness :
  ∃ it doi,
    it ∈ sample_with_doi
           (doi_queries (U := ucd) (str "Ana Ruiz Gomez") (str "Ana")).1
    ∧ DOI it = Some doi ∧ doi ≠ []
    ∧ doi_url (str "10.1000/a") = doi_url doi
    ∧ name_match_perfect (U := ucd) it
        (doi_queries (U := ucd) (str "Ana Ruiz Gomez") (str "Ana")).2
    ∧ (1 ≤ 3 ≤ 3)%Z
    ∧ (3 ≤ compute_similarity_score (U := ucd) it
             (doi_queries (U := ucd) (str "Ana Ruiz Gomez") (str "Ana")).2
             (str "Universidad de Zaragoza") 2015)%Z.
Proof.
  apply (search_doi_sound (U := ucd) sample_with_doi (str "Ana Ruiz Gomez")
           (str "Ana") 2015 (str "Universidad de Zaragoza")).
  vm_compute. reflexivity.
Defined.


(** ** The queries of the DOI search *)

Lemma truthy_nonempty (d : pystr) : d ≠ [] → truthy (Some d) = Some d.
Proof. by destruct d. Qed.

Lemma lookup_last_two {A} (a : A) (mid : list A) (p m : A) :
  (a :: mid ++ [p; m]) !! (length (a :: mid ++ [p; m]) - 2)%nat = Some p
  ∧ (a :: mid ++ [p; m]) !! (length (a :: mid ++ [p; m]) - 1)%nat = Some m.
Proof.
  split.
  - replace (length (a :: mid ++ [p; m]) - 2)%nat with (S (length mid))
      by (simpl; rewrite length_app; simpl; lia).
    change ((mid ++ [p; m]) !! length mid = Some p).
    rewrite lookup_app_r by lia. by rewrite Nat.sub_diag.
  - replace (length (a :: mid ++ [p; m]) - 1)%nat with (S (S (length mid)))
      by (simpl; rewrite length_app; simpl; lia).
    change ((mid ++ [p; m]) !! S (length mid) = Some m).
    rewrite lookup_app_r by lia.
    by replace (S (length mid) - length mid)%nat with 1%nat by lia.
Qed.

Section QueryFacts.
Context `{U : Unicode}.
Hypothesis space_is_space : isspace 32 = true.

Lemma strip_app_space (g : pystr) : strip (g ++ [32]) = strip g.
Proof.
  unfold strip. rewrite lstrip_app_last.
  destruct (lstrip g) as [|x l] eqn:E.
  - simpl. by rewrite space_is_space.
  - unfold rstrip. rewrite rev_app_distr. simpl. by rewrite space_is_space.
Qed.

Lemma parse_spanish_name_long (name : pystr) (a : pystr) (mid : list pystr)
    (p m : pystr) :
  split (str_lower name) = a :: mid ++ [p; m] →
  parse_spanish_name name = ([a], Some p, Some m).
Proof.
  intros Ht. unfold parse_spanish_name. rewrite Ht.
  destruct (lookup_last_two a mid p m) as [Hp Hm].
  assert ((length (a :: mid ++ [p; m]) =? 2)%nat = false) as Hlen.
  { apply Nat.eqb_neq. simpl. rewrite length_app. simpl. lia. }
  destruct mid as [|x mid]; cbn [app] in *; by rewrite Hlen, Hp, Hm.
Qed.

(** X17: the queries of the DOI search.  CrossRef is asked for the last
    two tokens of the lower-cased name only (for the second token when
    there are two), and the results are scored against the given name
    followed by these tokens; the tokens in between are not used.  For a
    name of fewer than two tokens the author query is the empty string and
    the results are scored against the given name alone. *)
Theorem doi_queries_spec (name_query given_name : pystr) (tokens : list pystr) :
  tokens = split (str_lower name_query) →
  ((length tokens < 2)%nat →
     doi_queries name_query given_name = ([], strip given_name))
  ∧ (∀ a b, tokens = [a; b] →
       doi_queries name_query given_name
       = (b, strip (given_name ++ str " " ++ b)))
  ∧ (∀ a mid p m, tokens = a :: mid ++ [p; m] →
       doi_queries name_query given_name
       = (p ++ str " " ++ m, strip (given_name ++ str " " ++ p ++ str " " ++ m))).
Proof.
  intros Ht.
  pose proof (split_nonempty (str_lower name_query)) as Hne.
  rewrite <- Ht in Hne. split; [|split].
  - intros Hlen. unfold doi_queries, parse_spanish_name. rewrite <- Ht.
    destruct tokens as [|a [|b l]]; simpl in *; try lia;
      by rewrite strip_app_space.
  - intros a b ->. unfold doi_queries, parse_spanish_name. rewrite <- Ht.
    apply Forall_cons in Hne as [_ [Hb _]%Forall_cons].
    destruct b as [|x b]; [done|]. reflexivity.
  - intros a mid p m ->. unfold doi_queries.
    rewrite (parse_spanish_name_long _ a mid p m) by done.
    apply Forall_cons in Hne as [_ Hne].
    apply Forall_app in Hne as [_ Hne].
    apply Forall_cons in Hne as [Hp [Hm _]%Forall_cons].
    destruct p as [|x p]; [done|]. destruct m as [|y m]; [done|].
    reflexivity.
Qed.

End QueryFacts.

(** A one-word name: the author query is empty. *)
Lemma doi_queries_spec_witness :
  doi_queries (U := ucd) (str "Cher") (str " Cher") = ([], str "Cher").
Proof.
  apply (proj1 (doi_queries_spec (U := ucd) eq_refl (str "Cher") (str " Cher")
                  _ eq_refl)).
  vm_compute. lia.
Defined.


(** ** Errors of the search *)

Section SearchErrors.
Context `{U : Unicode}.
Variable get_institutions : nat → pystr → inst_reply.
Variable get_authors : nat → pystr → authors_reply.

Lemma tiers_return fs_id full_name ins_id results st :
  has_person fs_id st →
  (bind (for_each (tier1_step fs_id (normalize_name full_name)) results)
     (λ _, bind (for_each (tier2_step fs_id full_name ins_id) results)
             (λ _, for_each (tier3_step fs_id full_name) results)) st).1
  = Ok tt.
Proof.
  intros Hst.
  assert (Hret : returns_in (has_person fs_id)
            (bind (for_each (tier1_step fs_id (normalize_name full_name)) results)
               (λ _, bind (for_each (tier2_step fs_id full_name ins_id) results)
                       (λ _, for_each (tier3_step fs_id full_name) results)))).
  { apply returns_bind;
      [apply returns_for_each; intros c; apply returns_tier1_step|].
    intros _. apply returns_bind;
      [apply returns_for_each; intros c; apply returns_tier2_step|].
    intros _. apply returns_for_each. intros c. apply returns_tier3_step. }
  destruct (Hret st Hst) as [[[] ->] _]. done.
Qed.

(** X18: the one error of the search.  A call of [search_openalex] raises
    exactly when the request for authors is answered with status 200 and a
    non-zero count but without a list of results, and what it raises then
    is a [KeyError]; no name, token list or candidate makes the tiers
    raise. *)
Theorem search_openalex_raises (fs_id q_name full_name pais : pystr)
    (ins : option pystr) (st : session) (e : exn) :
  (search_openalex get_institutions get_authors fs_id q_name full_name pais
     ins st).1 = Raise e
  ↔ e = KeyError
    ∧ ∃ count, count ≠ 0%Z
        ∧ get_authors
            (length (requests (resolve_institution_id get_institutions ins st).2))
            (authors_url q_name)
          = AuthReply 200 count None.
Proof.
  destruct (search_openalex_final get_institutions get_authors fs_id q_name
              full_name pais ins st) as [ins_id ->].
  set (st1 := log_request _ _).
  destruct (get_authors _ _) as [|status count results] eqn:Hreply.
  { split; [done|]. by intros (_ & count & _ & ?). }
  unfold after_authors_request. case_bool_decide as Hstatus.
  { split; [done|]. intros (_ & c & _ & [= -> _ _]). by destruct Hstatus. }
  assert (status = 200%Z) as ->.
  { destruct (decide (status = 200%Z)); [done|]. by destruct Hstatus. }
  unfold bind at 1. simpl. case_bool_decide as Hcount.
  { split; [done|]. intros (_ & c & Hc & [= <- _]). by destruct Hc. }
  destruct results as [results|].
  - rewrite tiers_return.
    + split; [done|]. by intros (_ & c & _ & ?).
    + unfold has_person.
      destruct (candidate_dict (resolve_institution_id get_institutions ins st).2
                  !! fs_id) as [l|] eqn:E.
      * exists l. exact E.
      * exists []. apply lookup_insert_eq.
  - simpl. split.
    + intros [= <-]. split; [done|]. by exists count.
    + by intros [-> _].
Qed.

End SearchErrors.


(** ** The names of the researcher files *)

Lemma split_on_go_not_nil sep cur s : split_on_go sep cur s ≠ [].
Proof.
  revert cur. induction s as [|c r IH]; intros cur; simpl; [done|].
  destruct (c =? sep)%N; [done|apply IH].
Qed.

(** Joining the pieces with the separator gives the string back. *)
Lemma join_split_on_go (sep : N) (cur s : pystr) :
  join [sep] (split_on_go sep cur s) = rev cur ++ s.
Proof.
  revert cur. induction s as [|c r IH]; intros cur; simpl.
  - by rewrite app_nil_r.
  - destruct (N.eqb_spec c sep) as [->|Hne].
    + rewrite join_cons_not_nil by apply split_on_go_not_nil.
      by rewrite IH.
    + rewrite IH. simpl. by rewrite <- app_assoc.
Qed.

(** The last piece holds no separator. *)
Lemma last_split_on_go (sep : N) (cur s : pystr) :
  sep ∉ cur → sep ∉ List.last (split_on_go sep cur s) [].
Proof.
  revert cur. induction s as [|c r IH]; intros cur Hcur; simpl.
  - by rewrite list_elem_of_In, <- in_rev, <- list_elem_of_In.
  - destruct (N.eqb_spec c sep) as [->|Hne].
    + specialize (IH [] (not_elem_of_nil _)).
      destruct (split_on_go sep [] r) eqn:E; [by apply split_on_go_not_nil in E|].
      done.
    + apply IH. by intros [?|?]%elem_of_cons.
Qed.

(** Without a separator there is one piece, the string. *)
Lemma split_on_go_none (sep : N) (cur s : pystr) :
  sep ∉ s → split_on_go sep cur s = [rev cur ++ s].
Proof.
  revert cur. induction s as [|c r IH]; intros cur Hs; simpl.
  - by rewrite app_nil_r.
  - destruct (N.eqb_spec c sep) as [->|Hne]; [destruct Hs; by left|].
    rewrite IH by (intros ?; apply Hs; by right).
    simpl. by rewrite <- app_assoc.
Qed.

(** With a separator there are at least two pieces. *)
Lemma split_on_go_some (sep : N) (cur s : pystr) :
  sep ∈ s → ∃ p q r, split_on_go sep cur s = p :: q :: r.
Proof.
  revert cur. induction s as [|c r IH]; intros cur Hs; simpl.
  - by apply elem_of_nil in Hs.
  - destruct (N.eqb_spec c sep) as [->|Hne].
    + destruct (split_on_go sep [] r) as [|q l] eqn:E;
        [by apply split_on_go_not_nil in E|]. eauto.
    + apply IH. apply elem_of_cons in Hs as [->|Hs]; done.
Qed.

(** A list of pieces is its front, the separator and its last piece. *)
Lemma join_removelast_last (sep : pystr) (p q : pystr) (r : list pystr) :
  join sep (removelast (p :: q :: r)) ++ sep ++ List.last (p :: q :: r) []
  = join sep (p :: q :: r).
Proof.
  revert p q. induction r as [|x r IH]; intros p q; [done|].
  specialize (IH q x).
  change (removelast (p :: q :: x :: r)) with (p :: removelast (q :: x :: r)).
  change (List.last (p :: q :: x :: r) []) with (List.last (q :: x :: r) []).
  rewrite (join_cons_cons sep p q (x :: r)), <- IH.
  rewrite join_cons_not_nil by done.
  by rewrite <- !app_assoc.
Qed.

(** X19: the names read off an input file.  The Scopus identifier is the
    text after the last underscore of the base name and holds no
    underscore.  When the base name has an underscore the output file is
    named after it, base name and ".xlsx"; when it has none, the whole
    base name is taken for the identifier, the label is empty and the
    output name starts with an underscore. *)
Theorem researcher_file_names_spec
    (base researcher_label scopus_id out_filename : pystr) :
  researcher_file_names base = (researcher_label, scopus_id, out_filename) →
  (95 ∉ scopus_id)
  ∧ (95 ∈ base → researcher_label ++ str "_" ++ scopus_id = base
                 ∧ out_filename = base ++ str ".xlsx")
  ∧ (95 ∉ base → researcher_label = [] ∧ scopus_id = base
                 ∧ out_filename = str "_" ++ base ++ str ".xlsx").
Proof.
  unfold researcher_file_names, split_on. intros [= <- <- <-].
  split; [|split].
  - apply last_split_on_go, not_elem_of_nil.
  - intros Hin. destruct (split_on_go_some 95 [] base Hin) as (p & q & r & E).
    pose proof (join_split_on_go 95 [] base) as Hjoin.
    rewrite E in *. simpl rev in Hjoin. simpl app in Hjoin.
    pose proof (join_removelast_last (str "_") p q r) as Hparts.
    change (str "_") with [95%N] in *.
    rewrite Hjoin in Hparts. split; [exact Hparts|].
    rewrite <- Hparts, <- !app_assoc. reflexivity.
  - intros Hout. rewrite (split_on_go_none 95 [] base Hout). done.
Qed.

(** The file of "Ana_Ruiz" with the identifier 57190000000. *)
Lemma researcher_file_names_spec_witness :
  (95 ∉ str "57190000000")
  ∧ (95 ∈ str "Ana_Ruiz_57190000000" →
       str "Ana_Ruiz" ++ str "_" ++ str "57190000000"
       = str "Ana_Ruiz_57190000000"
       ∧ str "Ana_Ruiz_57190000000.xlsx"
         = str "Ana_Ruiz_57190000000" ++ str ".xlsx")
  ∧ (95 ∉ str "Ana_Ruiz_57190000000" →
       str "Ana_Ruiz" = [] ∧ str "57190000000" = str "Ana_Ruiz_57190000000"
       ∧ str "Ana_Ruiz_57190000000.xlsx"
         = str "_" ++ str "Ana_Ruiz_57190000000" ++ str ".xlsx").
Proof.
  apply (researcher_file_names_spec (str "Ana_Ruiz_57190000000")
           (str "Ana_Ruiz") (str "57190000000")
           (str "Ana_Ruiz_57190000000.xlsx")).
  vm_compute. reflexivity.
Defined.


(** ** The accepted lists and the persons *)

Section GatherInvariant.
Context `{U : Unicode}.
Variable get_institutions : nat → pystr → inst_reply.
Variable get_authors : nat → pystr → authors_reply.

(** A property of the accepted candidates and of the rejection memo that
    survives what a search for the person [fs_id] does: storing a
    candidate for this person, memoising a rejection and creating the
    person's empty list. *)
Variable fs_id : pystr.
Variable P : session → Prop.
Hypothesis P_frame : ∀ st st',
  candidate_dict st = candidate_dict st' → reject_dict st = reject_dict st' →
  P st → P st'.
Hypothesis P_gather : ∀ c name alts,
  preserves P (gather_candidate_data fs_id c name alts).
Hypothesis P_reject : ∀ st id,
  P st → P (set_reject_dict (<[id := true]> (reject_dict st)) st).
Hypothesis P_new_person : ∀ st,
  P st → candidate_dict st !! fs_id = None →
  P (set_candidate_dict (<[fs_id := []]> (candidate_dict st)) st).

Lemma gather_tier1_step full_name_norm c :
  preserves P (tier1_step fs_id full_name_norm c).
Proof.
  unfold tier1_step. destruct (_ || _); [|apply preserves_ret].
  apply preserves_get. intros st H. destruct (negb _); [|done].
  by apply P_gather.
Qed.

Lemma gather_gated full_name c candidate_tokens full_name_tokens k :
  preserves P k →
  preserves P (gated fs_id full_name c candidate_tokens full_name_tokens k).
Proof.
  intros Hk. unfold gated. apply preserves_get. intros st H.
  destruct (already_accepted fs_id (cand_id c) st); simpl; [done|].
  unfold bind, lift.
  destruct (bag_of_words_reject _ _ _ _ _ _) as [[|]|e]; simpl;
    [by apply P_reject|by apply Hk|done].
Qed.

Lemma gather_tier2_step full_name ins_id c :
  preserves P (tier2_step fs_id full_name ins_id c).
Proof.
  unfold tier2_step. apply gather_gated.
  destruct ins_id as [[|x i]|]; try apply preserves_ret.
  case_bool_decide; [apply P_gather|apply preserves_ret].
Qed.

Lemma gather_tier3_step full_name c :
  preserves P (tier3_step fs_id full_name c).
Proof.
  unfold tier3_step. apply gather_gated. apply preserves_get. intros st H.
  destruct (max_by_key _ _) as [best|]; simpl; [|done].
  destruct (existsb _ _); simpl; [|done].
  by apply P_gather.
Qed.

Lemma gather_search_openalex q_name full_name pais ins :
  preserves P (search_openalex get_institutions get_authors fs_id q_name
                 full_name pais ins).
Proof.
  rewrite search_openalex_unfold. apply preserves_bind.
  { intros st H.
    destruct (resolve_institution_id_frame get_institutions ins st) as [Hc Hr].
    by apply (P_frame st). }
  intros ins_id. apply preserves_get. intros st H.
  apply preserves_bind; [|intros _|done].
  { apply preserves_modify. intros st' H'. by apply (P_frame st'). }
  unfold after_authors_request.
  destruct (get_authors _ _) as [|status meta_count results];
    [apply preserves_ret|].
  case_bool_decide; [apply preserves_ret|].
  apply preserves_bind.
  { apply preserves_modify. intros st' H'.
    destruct (candidate_dict st' !! fs_id) eqn:E; [done|].
    by apply P_new_person. }
  intros _. case_bool_decide; [apply preserves_ret|].
  destruct results as [results|]; [|apply preserves_lift].
  apply preserves_bind;
    [apply preserves_for_each; intros c; apply gather_tier1_step|].
  intros _. apply preserves_bind;
    [apply preserves_for_each; intros c; apply gather_tier2_step|].
  intros _. apply preserves_for_each. intros c. apply gather_tier3_step.
Qed.

End GatherInvariant.

Section Filed.
Context `{U : Unicode}.
Variable get_institutions : nat → pystr → inst_reply.
Variable get_authors : nat → pystr → authors_reply.

Lemma filed_search_openalex persons fs_id q_name full_name pais ins :
  fs_id ∈ persons →
  preserves (filed persons)
    (search_openalex get_institutions get_authors fs_id q_name full_name
       pais ins).
Proof.
  intros Hperson. apply gather_search_openalex.
  - intros st st' Hc _ H fs l. rewrite <- Hc. apply H.
  - intros c name alts st H. unfold gather_candidate_data.
    destruct (candidate_dict st !! fs_id) as [l0|] eqn:E; simpl; [|done].
    intros fs l. simpl. destruct (decide (fs = fs_id)) as [->|Hne].
    + rewrite lookup_insert_eq. intros [= <-]. split; [done|].
      apply Forall_app. split; [by apply (H fs_id)|]. by repeat constructor.
    + rewrite lookup_insert_ne by done. apply H.
  - intros st id H. exact H.
  - intros st H Hnone fs l. simpl. destruct (decide (fs = fs_id)) as [->|Hne].
    + rewrite lookup_insert_eq. by intros [= <-].
    + rewrite lookup_insert_ne by done. apply H.
Qed.

(** X20: the accepted lists of a run belong to its rows.  After a run of
    the pipeline, whether it ended normally or was cut short by an error,
    every key of the dictionary of accepted candidates is the identifier
    of a row of the input, and every tuple filed under a key carries that
    key as its person identifier. *)
Theorem accepted_lists_filed (file : option (gmap pystr pystr))
    (df_main : list row) (fs : pystr) (l : list candidate_tuple) :
  candidate_dict
    (run_openalex_pipeline get_institutions get_authors file df_main).2
    !! fs = Some l →
  (∃ r, r ∈ df_main ∧ ID r = fs) ∧ Forall (λ t, ct_fs_id t = fs) l.
Proof.
  intros Hl.
  assert (H : filed (ID <$> df_main)
                (run_openalex_pipeline get_institutions get_authors file
                   df_main).2).
  { unfold run_openalex_pipeline.
    apply (preserves_for_each_in (filed (ID <$> df_main))).
    - intros r Hr. apply filed_search_openalex.
      apply list_elem_of_fmap. eauto.
    - intros fs' l' Hl'. simpl in Hl'. by rewrite lookup_empty in Hl'. }
  destruct (H fs l Hl) as [Hin Hall]. split; [|done].
  apply list_elem_of_fmap in Hin as (r & -> & Hr). eauto.
Qed.

End Filed.

(** The run for "Ana Ruiz Gomez": the list filed under "FS1". *)
Lemma accepted_lists_filed_witness :
  (∃ r, r ∈ [row_ana; row_ana] ∧ ID r = str "FS1")
  ∧ Forall (λ t, ct_fs_id t = str "FS1")
      (default [] (candidate_dict run_ana.2 !! str "FS1")).
Proof.
  apply (accepted_lists_filed (U := ucd) institutions_zaragoza authors_ana
           None [row_ana; row_ana]).
  vm_compute. reflexivity.
Defined.
